(** * CHIP-8 emulator (chip8emu.cpp): a shallow embedding and its properties

    The machine state of the emulator is a handful of process-wide arrays and
    scalars.  They are gathered here into one record, every opcode routine
    becomes a function from states to outcomes, and the C++ integer types are
    integers with their wrap-around written out.

    The C++ code subscripts its arrays without any range check.  An access
    outside the array has no behaviour defined by the language, so every
    routine returns an [outcome]: either the state it completes with, or
    [Undefined] together with the access that left the array.

    [RunEmulator] runs the fetch loop beside two threads.  The timer thread
    is embedded by the body of its loop, one application per tick; the key
    thread appears only through the content of [m_KeysPressed], and the
    presentation of the screen, which writes no machine state, is left
    out. *)

From Stdlib Require Import ZArith Lia Bool List.
From stdpp Require Import base numbers list gmap.
Local Open Scope Z_scope.

(** ** Integer types *)

(** [typedef unsigned char BYTE;  typedef unsigned short WORD;]
    Conversion to an unsigned type reduces modulo two to the width. *)
Definition BYTE (v : Z) : Z := v mod 256.
Definition WORD (v : Z) : Z := v mod 65536.
(** [std::size_t] on the 64-bit targets the emulator is built for. *)
Definition size_t (v : Z) : Z := v mod 2 ^ 64.

(** ** Outcomes of a C++ evaluation *)

Inductive object : Set :=
  GameMemory | Registers | Stack | ScreenData | KeysPressed | KeyMappings
  | Fontset.

Inductive undefined : Set :=
| OutOfRange (o : object) (index : Z)  (* unchecked subscript outside [o] *)
| NullStream.                          (* [fread]/[fclose] on a null [FILE*] *)

Inductive outcome (A : Type) : Type :=
| Completes (a : A)
| Undefined (u : undefined).
Arguments Completes {A} a.
Arguments Undefined {A} u.

Definition bind {A B} (c : outcome A) (k : A -> outcome B) : outcome B :=
  match c with
  | Completes a => k a
  | Undefined u => Undefined u
  end.

Declare Scope outcome_scope.
Delimit Scope outcome_scope with outcome.
Notation "x <- c ;; k" := (bind c (fun x => k))
  (at level 100, c at next level, right associativity) : outcome_scope.
Local Open Scope outcome_scope.

(** [a[i]] as an rvalue and [a[i] = v], on a built-in array or a
    [std::vector] whose extent is the length of the list. *)
Definition subscript {A} (o : object) (a : list A) (i : Z) : outcome A :=
  if (0 <=? i) && (i <? Z.of_nat (length a))
  then match a !! Z.to_nat i with
       | Some v => Completes v
       | None => Undefined (OutOfRange o i)
       end
  else Undefined (OutOfRange o i).

Definition assign {A} (o : object) (a : list A) (i : Z) (v : A)
  : outcome (list A) :=
  if (0 <=? i) && (i <? Z.of_nat (length a))
  then Completes (<[Z.to_nat i := v]> a)
  else Undefined (OutOfRange o i).

(** [for (int i = start; ...; i++) body], run for [n] iterations. *)
Fixpoint for_loop {St} (n : nat) (i : Z) (body : Z -> St -> outcome St)
  (s : St) : outcome St :=
  match n with
  | O => Completes s
  | S n' => s' <- body i s ;; for_loop n' (i + 1) body s'
  end.

(** ** Hardware state *)

Definition MEMORY_SIZE : Z := 0xfff.    (* BYTE m_GameMemory[0xfff] *)
Definition WIDTH : Z := 32.
Definition HEIGHT : Z := 64.

Record chip8 : Type := mkChip8 {
  m_GameMemory : list Z;        (* BYTE [0xfff] *)
  m_Registers : list Z;         (* BYTE [16] *)
  m_AddressI : Z;               (* WORD *)
  m_ProgramCounter : Z;         (* WORD *)
  m_stack : list Z;             (* std::vector<WORD>, back of the vector last *)
  m_ScreenData : list (list Z); (* BYTE [64][32] *)
  m_KeysPressed : list bool;    (* bool [16] *)
  m_DelayTimer : Z;             (* std::atomic<Uint8> *)
  m_SoundTimer : Z;             (* std::atomic<Uint8> *)
  ProgramRunning : bool         (* std::atomic<bool> *)
}.

Definition set_GameMemory (v : list Z) (s : chip8) : chip8 :=
  mkChip8 v (m_Registers s) (m_AddressI s) (m_ProgramCounter s) (m_stack s)
    (m_ScreenData s) (m_KeysPressed s) (m_DelayTimer s) (m_SoundTimer s)
    (ProgramRunning s).
Definition set_Registers (v : list Z) (s : chip8) : chip8 :=
  mkChip8 (m_GameMemory s) v (m_AddressI s) (m_ProgramCounter s) (m_stack s)
    (m_ScreenData s) (m_KeysPressed s) (m_DelayTimer s) (m_SoundTimer s)
    (ProgramRunning s).
Definition set_AddressI (v : Z) (s : chip8) : chip8 :=
  mkChip8 (m_GameMemory s) (m_Registers s) v (m_ProgramCounter s) (m_stack s)
    (m_ScreenData s) (m_KeysPressed s) (m_DelayTimer s) (m_SoundTimer s)
    (ProgramRunning s).
Definition set_ProgramCounter (v : Z) (s : chip8) : chip8 :=
  mkChip8 (m_GameMemory s) (m_Registers s) (m_AddressI s) v (m_stack s)
    (m_ScreenData s) (m_KeysPressed s) (m_DelayTimer s) (m_SoundTimer s)
    (ProgramRunning s).
Definition set_stack (v : list Z) (s : chip8) : chip8 :=
  mkChip8 (m_GameMemory s) (m_Registers s) (m_AddressI s) (m_ProgramCounter s)
    v (m_ScreenData s) (m_KeysPressed s) (m_DelayTimer s) (m_SoundTimer s)
    (ProgramRunning s).
Definition set_ScreenData (v : list (list Z)) (s : chip8) : chip8 :=
  mkChip8 (m_GameMemory s) (m_Registers s) (m_AddressI s) (m_ProgramCounter s)
    (m_stack s) v (m_KeysPressed s) (m_DelayTimer s) (m_SoundTimer s)
    (ProgramRunning s).
Definition set_KeysPressed (v : list bool) (s : chip8) : chip8 :=
  mkChip8 (m_GameMemory s) (m_Registers s) (m_AddressI s) (m_ProgramCounter s)
    (m_stack s) (m_ScreenData s) v (m_DelayTimer s) (m_SoundTimer s)
    (ProgramRunning s).
Definition set_DelayTimer (v : Z) (s : chip8) : chip8 :=
  mkChip8 (m_GameMemory s) (m_Registers s) (m_AddressI s) (m_ProgramCounter s)
    (m_stack s) (m_ScreenData s) (m_KeysPressed s) v (m_SoundTimer s)
    (ProgramRunning s).
Definition set_SoundTimer (v : Z) (s : chip8) : chip8 :=
  mkChip8 (m_GameMemory s) (m_Registers s) (m_AddressI s) (m_ProgramCounter s)
    (m_stack s) (m_ScreenData s) (m_KeysPressed s) (m_DelayTimer s) v
    (ProgramRunning s).
Definition set_ProgramRunning (v : bool) (s : chip8) : chip8 :=
  mkChip8 (m_GameMemory s) (m_Registers s) (m_AddressI s) (m_ProgramCounter s)
    (m_stack s) (m_ScreenData s) (m_KeysPressed s) (m_DelayTimer s)
    (m_SoundTimer s) v.

(** The objects have static storage duration, so before [CPUReset] runs they
    are zero-initialised, apart from [ProgramRunning(true)]. *)
Definition power_on : chip8 :=
  {| m_GameMemory := replicate (Z.to_nat MEMORY_SIZE) 0;
     m_Registers := replicate 16 0;
     m_AddressI := 0;
     m_ProgramCounter := 0;
     m_stack := [];
     m_ScreenData := replicate 64 (replicate 32 0);
     m_KeysPressed := replicate 16 false;
     m_DelayTimer := 0;
     m_SoundTimer := 0;
     ProgramRunning := true |}.

(** [BYTE m_keyMappings[16]]: the characters 'x','1','2','3','q','w','e','a',
    's','d','z','c','4','r','f','v'. *)
Definition m_keyMappings : list Z :=
  [120; 49; 50; 51; 113; 119; 101; 97; 115; 100; 122; 99; 52; 114; 102; 118].

(** Operand fields of an instruction word. *)
Definition field_x (opcode : Z) : Z := Z.shiftr (Z.land opcode 0xF00) 8.
Definition field_y (opcode : Z) : Z := Z.shiftr (Z.land opcode 0x0F0) 4.

Definition reg (s : chip8) (i : Z) : outcome Z :=
  subscript Registers (m_Registers s) i.
Definition set_reg (i v : Z) (s : chip8) : outcome chip8 :=
  regs <- assign Registers (m_Registers s) i v ;;
  Completes (set_Registers regs s).
Definition mem (s : chip8) (i : Z) : outcome Z :=
  subscript GameMemory (m_GameMemory s) i.
Definition set_mem (i v : Z) (s : chip8) : outcome chip8 :=
  m <- assign GameMemory (m_GameMemory s) i v ;;
  Completes (set_GameMemory m s).
Definition key (s : chip8) (i : Z) : outcome bool :=
  subscript KeysPressed (m_KeysPressed s) i.

(** ** Opcodes *)

(** Call machine code routine at NNN. *)
Definition Opcode0NNN (opcode : Z) (s : chip8) : outcome chip8 :=
  Completes s.

(** Clears the screen: [memset(m_ScreenData, 0, sizeof(m_ScreenData))]. *)
Definition Opcode00E0 (opcode : Z) (s : chip8) : outcome chip8 :=
  Completes (set_ScreenData (replicate 64 (replicate 32 0)) s).

(** Returns from a subroutine.  [m_stack.size()-1] is computed in [size_t],
    so on an empty vector the subscript is the largest [size_t]. *)
Definition Opcode00EE (opcode : Z) (s : chip8) : outcome chip8 :=
  top <- subscript Stack (m_stack s)
           (size_t (Z.of_nat (length (m_stack s)) - 1)) ;;
  Completes (set_stack (removelast (m_stack s)) (set_ProgramCounter top s)).

(** Jumps to address NNN. *)
Definition Opcode1NNN (opcode : Z) (s : chip8) : outcome chip8 :=
  Completes (set_ProgramCounter (Z.land opcode 0xFFF) s).

(** Calls subroutine at NNN. *)
Definition Opcode2NNN (opcode : Z) (s : chip8) : outcome chip8 :=
  let s1 := set_stack (m_stack s ++ [m_ProgramCounter s]) s in
  Completes (set_ProgramCounter (Z.land opcode 0xFFF) s1).

(** [m_ProgramCounter += 2] *)
Definition skip (s : chip8) : chip8 :=
  set_ProgramCounter (WORD (m_ProgramCounter s + 2)) s.

(** Skips the next instruction if VX equals NN. *)
Definition Opcode3XNN (opcode : Z) (s : chip8) : outcome chip8 :=
  let x := Z.shiftr (Z.land opcode 0xF00) 8 in
  let nn := Z.land opcode 0x0FF in
  vx <- reg s x ;;
  Completes (if vx =? nn then skip s else s).

(** Skips the next instruction if VX does not equal NN. *)
Definition Opcode4XNN (opcode : Z) (s : chip8) : outcome chip8 :=
  x <- reg s (Z.shiftr (Z.land opcode 0xF00) 8) ;;
  let nn := Z.land opcode 0x0FF in
  Completes (if x =? nn then s else skip s).

(** Skips the next instruction if VX equals VY. *)
Definition Opcode5XY0 (opcode : Z) (s : chip8) : outcome chip8 :=
  x <- reg s (Z.shiftr (Z.land opcode 0xF00) 8) ;;
  y <- reg s (Z.shiftr (Z.land opcode 0x0F0) 4) ;;
  Completes (if x =? y then skip s else s).

(** Sets VX to NN. *)
Definition Opcode6XNN (opcode : Z) (s : chip8) : outcome chip8 :=
  let regx := Z.shiftr (Z.land opcode 0xF00) 8 in
  let nn := WORD (Z.land opcode 0x0FF) in
  set_reg regx (BYTE nn) s.

(** Adds NN to VX (carry flag is not changed). *)
Definition Opcode7XNN (opcode : Z) (s : chip8) : outcome chip8 :=
  let regx := Z.shiftr (Z.land opcode 0xF00) 8 in
  let nn := WORD (Z.land opcode 0x0FF) in
  vx <- reg s regx ;;
  set_reg regx (BYTE (vx + nn)) s.

(** Sets VX to the value of VY. *)
Definition Opcode8XY0 (opcode : Z) (s : chip8) : outcome chip8 :=
  vy <- reg s (Z.shiftr (Z.land opcode 0x0F0) 4) ;;
  set_reg (Z.shiftr (Z.land opcode 0xF00) 8) vy s.

(** Sets VX to VX or VY. *)
Definition Opcode8XY1 (opcode : Z) (s : chip8) : outcome chip8 :=
  vy <- reg s (Z.shiftr (Z.land opcode 0x0F0) 4) ;;
  vx <- reg s (Z.shiftr (Z.land opcode 0xF00) 8) ;;
  set_reg (Z.shiftr (Z.land opcode 0xF00) 8) (BYTE (Z.lor vx vy)) s.

(** Sets VX to VX and VY. *)
Definition Opcode8XY2 (opcode : Z) (s : chip8) : outcome chip8 :=
  vy <- reg s (Z.shiftr (Z.land opcode 0x0F0) 4) ;;
  vx <- reg s (Z.shiftr (Z.land opcode 0xF00) 8) ;;
  set_reg (Z.shiftr (Z.land opcode 0xF00) 8) (BYTE (Z.land vx vy)) s.

(** Sets VX to VX xor VY. *)
Definition Opcode8XY3 (opcode : Z) (s : chip8) : outcome chip8 :=
  vy <- reg s (Z.shiftr (Z.land opcode 0x0F0) 4) ;;
  vx <- reg s (Z.shiftr (Z.land opcode 0xF00) 8) ;;
  set_reg (Z.shiftr (Z.land opcode 0xF00) 8) (BYTE (Z.lxor vx vy)) s.

(** Adds VY to VX.  VF is set to 1 when there's a carry, and to 0 when there
    isn't. *)
Definition Opcode8XY4 (opcode : Z) (s : chip8) : outcome chip8 :=
  let x := Z.shiftr (Z.land opcode 0xF00) 8 in
  let y := Z.shiftr (Z.land opcode 0x0F0) 4 in
  vx <- reg s x ;;
  vy <- reg s y ;;
  let sum := vx + vy in
  s1 <- (if sum >? 255 then set_reg 0xF 1 s else set_reg 0xF 0 s) ;;
  set_reg x (BYTE (Z.land sum 0xFF)) s1.

(** VY is subtracted from VX.  VF is set to 0 when there's a borrow, and 1
    when there isn't. *)
Definition Opcode8XY5 (opcode : Z) (s : chip8) : outcome chip8 :=
  s1 <- set_reg 0xF 1 s ;;
  let regx := Z.shiftr (Z.land opcode 0x0F00) 8 in
  let regy := Z.shiftr (Z.land opcode 0x00F0) 4 in
  xval <- reg s1 regx ;;
  yval <- reg s1 regy ;;
  s2 <- (if yval >? xval then set_reg 0xF 0 s1 else Completes s1) ;;
  set_reg regx (BYTE (xval - yval)) s2.

(** Stores the least significant bit of VX in VF and then shifts VX to the
    right by 1. *)
Definition Opcode8XY6 (opcode : Z) (s : chip8) : outcome chip8 :=
  let x := Z.shiftr (Z.land opcode 0xF00) 8 in
  vx <- reg s x ;;
  s1 <- set_reg 0xF (BYTE (Z.land vx 1)) s ;;
  vx1 <- reg s1 x ;;
  set_reg x (BYTE (Z.shiftr vx1 1)) s1.

(** Sets VX to VY minus VX.  VF is set to 0 when there's a borrow, and 1 when
    there isn't. *)
Definition Opcode8XY7 (opcode : Z) (s : chip8) : outcome chip8 :=
  s1 <- set_reg 0xF 1 s ;;
  let regx := Z.shiftr (Z.land opcode 0x0F00) 8 in
  let regy := Z.shiftr (Z.land opcode 0x00F0) 4 in
  xval <- reg s1 regx ;;
  yval <- reg s1 regy ;;
  s2 <- (if xval >? yval then set_reg 0xF 0 s1 else Completes s1) ;;
  set_reg regx (BYTE (yval - xval)) s2.

(** Stores the most significant bit of VX in VF and then shifts VX to the
    left by 1. *)
Definition Opcode8XYE (opcode : Z) (s : chip8) : outcome chip8 :=
  let x := Z.shiftr (Z.land opcode 0xF00) 8 in
  vx <- reg s x ;;
  s1 <- set_reg 0xF (BYTE (Z.shiftr vx 7)) s ;;
  vx1 <- reg s1 x ;;
  set_reg x (BYTE (Z.shiftl vx1 1)) s1.

(** Skips the next instruction if VX doesn't equal VY. *)
Definition Opcode9XY0 (opcode : Z) (s : chip8) : outcome chip8 :=
  vx <- reg s (Z.shiftr (Z.land opcode 0xF00) 8) ;;
  vy <- reg s (Z.shiftr (Z.land opcode 0x0F0) 4) ;;
  Completes (if vx =? vy then s else skip s).

(** Sets I to the address NNN. *)
Definition OpcodeANNN (opcode : Z) (s : chip8) : outcome chip8 :=
  Completes (set_AddressI (Z.land opcode 0xFFF) s).

(** Jumps to the address NNN plus V0. *)
Definition OpcodeBNNN (opcode : Z) (s : chip8) : outcome chip8 :=
  v0 <- reg s 0 ;;
  Completes (set_ProgramCounter (WORD (v0 + Z.land opcode 0xFFF)) s).

(** Sets VX to the result of a bitwise and operation on a random number and
    NN; [rnd] is the value [rand()] returns at this call. *)
Definition OpcodeCXNN (rnd : Z) (opcode : Z) (s : chip8) : outcome chip8 :=
  set_reg (Z.shiftr (Z.land opcode 0xF00) 8)
    (BYTE (Z.land rnd (Z.land opcode 0x0FF))) s.

(** Draws a sprite at coordinate (VX, VY) that has a width of 8 pixels and a
    height of N pixels.  The macros are named the other way round in the
    source: [x %= HEIGHT] with [HEIGHT] 64, [y %= WIDTH] with [WIDTH] 32. *)
Definition draw_pixel (coordx coordy data yline xpixel : Z) (s : chip8)
  : outcome chip8 :=
  let xpixelinv := 7 - xpixel in
  let mask := Z.shiftl 1 xpixelinv in
  if Z.land data mask =? 0 then Completes s
  else
    let x := Z.rem (coordx + xpixel) HEIGHT in
    let y := Z.rem (coordy + yline) WIDTH in
    col <- subscript ScreenData (m_ScreenData s) x ;;
    pix <- subscript ScreenData col y ;;
    s1 <- (if pix =? 1 then set_reg 0xF 1 s else Completes s) ;;
    col1 <- subscript ScreenData (m_ScreenData s1) x ;;
    pix1 <- subscript ScreenData col1 y ;;
    col2 <- assign ScreenData col1 y (BYTE (Z.lxor pix1 1)) ;;
    scr <- assign ScreenData (m_ScreenData s1) x col2 ;;
    Completes (set_ScreenData scr s1).

Definition draw_line (coordx coordy yline : Z) (s : chip8) : outcome chip8 :=
  data <- mem s (m_AddressI s + yline) ;;
  for_loop 8 0 (draw_pixel coordx coordy data yline) s.

Definition OpcodeDXYN (opcode : Z) (s : chip8) : outcome chip8 :=
  let regx := Z.shiftr (Z.land opcode 0x0F00) 8 in
  let regy := Z.shiftr (Z.land opcode 0x00F0) 4 in
  let height := Z.land opcode 0x000F in
  coordx <- reg s regx ;;
  coordy <- reg s regy ;;
  s1 <- set_reg 0xF 0 s ;;
  for_loop (Z.to_nat height) 0 (draw_line coordx coordy) s1.

Definition OpcodeEX9E (opcode : Z) (s : chip8) : outcome chip8 :=
  let regx := Z.shiftr (Z.land opcode 0xF00) 8 in
  vx <- reg s regx ;;
  k <- key s vx ;;
  Completes (if k then skip s else s).

Definition OpcodeEXA1 (opcode : Z) (s : chip8) : outcome chip8 :=
  let regx := Z.shiftr (Z.land opcode 0xF00) 8 in
  vx <- reg s regx ;;
  k <- key s vx ;;
  Completes (if k then s else skip s).

Definition OpcodeFX07 (opcode : Z) (s : chip8) : outcome chip8 :=
  let regx := Z.shiftr (Z.land opcode 0xF00) 8 in
  set_reg regx (m_DelayTimer s) s.

(** The state carries [keypressed] through the scan of the sixteen keys;
    [SDL_Delay] only lets time pass. *)
Definition OpcodeFX0A (opcode : Z) (s : chip8) : outcome chip8 :=
  let regx := Z.shiftr (Z.land opcode 0xF00) 8 in
  r <- for_loop 16 0 (fun i (st : chip8 * Z) =>
         k <- key (fst st) i ;;
         if k then
           km <- subscript KeyMappings m_keyMappings i ;;
           s1 <- set_reg regx km (fst st) ;;
           Completes (s1, 1)
         else Completes st) (s, 0) ;;
  Completes (if snd r =? 0
             then set_ProgramCounter (WORD (m_ProgramCounter (fst r) - 2)) (fst r)
             else fst r).

Definition OpcodeFX15 (opcode : Z) (s : chip8) : outcome chip8 :=
  vx <- reg s (Z.shiftr (Z.land opcode 0xF00) 8) ;;
  Completes (set_DelayTimer vx s).

Definition OpcodeFX18 (opcode : Z) (s : chip8) : outcome chip8 :=
  vx <- reg s (Z.shiftr (Z.land opcode 0xF00) 8) ;;
  Completes (set_SoundTimer vx s).

(** Adds VX to I. *)
Definition OpcodeFX1E (opcode : Z) (s : chip8) : outcome chip8 :=
  let regx := Z.shiftr (Z.land opcode 0xF00) 8 in
  vx <- reg s regx ;;
  Completes (set_AddressI (WORD (m_AddressI s + vx)) s).

(** Sets I to the location of the sprite for the character in VX.
    Characters 0-F (in hexadecimal) are represented by a 4x5 font. *)
Definition OpcodeFX29 (opcode : Z) (s : chip8) : outcome chip8 :=
  let regx := Z.shiftr (Z.land opcode 0xF00) 8 in
  vx <- reg s regx ;;
  b <- mem s vx ;;
  Completes (set_AddressI (WORD b) s).

(** Stores the binary-coded decimal representation of VX, with the most
    significant of three digits at the address in I. *)
Definition OpcodeFX33 (opcode : Z) (s : chip8) : outcome chip8 :=
  let regx := Z.shiftr (Z.land opcode 0x0F00) 8 in
  value <- reg s regx ;;
  let hundreds := Z.quot value 100 in
  let tens := Z.rem (Z.quot value 10) 10 in
  let units := Z.rem value 10 in
  s1 <- set_mem (m_AddressI s) (BYTE hundreds) s ;;
  s2 <- set_mem (m_AddressI s1 + 1) (BYTE tens) s1 ;;
  set_mem (m_AddressI s2 + 2) (BYTE units) s2.

(** Stores V0 to VX (including VX) in memory starting at address I.  The
    running address [tmp_addressI] is [m_AddressI + i]; the assignment back to
    [m_AddressI] is commented out in the source. *)
Definition OpcodeFX55 (opcode : Z) (s : chip8) : outcome chip8 :=
  let regx := Z.shiftr (Z.land opcode 0xF00) 8 in
  let tmp_addressI := m_AddressI s in
  for_loop (Z.to_nat (regx + 1)) 0 (fun i s =>
    vi <- reg s i ;;
    set_mem (tmp_addressI + i) vi s) s.

(** Fills V0 to VX (including VX) with values from memory starting at
    address I. *)
Definition OpcodeFX65 (opcode : Z) (s : chip8) : outcome chip8 :=
  let regx := Z.shiftr (Z.land opcode 0xF00) 8 in
  let tmp_addressI := m_AddressI s in
  for_loop (Z.to_nat (regx + 1)) 0 (fun i s =>
    b <- mem s (tmp_addressI + i) ;;
    set_reg i b s) s.

(** ** Reset, fetch, dispatch *)

Definition fontset : list Z :=
  [ 0xF0; 0x90; 0x90; 0x90; 0xF0;  (* 0 *)
    0x20; 0x60; 0x20; 0x20; 0x70;  (* 1 *)
    0xF0; 0x10; 0xF0; 0x80; 0xF0;  (* 2 *)
    0xF0; 0x10; 0xF0; 0x10; 0xF0;  (* 3 *)
    0x90; 0x90; 0xF0; 0x10; 0x10;  (* 4 *)
    0xF0; 0x80; 0xF0; 0x10; 0xF0;  (* 5 *)
    0xF0; 0x80; 0xF0; 0x90; 0xF0;  (* 6 *)
    0xF0; 0x10; 0x20; 0x40; 0x40;  (* 7 *)
    0xF0; 0x90; 0xF0; 0x90; 0xF0;  (* 8 *)
    0xF0; 0x90; 0xF0; 0x10; 0xF0;  (* 9 *)
    0xF0; 0x90; 0xF0; 0x90; 0x90;  (* A *)
    0xE0; 0x90; 0xE0; 0x90; 0xE0;  (* B *)
    0xF0; 0x80; 0x80; 0x80; 0xF0;  (* C *)
    0xE0; 0x90; 0x90; 0x90; 0xE0;  (* D *)
    0xF0; 0x80; 0xF0; 0x80; 0xF0;  (* E *)
    0xF0; 0x80; 0xF0; 0x80; 0x80   (* F *) ].

(** Consecutive byte stores starting at [m_GameMemory[a]]. *)
Fixpoint store_bytes (a : Z) (bytes : list Z) (s : chip8) : outcome chip8 :=
  match bytes with
  | [] => Completes s
  | b :: bs => s1 <- set_mem a b s ;; store_bytes (a + 1) bs s1
  end.

(** [fread(&m_GameMemory[dst], size, nmemb, in)].  The stream is what [fopen]
    returned: [None] is the null pointer of a file that is absent or cannot be
    read, [Some bytes] an open file with that content.  At most [size * nmemb]
    bytes are transferred, and the bytes of a short last element are stored
    as they arrive. *)
Definition fread (dst size nmemb : Z) (stream : option (list Z)) (s : chip8)
  : outcome chip8 :=
  match stream with
  | None => Undefined NullStream
  | Some bytes => store_bytes dst (take (Z.to_nat (size * nmemb)) bytes) s
  end.

(** Resets the CPU.  The result of [fopen] is used unchecked. *)
Definition CPUReset (file : option (list Z)) (s : chip8) : outcome chip8 :=
  let s := set_ProgramRunning true s in
  let s := set_AddressI 0 s in
  let s := set_ProgramCounter 0x200 s in
  let s := set_Registers (replicate 16 0) s in
  s <- for_loop 80 0 (fun i s =>
         f <- subscript Fontset fontset i ;;
         set_mem i f s) s ;;
  s <- fread 0x200 0xfff 1 file s ;;
  for_loop 16 0 (fun i s =>
    ks <- assign KeysPressed (m_KeysPressed s) i false ;;
    Completes (set_KeysPressed ks s)) s.

(** Returns the next opcode that is in memory. *)
Definition GetNextOpcode (s : chip8) : outcome (Z * chip8) :=
  hi <- mem s (m_ProgramCounter s) ;;
  let opcode := WORD (Z.shiftl hi 8) in
  lo <- mem s (m_ProgramCounter s + 1) ;;
  let opcode := Z.lor opcode lo in
  Completes (opcode, set_ProgramCounter (WORD (m_ProgramCounter s + 2)) s).

(** The [switch] of [RunEmulator] on a fetched instruction word.  Drawing is
    followed by the presentation of the frame, which reads the screen only. *)
Definition execute (rnd : Z) (opcode : Z) (s : chip8) : outcome chip8 :=
  let msb := Z.shiftr (Z.land opcode 0xF000) 12 in
  match msb with
  | 0 =>
      if Z.land opcode 0x00F =? 0 then Opcode00E0 opcode s
      else if Z.land opcode 0xF00 =? 0 then Opcode00EE opcode s
      else Opcode0NNN opcode s
  | 1 => Opcode1NNN opcode s
  | 2 => Opcode2NNN opcode s
  | 3 => Opcode3XNN opcode s
  | 4 => Opcode4XNN opcode s
  | 5 => Opcode5XY0 opcode s
  | 6 => Opcode6XNN opcode s
  | 7 => Opcode7XNN opcode s
  | 8 =>
      let lsb := Z.land opcode 0x00F in
      match lsb with
      | 0 => Opcode8XY0 opcode s
      | 1 => Opcode8XY1 opcode s
      | 2 => Opcode8XY2 opcode s
      | 3 => Opcode8XY3 opcode s
      | 4 => Opcode8XY4 opcode s
      | 5 => Opcode8XY5 opcode s
      | 6 => Opcode8XY6 opcode s
      | 7 => Opcode8XY7 opcode s
      | 14 => Opcode8XYE opcode s
      | _ => Completes s
      end
  | 9 => Opcode9XY0 opcode s
  | 0xA => OpcodeANNN opcode s
  | 0xB => OpcodeBNNN opcode s
  | 0xC => OpcodeCXNN rnd opcode s
  | 0xD => OpcodeDXYN opcode s
  | 0xE =>
      if Z.land opcode 0x00F =? 1 then OpcodeEXA1 opcode s
      else OpcodeEX9E opcode s
  | 0xF =>
      let lsb := Z.land opcode 0x0FF in
      match lsb with
      | 0x07 => OpcodeFX07 opcode s
      | 0x0A => OpcodeFX0A opcode s
      | 0x15 => OpcodeFX15 opcode s
      | 0x18 => OpcodeFX18 opcode s
      | 0x1E => OpcodeFX1E opcode s
      | 0x29 => OpcodeFX29 opcode s
      | 0x33 => OpcodeFX33 opcode s
      | 0x55 => OpcodeFX55 opcode s
      | 0x65 => OpcodeFX65 opcode s
      | _ => Completes s
      end
  | _ => Completes s
  end.

(** One turn of the [while (ProgramRunning)] loop: fetch, then dispatch. *)
Definition cycle (rnd : Z) (s : chip8) : outcome chip8 :=
  f <- GetNextOpcode s ;;
  execute rnd (fst f) (snd f).

(** [RunEmulator]: reset, then the loop for as long as [ProgramRunning] holds
    and random numbers are supplied, one per turn. *)
Fixpoint run_loop (rnds : list Z) (s : chip8) : outcome chip8 :=
  match rnds with
  | [] => Completes s
  | rnd :: rest =>
      if ProgramRunning s then s1 <- cycle rnd s ;; run_loop rest s1
      else Completes s
  end.

Definition RunEmulator (file : option (list Z)) (rnds : list Z) (s : chip8)
  : outcome chip8 :=
  s1 <- CPUReset file s ;;
  run_loop rnds s1.

(** ** The timer thread *)

(** One turn of the loop of [decreseTimer], after its sleep of 1000/60 ms. *)
Definition decreseTimer_tick (s : chip8) : chip8 :=
  if m_DelayTimer s >? 0
  then set_DelayTimer (BYTE (m_DelayTimer s - 1)) s
  else s.

Fixpoint decreseTimer (ticks : nat) (s : chip8) : chip8 :=
  match ticks with
  | O => s
  | S n => if ProgramRunning s then decreseTimer n (decreseTimer_tick s) else s
  end.

(** * Vocabulary of the properties *)

(** The arrays of a state have the extents they are declared with. *)
Definition registers_extent (s : chip8) : Prop :=
  length (m_Registers s) = 16%nat.
Definition keys_extent (s : chip8) : Prop :=
  length (m_KeysPressed s) = 16%nat.
Definition screen_extent (s : chip8) : Prop :=
  length (m_ScreenData s) = 64%nat /\
  forall col, col ∈ m_ScreenData s -> length col = 32%nat.

(** Register [i] as a value, [0] standing for a register that is not there. *)
Definition V (s : chip8) (i : Z) : Z := default 0 (m_Registers s !! Z.to_nat i).

(** [ProgramRunning] and the extents of memory and registers are in [s']
    what they are in [s]. *)
Record keeps (s s' : chip8) : Prop := {
  keeps_running : ProgramRunning s' = ProgramRunning s;
  keeps_memory : length (m_GameMemory s') = length (m_GameMemory s);
  keeps_registers : length (m_Registers s') = length (m_Registers s)
}.

(** The low nibbles of the [case] labels of group 8 and the low bytes of those
    of group F. *)
Definition listed_8XY : list Z := [0; 1; 2; 3; 4; 5; 6; 7; 14].
Definition listed_FX : list Z :=
  [0x07; 0x0A; 0x15; 0x18; 0x1E; 0x29; 0x33; 0x55; 0x65].

(** The instruction words that reach no routine, or the empty [Opcode0NNN]. *)
Definition falls_through (opcode : Z) : Prop :=
  let msb := Z.shiftr (Z.land opcode 0xF000) 12 in
  (msb = 8 /\ ~ In (Z.land opcode 0x00F) listed_8XY) \/
  (msb = 0xF /\ ~ In (Z.land opcode 0x0FF) listed_FX) \/
  (msb = 0 /\ Z.land opcode 0x00F <> 0 /\ Z.land opcode 0xF00 <> 0).

(** The machine as [CPUReset] leaves it on a program that fits. *)
Definition loaded (program : list Z) : chip8 :=
  match CPUReset (Some program) power_on with
  | Completes s => s
  | Undefined _ => power_on
  end.

(** What the dump and the load keep from turn to turn. *)
Definition transfer_invariant (s t : chip8) : Prop :=
  m_AddressI t = m_AddressI s /\
  length (m_Registers t) = length (m_Registers s) /\
  length (m_GameMemory t) = length (m_GameMemory s).

(** The pixel in column [x], row [y] of a screen. *)
Definition cell (scr : list (list Z)) (x y : Z) : Z :=
  match scr !! Z.to_nat x with
  | Some col => default 0 (col !! Z.to_nat y)
  | None => 0
  end.
Definition pixel (s : chip8) (x y : Z) : Z := cell (m_ScreenData s) x y.

(** Row [r] of the sprite at the index register, and its bit for column [c],
    the most significant bit being column 0. *)
Definition sprite_row (s : chip8) (r : Z) : Z :=
  default 0 (m_GameMemory s !! Z.to_nat (m_AddressI s + r)).
Definition sprite_bit (s : chip8) (r c : Z) : bool :=
  Z.testbit (sprite_row s r) (7 - c).

(** The sprite bits the scan has passed when it stands before row [j],
    column [k]. *)
Definition passed (j k r c : Z) : Prop :=
  0 <= r /\ 0 <= c < 8 /\ (r < j \/ (r = j /\ c < k)).

(** Whether the scan, standing before row [j], column [k], has met a set
    sprite bit at the pixel [(px, py)]: the one sprite bit that can fall on the
    pixel is the one [(px - vx) mod 64] columns and [(py - vy) mod 32] rows
    into the sprite. *)
Definition toggled (s : chip8) (vx vy j k px py : Z) : bool :=
  let c := (px - vx) mod 64 in
  let r := (py - vy) mod 32 in
  (c <? 8) && sprite_bit s r c && ((r <? j) || ((r =? j) && (c <? k))).

(** Sprite bit [(r, c)] is set and falls on a pixel that was lit before the
    draw. *)
Definition collision (s : chip8) (vx vy r c : Z) : Prop :=
  sprite_bit s r c = true /\
  pixel s ((vx + c) mod 64) ((vy + r) mod 32) = 1.

(** What a draw leaves alone. *)
Definition untouched (s t : chip8) : Prop :=
  m_GameMemory t = m_GameMemory s /\ m_AddressI t = m_AddressI s /\
  m_ProgramCounter t = m_ProgramCounter s /\ m_stack t = m_stack s /\
  m_KeysPressed t = m_KeysPressed s /\ m_DelayTimer t = m_DelayTimer s /\
  m_SoundTimer t = m_SoundTimer s /\ ProgramRunning t = ProgramRunning s.

(** The state [t] of a draw begun in [s] with origin [(vx, vy)], when the scan
    stands before row [j], column [k]. *)
Record draw_invariant (s : chip8) (vx vy j k : Z) (t : chip8) : Prop := {
  di_registers : registers_extent t;
  di_screen : screen_extent t;
  di_pixels : forall px py, 0 <= px < 64 -> 0 <= py < 32 ->
    pixel t px py =
      if toggled s vx vy j k px py
      then BYTE (Z.lxor (pixel s px py) 1) else pixel s px py;
  di_flag :
    (V t 0xF = 1 /\ exists r c, passed j k r c /\ collision s vx vy r c) \/
    (V t 0xF = 0 /\ forall r c, passed j k r c -> ~ collision s vx vy r c);
  di_others : forall i, 0 <= i -> i <> 0xF -> V t i = V s i;
  di_rest : untouched s t
}.

(** The instructions that address memory, with the first address and the
    number of consecutive bytes each one addresses. *)
Inductive memory_access : Set :=
  Fetch | Draw | StoreBCD | DumpRegs | LoadRegs.

Definition first_address (a : memory_access) (s : chip8) : Z :=
  match a with
  | Fetch => m_ProgramCounter s
  | Draw | StoreBCD | DumpRegs | LoadRegs => m_AddressI s
  end.

Definition byte_count (a : memory_access) (opcode : Z) : Z :=
  match a with
  | Fetch => 2
  | Draw => Z.land opcode 0x000F
  | StoreBCD => 3
  | DumpRegs | LoadRegs => field_x opcode + 1
  end.

Definition perform (a : memory_access) (opcode : Z) (s : chip8)
  : outcome chip8 :=
  match a with
  | Fetch => f <- GetNextOpcode s ;; Completes (snd f)
  | Draw => OpcodeDXYN opcode s
  | StoreBCD => OpcodeFX33 opcode s
  | DumpRegs => OpcodeFX55 opcode s
  | LoadRegs => OpcodeFX65 opcode s
  end.

(** An outcome that is an unchecked access to memory at or beyond its end. *)
Definition leaves_memory (o : outcome chip8) (s : chip8) (limit : Z) : Prop :=
  exists addr, o = Undefined (OutOfRange GameMemory addr) /\
               Z.of_nat (length (m_GameMemory s)) <= addr < limit.

(** Memory [m] with [bytes] written over it from index [a]. *)
Definition overwrite (m : list Z) (a : nat) (bytes : list Z) : list Z :=
  take a m ++ bytes ++ drop (a + length bytes) m.

(** The bytes one call [fread(_, 0xfff, 1, in)] transfers from an image. *)
Definition transferred (image : list Z) : list Z :=
  take (Z.to_nat (0xfff * 1)) image.

(** * The key thread *)

(** The state the key thread shares with the interpreter: the machine, whose
    [m_KeysPressed] and [ProgramRunning] it writes, and the map
    [std::map<char,int> key_to_index], which [operator[]] may extend. *)
Record host : Type := mkHost {
  machine : chip8;
  key_to_index : gmap Z Z
}.

(** The map as it is initialised: 'x' is key 0, '1' key 1, ... 'v' key 15. *)
Definition key_to_index_initial : gmap Z Z :=
  list_to_map
    [ (120, 0); (49, 1); (50, 2); (51, 3);
      (113, 4); (119, 5); (101, 6); (97, 7);
      (115, 8); (100, 9); (122, 10); (99, 11);
      (52, 12); (114, 13); (102, 14); (118, 15) ].

(** The [int] key symbol converted to the [char] that keys the map.  Two
    symbols give the same [char] exactly when they agree modulo 256, and a
    [char] is represented here by that residue. *)
Definition to_char (sym : Z) : Z := sym mod 256.

(** [std::map::operator[]]: the mapped value, a missing key being inserted
    with the value-initialised [int] 0. *)
Definition map_subscript (m : gmap Z Z) (k : Z) : Z * gmap Z Z :=
  match m !! k with
  | Some v => (v, m)
  | None => (0, <[k := 0]> m)
  end.

(** The events [SDL_PollEvent] delivers, by their [type]. *)
Inductive SDL_Event : Set :=
| EvQuit                 (* SDL_QUIT *)
| EvKeyDown (sym : Z)    (* SDL_KEYDOWN, with e.key.keysym.sym *)
| EvKeyUp (sym : Z)      (* SDL_KEYUP *)
| EvOther.

(** [m_KeysPressed[key_to_index[key]] = pressed] *)
Definition latch (sym : Z) (pressed : bool) (h : host) : outcome host :=
  let r := map_subscript (key_to_index h) (to_char sym) in
  ks <- assign KeysPressed (m_KeysPressed (machine h)) (fst r) pressed ;;
  Completes (mkHost (set_KeysPressed ks (machine h)) (snd r)).

(** The body of the inner loop of [keyUpdate] on one event. *)
Definition keyUpdate_event (e : SDL_Event) (h : host) : outcome host :=
  match e with
  | EvQuit =>
      Completes (mkHost (set_ProgramRunning false (machine h)) (key_to_index h))
  | EvKeyDown sym => latch sym true h
  | EvKeyUp sym => latch sym false h
  | EvOther => Completes h
  end.

(** [while (SDL_PollEvent(&e))]: the events pending at one poll, in order. *)
Fixpoint keyUpdate_poll (events : list SDL_Event) (h : host) : outcome host :=
  match events with
  | [] => Completes h
  | e :: rest => h1 <- keyUpdate_event e h ;; keyUpdate_poll rest h1
  end.

(** [keyUpdate]: one batch of pending events per turn of the outer loop,
    which runs while [ProgramRunning] holds. *)
Fixpoint keyUpdate (polls : list (list SDL_Event)) (h : host) : outcome host :=
  match polls with
  | [] => Completes h
  | events :: rest =>
      if ProgramRunning (machine h)
      then h1 <- keyUpdate_poll events h ;; keyUpdate rest h1
      else Completes h
  end.

(** * Further vocabulary *)

(** The key a symbol acts on: the index the initial map has for its
    character, and key 0 for a character the initial map does not have. *)
Definition key_of (sym : Z) : Z :=
  default 0 (key_to_index_initial !! to_char sym).

(** The character [m_keyMappings] holds for key [i]. *)
Definition key_char (i : Z) : Z := default 0 (m_keyMappings !! Z.to_nat i).

(** A map that [operator[]] has grown from the initial one: the sixteen
    characters keep their indices and every other character it holds has
    index 0. *)
Definition grown_from_initial (m : gmap Z Z) : Prop :=
  (forall c i, key_to_index_initial !! c = Some i -> m !! c = Some i) /\
  (forall c v, m !! c = Some v ->
               key_to_index_initial !! c = Some v \/ v = 0).

(** The bytes [hi], [lo] at addresses [a], [a+1] make up the word [w], high
    byte first. *)
Definition word_at (s : chip8) (a w : Z) : Prop :=
  exists hi lo,
    m_GameMemory s !! Z.to_nat a = Some hi /\
    m_GameMemory s !! Z.to_nat (a + 1) = Some lo /\
    0 <= hi < 256 /\ 0 <= lo < 256 /\ w = 256 * hi + lo.

(** The machine [t] is the machine [s] but for [m_KeysPressed] and
    [ProgramRunning]. *)
Definition same_but_latch (s t : chip8) : Prop :=
  set_KeysPressed [] (set_ProgramRunning true t)
  = set_KeysPressed [] (set_ProgramRunning true s).





(** * Properties *)

(** ** Subscripts, stores and loops *)

Lemma subscript_Completes {A} (o : object) (a : list A) (i : Z) (v : A) :
  0 <= i -> a !! Z.to_nat i = Some v -> subscript o a i = Completes v.
Proof.
  intros Hi Hv. unfold subscript.
  pose proof (lookup_lt_Some _ _ _ Hv) as Hlt.
  destruct (Z.leb_spec 0 i); [|lia].
  destruct (Z.ltb_spec i (Z.of_nat (length a))); [|lia].
  simpl. now rewrite Hv.
Qed.

Lemma subscript_inv {A} (o : object) (a : list A) (i : Z) (v : A) :
  subscript o a i = Completes v ->
  0 <= i < Z.of_nat (length a) /\ a !! Z.to_nat i = Some v.
Proof.
  unfold subscript.
  destruct (Z.leb_spec 0 i); simpl; [|discriminate].
  destruct (Z.ltb_spec i (Z.of_nat (length a))); [|discriminate].
  destruct (a !! Z.to_nat i) eqn:E; [|discriminate].
  intros [= ->]. split; [lia|reflexivity].
Qed.

Lemma subscript_in_range {A} (o : object) (a : list A) (i : Z) :
  0 <= i < Z.of_nat (length a) ->
  exists v, subscript o a i = Completes v /\ a !! Z.to_nat i = Some v.
Proof.
  intros Hi. destruct (lookup_lt_is_Some_2 a (Z.to_nat i)) as [v Hv]; [lia|].
  exists v. split; [apply subscript_Completes; [lia|exact Hv] | exact Hv].
Qed.

Lemma subscript_outside {A} (o : object) (a : list A) (i : Z) :
  ~ 0 <= i < Z.of_nat (length a) ->
  subscript o a i = Undefined (OutOfRange o i).
Proof.
  intros Hi. unfold subscript.
  destruct (Z.leb_spec 0 i); simpl; [|reflexivity].
  destruct (Z.ltb_spec i (Z.of_nat (length a))); [lia|reflexivity].
Qed.

Lemma assign_in_range {A} (o : object) (a : list A) (i : Z) (v : A) :
  0 <= i < Z.of_nat (length a) ->
  assign o a i v = Completes (<[Z.to_nat i := v]> a).
Proof.
  intros Hi. unfold assign.
  destruct (Z.leb_spec 0 i); [|lia].
  destruct (Z.ltb_spec i (Z.of_nat (length a))); [|lia]. reflexivity.
Qed.

Lemma assign_outside {A} (o : object) (a : list A) (i : Z) (v : A) :
  ~ 0 <= i < Z.of_nat (length a) ->
  assign o a i v = Undefined (OutOfRange o i).
Proof.
  intros Hi. unfold assign.
  destruct (Z.leb_spec 0 i); simpl; [|reflexivity].
  destruct (Z.ltb_spec i (Z.of_nat (length a))); [lia|reflexivity].
Qed.

Lemma assign_inv {A} (o : object) (a b : list A) (i : Z) (v : A) :
  assign o a i v = Completes b ->
  0 <= i < Z.of_nat (length a) /\ b = <[Z.to_nat i := v]> a.
Proof.
  unfold assign.
  destruct (Z.leb_spec 0 i); simpl; [|discriminate].
  destruct (Z.ltb_spec i (Z.of_nat (length a))); [|discriminate].
  intros [= <-]. split; [lia|reflexivity].
Qed.

Lemma bind_inv {A B} (c : outcome A) (k : A -> outcome B) (b : B) :
  bind c k = Completes b -> exists a, c = Completes a /\ k a = Completes b.
Proof. destruct c as [a|u]; simpl; [eauto|discriminate]. Qed.

(** A loop whose body keeps an invariant and always completes under it
    completes, and the invariant holds of the final state. *)
Lemma for_loop_invariant {St} (P : Z -> St -> Prop)
  (body : Z -> St -> outcome St) (n : nat) (i : Z) (s : St) :
  P i s ->
  (forall j t, i <= j < i + Z.of_nat n -> P j t ->
     exists t', body j t = Completes t' /\ P (j + 1) t') ->
  exists s', for_loop n i body s = Completes s' /\ P (i + Z.of_nat n) s'.
Proof.
  revert i s. induction n as [|n IH]; intros i s HP Hbody.
  - exists s. split; [reflexivity|]. now replace (i + Z.of_nat 0) with i by lia.
  - destruct (Hbody i s) as (t & Ht & HPt); [lia|exact HP|].
    destruct (IH (i + 1) t HPt) as (s' & Hs' & HP').
    + intros j u Hj. apply Hbody. lia.
    + exists s'. simpl. rewrite Ht. simpl. split; [exact Hs'|].
      now replace (i + Z.of_nat (S n)) with (i + 1 + Z.of_nat n) by lia.
Qed.

(** A property every completing turn of the body preserves is preserved by
    the loop. *)
Lemma for_loop_preserves {St} (Q : St -> Prop)
  (body : Z -> St -> outcome St) (n : nat) (i : Z) (s s' : St) :
  for_loop n i body s = Completes s' ->
  (forall j t t', body j t = Completes t' -> Q t -> Q t') ->
  Q s -> Q s'.
Proof.
  intros H Hbody. revert i s H. induction n as [|n IH]; intros i s; simpl.
  - intros [= <-]. auto.
  - intros H HQ. apply bind_inv in H as (t & Ht & Hrest).
    eapply IH; [exact Hrest|]. eapply Hbody; eauto.
Qed.

(** ** Operand fields *)

Lemma field_x_spec (opcode : Z) : field_x opcode = (opcode / 256) mod 16.
Proof.
  unfold field_x. rewrite Z.shiftr_land.
  change (Z.shiftr 0xF00 8) with (Z.ones 4).
  rewrite Z.land_ones by lia. now rewrite Z.shiftr_div_pow2 by lia.
Qed.

Lemma field_y_spec (opcode : Z) : field_y opcode = (opcode / 16) mod 16.
Proof.
  unfold field_y. rewrite Z.shiftr_land.
  change (Z.shiftr 0x0F0 4) with (Z.ones 4).
  rewrite Z.land_ones by lia. now rewrite Z.shiftr_div_pow2 by lia.
Qed.

Lemma field_x_range (opcode : Z) : 0 <= field_x opcode < 16.
Proof. rewrite field_x_spec. apply Z.mod_pos_bound. lia. Qed.

Lemma field_y_range (opcode : Z) : 0 <= field_y opcode < 16.
Proof. rewrite field_y_spec. apply Z.mod_pos_bound. lia. Qed.

Lemma nibble_spec (opcode : Z) : Z.land opcode 0x00F = opcode mod 16.
Proof. change 0x00F with (Z.ones 4). now rewrite Z.land_ones by lia. Qed.

(** ** Registers *)

Lemma reg_V (s : chip8) (i : Z) :
  registers_extent s -> 0 <= i < 16 -> reg s i = Completes (V s i).
Proof.
  intros He Hi. unfold reg, V.
  destruct (subscript_in_range Registers (m_Registers s) i) as (v & Hs & Hl).
  - rewrite He. lia.
  - now rewrite Hs, Hl.
Qed.

Lemma set_reg_Completes (s : chip8) (i v : Z) :
  registers_extent s -> 0 <= i < 16 ->
  set_reg i v s = Completes (set_Registers (<[Z.to_nat i := v]> (m_Registers s)) s).
Proof.
  intros He Hi. unfold set_reg. rewrite assign_in_range; [reflexivity|].
  rewrite He. lia.
Qed.

Lemma set_Registers_extent (s : chip8) (i : nat) (v : Z) :
  registers_extent s ->
  registers_extent (set_Registers (<[i := v]> (m_Registers s)) s).
Proof. unfold registers_extent. simpl. now rewrite length_insert. Qed.

Lemma V_set_same (s : chip8) (i v : Z) :
  registers_extent s -> 0 <= i < 16 ->
  V (set_Registers (<[Z.to_nat i := v]> (m_Registers s)) s) i = v.
Proof.
  intros He Hi. unfold V. simpl.
  rewrite list_lookup_insert_eq; [reflexivity|]. rewrite He. lia.
Qed.

Lemma V_set_other (s : chip8) (i j v : Z) :
  0 <= i -> 0 <= j -> i <> j ->
  V (set_Registers (<[Z.to_nat i := v]> (m_Registers s)) s) j = V s j.
Proof.
  intros Hi Hj Hne. unfold V. simpl.
  rewrite list_lookup_insert_ne; [reflexivity|]. lia.
Qed.

(** ** Register arithmetic: 8XY4, 8XY5, 8XY7 *)

Lemma BYTE_land_0xFF (v : Z) : BYTE (Z.land v 0xFF) = v mod 256.
Proof.
  unfold BYTE. change 0xFF with (Z.ones 8). rewrite Z.land_ones by lia.
  change (2 ^ 8) with 256. apply Z.mod_mod. lia.
Qed.

(** The add of 8XY4 away from VF as destination: VX receives the sum modulo
    256 and VF the carry; with VF as destination the later store of the sum
    replaces the carry. *)
Lemma Opcode8XY4_spec (opcode : Z) (s : chip8) :
  registers_extent s ->
  let x := field_x opcode in
  let y := field_y opcode in
  let a := V s x in
  let b := V s y in
  exists s', Opcode8XY4 opcode s = Completes s' /\
    V s' x = (a + b) mod 256 /\
    (x <> 0xF -> V s' 0xF = if a + b >? 255 then 1 else 0) /\
    (forall r, 0 <= r -> r <> x -> r <> 0xF -> V s' r = V s r).
Proof.
  intros He x y a b.
  pose proof (field_x_range opcode) as Hx. pose proof (field_y_range opcode) as Hy.
  unfold Opcode8XY4. fold (field_x opcode) (field_y opcode). fold x y.
  rewrite (reg_V s x He Hx), (reg_V s y He Hy). simpl. fold a b.
  set (c := if a + b >? 255 then 1 else 0).
  assert (Hc : (if a + b >? 255 then set_reg 0xF 1 s else set_reg 0xF 0 s)
               = set_reg 0xF c s) by (unfold c; now destruct (a + b >? 255)).
  rewrite Hc. rewrite set_reg_Completes by (auto; lia). simpl.
  set (s1 := set_Registers _ s).
  assert (He1 : registers_extent s1) by (apply set_Registers_extent; exact He).
  rewrite set_reg_Completes by (auto; lia).
  eexists. split; [reflexivity|]. rewrite BYTE_land_0xFF.
  split; [|split].
  - now apply V_set_same.
  - intros Hne. rewrite V_set_other by lia. unfold s1. now apply V_set_same.
  - intros r Hr Hrx HrF. rewrite V_set_other by lia.
    unfold s1. now rewrite V_set_other by lia.
Qed.

(** C1 (8XY4 with VF as destination).  With VF = 200 and V0 = 100 the sum is
    300, so the carry is 1; the instruction 8F04 leaves 300 mod 256 = 44 in
    VF, because the sum is stored to VX = VF after the carry was. *)
Theorem Opcode8XY4_VF_destination_loses_carry :
  let s := set_Registers (<[15%nat := 200]> (<[0%nat := 100]> (replicate 16 0)))
             power_on in
  V s 0xF + V s 0 > 255 /\
  exists s', Opcode8XY4 0x8F04 s = Completes s' /\
             V s' 0xF = 44 /\ V s' 0xF <> 1.
Proof.
  split; [reflexivity|]. eexists. split; [vm_compute; reflexivity|].
  split; [reflexivity|discriminate].
Qed.

(** The subtractions away from VF: with neither operand in VF, VX receives
    the difference modulo 256 and VF is 0 exactly on a borrow. *)
Lemma Opcode8XY5_spec (opcode : Z) (s : chip8) :
  registers_extent s ->
  let x := field_x opcode in
  let y := field_y opcode in
  let a := V s x in
  let b := V s y in
  x <> 0xF -> y <> 0xF ->
  exists s', Opcode8XY5 opcode s = Completes s' /\
    V s' x = (a - b) mod 256 /\
    V s' 0xF = (if b >? a then 0 else 1).
Proof.
  intros He x y a b HxF HyF.
  pose proof (field_x_range opcode) as Hx. pose proof (field_y_range opcode) as Hy.
  unfold Opcode8XY5. fold (field_x opcode) (field_y opcode). fold x y.
  rewrite set_reg_Completes by (auto; lia). simpl.
  set (s1 := set_Registers _ s).
  assert (He1 : registers_extent s1) by (apply set_Registers_extent; exact He).
  rewrite (reg_V s1 x He1 Hx), (reg_V s1 y He1 Hy). simpl.
  assert (Ha : V s1 x = a) by (unfold s1; now rewrite V_set_other by lia).
  assert (Hb : V s1 y = b) by (unfold s1; now rewrite V_set_other by lia).
  rewrite Ha, Hb.
  destruct (b >? a).
  - rewrite set_reg_Completes by (auto; lia). simpl.
    set (s2 := set_Registers _ s1).
    assert (He2 : registers_extent s2) by (apply set_Registers_extent; exact He1).
    rewrite set_reg_Completes by (auto; lia).
    eexists. split; [reflexivity|]. split.
    + now apply V_set_same.
    + rewrite V_set_other by lia. unfold s2. now apply V_set_same.
  - simpl. rewrite set_reg_Completes by (auto; lia).
    eexists. split; [reflexivity|]. split.
    + now apply V_set_same.
    + rewrite V_set_other by lia. unfold s1. now apply V_set_same.
Qed.

Lemma Opcode8XY7_spec (opcode : Z) (s : chip8) :
  registers_extent s ->
  let x := field_x opcode in
  let y := field_y opcode in
  let a := V s x in
  let b := V s y in
  x <> 0xF -> y <> 0xF ->
  exists s', Opcode8XY7 opcode s = Completes s' /\
    V s' x = (b - a) mod 256 /\
    V s' 0xF = (if a >? b then 0 else 1).
Proof.
  intros He x y a b HxF HyF.
  pose proof (field_x_range opcode) as Hx. pose proof (field_y_range opcode) as Hy.
  unfold Opcode8XY7. fold (field_x opcode) (field_y opcode). fold x y.
  rewrite set_reg_Completes by (auto; lia). simpl.
  set (s1 := set_Registers _ s).
  assert (He1 : registers_extent s1) by (apply set_Registers_extent; exact He).
  rewrite (reg_V s1 x He1 Hx), (reg_V s1 y He1 Hy). simpl.
  assert (Ha : V s1 x = a) by (unfold s1; now rewrite V_set_other by lia).
  assert (Hb : V s1 y = b) by (unfold s1; now rewrite V_set_other by lia).
  rewrite Ha, Hb.
  destruct (a >? b).
  - rewrite set_reg_Completes by (auto; lia). simpl.
    set (s2 := set_Registers _ s1).
    assert (He2 : registers_extent s2) by (apply set_Registers_extent; exact He1).
    rewrite set_reg_Completes by (auto; lia).
    eexists. split; [reflexivity|]. split.
    + now apply V_set_same.
    + rewrite V_set_other by lia. unfold s2. now apply V_set_same.
  - simpl. rewrite set_reg_Completes by (auto; lia).
    eexists. split; [reflexivity|]. split.
    + now apply V_set_same.
    + rewrite V_set_other by lia. unfold s1. now apply V_set_same.
Qed.

(** C2 (subtractions with an operand in VF).  With V0 = 5 and VF = 7, the
    instruction 80F5 subtracts VF from V0: 7 > 5 is a borrow and the
    difference is 254.  The routine stores 1 to VF before it reads the
    operands, so it subtracts 1: V0 ends at 4 and VF at 1.  In the same way
    80F7 computes 1 - 5 instead of 7 - 5. *)
Theorem Opcode8XY5_reads_VF_after_setting_it :
  let s := set_Registers (<[15%nat := 7]> (<[0%nat := 5]> (replicate 16 0)))
             power_on in
  V s 0xF > V s 0 /\
  (exists s', Opcode8XY5 0x80F5 s = Completes s' /\
              V s' 0 = 4 /\ V s' 0xF = 1 /\
              V s' 0 <> (V s 0 - V s 0xF) mod 256 /\ V s' 0xF <> 0) /\
  (exists s', Opcode8XY7 0x80F7 s = Completes s' /\
              V s' 0 = 252 /\ V s' 0xF = 0 /\
              V s' 0 <> (V s 0xF - V s 0) mod 256 /\ V s' 0xF <> 1).
Proof.
  split; [reflexivity|]. split.
  - eexists. split; [vm_compute; reflexivity|]. repeat split; discriminate.
  - eexists. split; [vm_compute; reflexivity|]. repeat split; discriminate.
Qed.

(** ** The font: FX29 *)

(** FX29 loads I with the byte that memory holds at address VX. *)
Lemma OpcodeFX29_spec (opcode : Z) (s : chip8) (b : Z) :
  registers_extent s ->
  m_GameMemory s !! Z.to_nat (V s (field_x opcode)) = Some b ->
  0 <= V s (field_x opcode) ->
  OpcodeFX29 opcode s = Completes (set_AddressI (WORD b) s).
Proof.
  intros He Hb Hv. unfold OpcodeFX29. fold (field_x opcode).
  rewrite (reg_V s _ He (field_x_range opcode)). simpl.
  unfold mem. now rewrite (subscript_Completes _ _ _ b Hv Hb).
Qed.

(** C5 (font address).  After a reset the glyph of the digit A lies at
    address 5 * 10 = 50.  With VX = 0xA the instruction F029 reads the byte at
    address 0xA, which is the first row 0xF0 of the glyph of 2, and leaves
    I = 240. *)
Theorem OpcodeFX29_loads_memory_byte :
  exists s0 s1 s2,
    CPUReset (Some [0x60; 0x0A; 0xF0; 0x29]) power_on = Completes s0 /\
    cycle 0 s0 = Completes s1 /\ V s1 0 = 0xA /\
    take 5 (drop 50 (m_GameMemory s1)) = [0xF0; 0x90; 0xF0; 0x90; 0x90] /\
    cycle 0 s1 = Completes s2 /\
    m_AddressI s2 = 240 /\ m_AddressI s2 <> 5 * (V s1 0 mod 16).
Proof.
  do 3 eexists.
  split; [vm_compute; reflexivity|].
  split; [vm_compute; reflexivity|].
  split; [reflexivity|]. split; [reflexivity|].
  split; [vm_compute; reflexivity|].
  split; [reflexivity|discriminate].
Qed.

(** ** The timer thread *)

Lemma decreseTimer_tick_delay (s : chip8) :
  0 <= m_DelayTimer s <= 255 ->
  m_DelayTimer (decreseTimer_tick s) =
    (if m_DelayTimer s =? 0 then 0 else m_DelayTimer s - 1).
Proof.
  intros Hd. unfold decreseTimer_tick.
  destruct (Z.gtb_spec (m_DelayTimer s) 0) as [H|H];
    destruct (Z.eqb_spec (m_DelayTimer s) 0) as [E|E]; try lia.
  simpl. unfold BYTE. apply Z.mod_small. lia.
Qed.

Lemma decreseTimer_tick_sound (s : chip8) :
  m_SoundTimer (decreseTimer_tick s) = m_SoundTimer s.
Proof. unfold decreseTimer_tick. now destruct (m_DelayTimer s >? 0). Qed.

Lemma decreseTimer_tick_running (s : chip8) :
  ProgramRunning (decreseTimer_tick s) = ProgramRunning s.
Proof. unfold decreseTimer_tick. now destruct (m_DelayTimer s >? 0). Qed.

(** The delay timer after [n] ticks is the start value less [n], held at 0;
    the sound timer is where it was. *)
Lemma decreseTimer_spec (n : nat) (s : chip8) :
  ProgramRunning s = true ->
  0 <= m_DelayTimer s <= 255 ->
  m_DelayTimer (decreseTimer n s) = Z.max 0 (m_DelayTimer s - Z.of_nat n) /\
  m_SoundTimer (decreseTimer n s) = m_SoundTimer s.
Proof.
  revert s. induction n as [|n IH]; intros s Hr Hd.
  - simpl. split; [lia|reflexivity].
  - cbn [decreseTimer]. rewrite Hr.
    pose proof (decreseTimer_tick_delay s Hd) as Ht.
    destruct (IH (decreseTimer_tick s)) as [IHd IHs].
    + now rewrite decreseTimer_tick_running.
    + rewrite Ht. destruct (Z.eqb_spec (m_DelayTimer s) 0); lia.
    + rewrite IHd, IHs, Ht, decreseTimer_tick_sound. split; [|reflexivity].
      destruct (Z.eqb_spec (m_DelayTimer s) 0); lia.
Qed.

(** C4 (sound timer).  FX15 and FX18 set both timers to 5; six ticks of the
    timer thread bring the delay timer to 0 and leave the sound timer at 5. *)
Theorem decreseTimer_skips_sound_timer :
  let s := set_Registers (<[0%nat := 5]> (replicate 16 0)) power_on in
  exists s1 s2,
    OpcodeFX15 0xF015 s = Completes s1 /\
    OpcodeFX18 0xF018 s1 = Completes s2 /\
    m_DelayTimer s2 = 5 /\ m_SoundTimer s2 = 5 /\
    m_SoundTimer (decreseTimer 1 s2) = 5 /\
    m_DelayTimer (decreseTimer 6 s2) = 0 /\
    m_SoundTimer (decreseTimer 6 s2) = 5.
Proof.
  do 2 eexists.
  split; [vm_compute; reflexivity|].
  split; [vm_compute; reflexivity|].
  repeat split.
Qed.

(** ** What no instruction touches *)

Lemma keeps_refl (s : chip8) : keeps s s.
Proof. now split. Qed.

Lemma keeps_trans (s t u : chip8) : keeps s t -> keeps t u -> keeps s u.
Proof. intros [] []. split; congruence. Qed.

Lemma set_reg_inv (i v : Z) (s s' : chip8) :
  set_reg i v s = Completes s' ->
  0 <= i < Z.of_nat (length (m_Registers s)) /\
  s' = set_Registers (<[Z.to_nat i := v]> (m_Registers s)) s.
Proof.
  unfold set_reg. intros H. apply bind_inv in H as (r & Hr & [= <-]).
  apply assign_inv in Hr as [Hi ->]. now split.
Qed.

Lemma set_mem_inv (i v : Z) (s s' : chip8) :
  set_mem i v s = Completes s' ->
  0 <= i < Z.of_nat (length (m_GameMemory s)) /\
  s' = set_GameMemory (<[Z.to_nat i := v]> (m_GameMemory s)) s.
Proof.
  unfold set_mem. intros H. apply bind_inv in H as (r & Hr & [= <-]).
  apply assign_inv in Hr as [Hi ->]. now split.
Qed.

Lemma set_reg_keeps (i v : Z) (s s' : chip8) :
  set_reg i v s = Completes s' -> keeps s s'.
Proof.
  intros H. apply set_reg_inv in H as [_ ->].
  split; simpl; auto using length_insert.
Qed.

Lemma set_mem_keeps (i v : Z) (s s' : chip8) :
  set_mem i v s = Completes s' -> keeps s s'.
Proof.
  intros H. apply set_mem_inv in H as [_ ->].
  split; simpl; auto using length_insert.
Qed.

Lemma for_loop_keeps (body : Z -> chip8 -> outcome chip8) (n : nat) (i : Z)
  (s s' : chip8) :
  (forall j t t', body j t = Completes t' -> keeps t t') ->
  for_loop n i body s = Completes s' -> keeps s s'.
Proof.
  intros Hbody H.
  apply (for_loop_preserves (keeps s) body n i s s' H); auto using keeps_refl.
  intros j t t' Ht Hk. eapply keeps_trans; eauto.
Qed.

Ltac step_outcome :=
  match goal with
  | H : bind _ _ = Completes _ |- _ =>
      let a := fresh "a" in let Ha := fresh "Ha" in
      apply bind_inv in H as (a & Ha & H)
  | H : Completes _ = Completes _ |- _ => injection H as <-
  | H : (if ?c then _ else _) = Completes _ |- _ => destruct c
  | H : set_reg _ _ _ = Completes _ |- _ => apply set_reg_keeps in H
  | H : set_mem _ _ _ = Completes _ |- _ => apply set_mem_keeps in H
  end.

Ltac solve_keeps :=
  repeat step_outcome;
  repeat match goal with
  | H : keeps ?s ?t |- keeps ?s _ =>
      apply (keeps_trans s t); [exact H|]; clear H
  end;
  try solve [split; reflexivity].

Lemma draw_pixel_keeps (cx cy data yline xpixel : Z) (s s' : chip8) :
  draw_pixel cx cy data yline xpixel s = Completes s' -> keeps s s'.
Proof. unfold draw_pixel. intros H. solve_keeps. Qed.

Lemma OpcodeDXYN_keeps (opcode : Z) (s s' : chip8) :
  OpcodeDXYN opcode s = Completes s' -> keeps s s'.
Proof.
  unfold OpcodeDXYN. intros H. repeat step_outcome.
  apply (keeps_trans s a1); [exact Ha1|].
  eapply for_loop_keeps; [|exact H].
  intros j t t' Hb. unfold draw_line in Hb. repeat step_outcome.
  eapply for_loop_keeps; [|exact Hb].
  intros ? ? ?. apply draw_pixel_keeps.
Qed.

Lemma OpcodeFX0A_keeps (opcode : Z) (s s' : chip8) :
  OpcodeFX0A opcode s = Completes s' -> keeps s s'.
Proof.
  unfold OpcodeFX0A. intros H. apply bind_inv in H as (r & Hr & H).
  assert (Hk : keeps s (fst r)).
  { apply (for_loop_preserves (fun st => keeps s (fst st)) _ _ _ _ _ Hr);
      [|apply keeps_refl].
    intros j t t' Hb Hk. simpl in Hb. repeat step_outcome; auto.
    simpl. eapply keeps_trans; eauto. }
  injection H as <-. destruct (snd r =? 0); [|exact Hk].
  eapply keeps_trans; [exact Hk|]. now split.
Qed.

Lemma OpcodeFX55_keeps (opcode : Z) (s s' : chip8) :
  OpcodeFX55 opcode s = Completes s' -> keeps s s'.
Proof.
  unfold OpcodeFX55. apply for_loop_keeps. intros j t t' H. solve_keeps.
Qed.

Lemma OpcodeFX65_keeps (opcode : Z) (s s' : chip8) :
  OpcodeFX65 opcode s = Completes s' -> keeps s s'.
Proof.
  unfold OpcodeFX65. apply for_loop_keeps. intros j t t' H. solve_keeps.
Qed.

Create HintDb keeps_db discriminated.
#[local] Hint Resolve keeps_refl OpcodeDXYN_keeps OpcodeFX0A_keeps
  OpcodeFX55_keeps OpcodeFX65_keeps : keeps_db.

Ltac opcode_keeps H :=
  first
    [ solve [eauto with keeps_db]
    | unfold Opcode0NNN, Opcode00E0, Opcode00EE, Opcode1NNN, Opcode2NNN,
        Opcode3XNN, Opcode4XNN, Opcode5XY0, Opcode6XNN, Opcode7XNN,
        Opcode8XY0, Opcode8XY1, Opcode8XY2, Opcode8XY3, Opcode8XY4,
        Opcode8XY5, Opcode8XY6, Opcode8XY7, Opcode8XYE, Opcode9XY0,
        OpcodeANNN, OpcodeBNNN, OpcodeCXNN, OpcodeEX9E, OpcodeEXA1,
        OpcodeFX07, OpcodeFX15, OpcodeFX18, OpcodeFX1E, OpcodeFX29,
        OpcodeFX33 in H;
      solve_keeps;
      repeat match goal with
      | |- context [if ?c then _ else _] => destruct c
      end;
      solve [split; reflexivity] ].

(** Whatever the instruction word, a completed dispatch leaves
    [ProgramRunning] and the extents as they were. *)
Lemma execute_keeps (rnd opcode : Z) (s s' : chip8) :
  execute rnd opcode s = Completes s' -> keeps s s'.
Proof.
  unfold execute.
  generalize (Z.shiftr (Z.land opcode 0xF000) 12) as msb.
  generalize (Z.land opcode 0x0FF) as low_byte.
  generalize (Z.land opcode 0x00F) as low_nibble.
  intros low_nibble low_byte msb.
  destruct msb as [|p|p]; cbv zeta;
    [ | do 4 (try destruct p as [p|p|]) | ];
    try (intros [= <-]; apply keeps_refl).
  all: try solve [intros H; opcode_keeps H].
  - destruct low_byte as [|q|q];
      [ | do 7 (try destruct q as [q|q|]) | ];
      try (intros [= <-]; apply keeps_refl); intros H; opcode_keeps H.
  - destruct low_nibble as [|q|q];
      [ | do 4 (try destruct q as [q|q|]) | ];
      try (intros [= <-]; apply keeps_refl); intros H; opcode_keeps H.
Qed.

Lemma GetNextOpcode_keeps (s s' : chip8) (opcode : Z) :
  GetNextOpcode s = Completes (opcode, s') -> keeps s s'.
Proof.
  unfold GetNextOpcode. intros H.
  apply bind_inv in H as (hi & _ & H). apply bind_inv in H as (lo & _ & H).
  injection H as _ <-. now split.
Qed.

Lemma cycle_keeps (rnd : Z) (s s' : chip8) :
  cycle rnd s = Completes s' -> keeps s s'.
Proof.
  unfold cycle. intros H. apply bind_inv in H as ([opcode t] & Hf & H).
  eapply keeps_trans; [eapply GetNextOpcode_keeps|eapply execute_keeps]; eauto.
Qed.

(** ** Dispatch on sub-opcodes *)

(** Group 0 is decoded by two tests only: a zero low nibble is the clear
    screen, otherwise zero bits 8 to 11 are the return. *)
Lemma execute_group_0 (rnd opcode : Z) (s : chip8) :
  Z.shiftr (Z.land opcode 0xF000) 12 = 0 ->
  execute rnd opcode s =
    if Z.land opcode 0x00F =? 0 then Opcode00E0 opcode s
    else if Z.land opcode 0xF00 =? 0 then Opcode00EE opcode s
    else Completes s.
Proof. intros H. unfold execute. rewrite H. reflexivity. Qed.

(** Group E is decoded by one test: low nibble 1 is EXA1 and every other word
    is EX9E. *)
Lemma execute_group_E (rnd opcode : Z) (s : chip8) :
  Z.shiftr (Z.land opcode 0xF000) 12 = 0xE ->
  execute rnd opcode s =
    if Z.land opcode 0x00F =? 1 then OpcodeEXA1 opcode s
    else OpcodeEX9E opcode s.
Proof. intros H. unfold execute. rewrite H. reflexivity. Qed.

(** C6, as the code has it.  An instruction word of group 8 whose low nibble
    is none of 0-7, E, one of group F whose low byte is none of 07, 0A, 15,
    18, 1E, 29, 33, 55, 65, and one of group 0 with a non-zero low nibble and
    non-zero bits 8-11, is dispatched to nothing: the step completes and the
    state, whose program counter the fetch has advanced already, is
    unchanged. *)
Theorem execute_unlisted_sub_opcode (rnd opcode : Z) (s : chip8) :
  falls_through opcode -> execute rnd opcode s = Completes s.
Proof.
  unfold falls_through, execute. cbv zeta.
  intros [[Hm Hl] | [[Hm Hl] | (Hm & Hn & Hh)]]; rewrite Hm.
  - revert Hl. generalize (Z.land opcode 0x00F) as l. intros l Hl.
    destruct l as [|q|q]; [ | do 4 (try destruct q as [q|q|]) | ];
      try reflexivity; exfalso; apply Hl; unfold listed_8XY; simpl; tauto.
  - revert Hl. generalize (Z.land opcode 0x0FF) as l. intros l Hl.
    destruct l as [|q|q]; [ | do 7 (try destruct q as [q|q|]) | ];
      try reflexivity; exfalso; apply Hl; unfold listed_FX; simpl; tauto.
  - destruct (Z.eqb_spec (Z.land opcode 0x00F) 0); [contradiction|].
    destruct (Z.eqb_spec (Z.land opcode 0xF00) 0); [contradiction|].
    reflexivity.
Qed.

Lemma execute_unlisted_sub_opcode_witness :
  falls_through 0x8128 /\ falls_through 0xF1FF /\ falls_through 0x0123 /\
  execute 0 0x8128 power_on = Completes power_on.
Proof.
  assert (H8 : falls_through 0x8128).
  { left. split; [reflexivity|]. vm_compute. intuition discriminate. }
  split; [exact H8|]. split; [|split].
  - right. left. split; [reflexivity|]. vm_compute. intuition discriminate.
  - right. right. split; [reflexivity|]. split; discriminate.
  - exact (execute_unlisted_sub_opcode 0 0x8128 power_on H8).
Defined.

(** C6 as stated fails in groups 0 and E.  The word 0000 is neither 00E0 nor
    00EE, yet it is decoded as the clear screen and blanks a lit screen; the
    word 0001 is decoded as the return and pops the stack; the word E000 is
    neither EX9E nor EXA1, yet it is decoded as EX9E and skips when the key
    named by V0 is down. *)
Lemma execute_unlisted_not_noop :
  let lit := set_ScreenData (replicate 64 (replicate 32 1)) power_on in
  let called := set_stack [0x202] power_on in
  let down := set_KeysPressed (<[0%nat := true]> (replicate 16 false)) power_on in
  (exists s', execute 0 0x0000 lit = Completes s' /\
              m_ScreenData s' = replicate 64 (replicate 32 0) /\
              m_ScreenData s' <> m_ScreenData lit) /\
  (exists s', execute 0 0x0001 called = Completes s' /\
              m_stack s' = [] /\ m_ProgramCounter s' = 0x202 /\
              m_ProgramCounter called = 0) /\
  (exists s', execute 0 0xE000 down = Completes s' /\
              m_ProgramCounter s' = m_ProgramCounter down + 2).
Proof.
  split; [|split].
  - eexists. split; [vm_compute; reflexivity|]. split; [reflexivity|discriminate].
  - eexists. split; [vm_compute; reflexivity|]. repeat split.
  - eexists. split; [vm_compute; reflexivity|]. reflexivity.
Qed.

(** ** The return: 00EE *)

(** C7, as the code has it.  00EE makes no test of the stack.  On a stack
    that holds an address it moves the last pushed address to the program
    counter and removes it, and changes nothing else; on the empty stack the
    subscript [size()-1] is the largest [size_t], outside the vector, and the
    routine has no defined result: nothing is reported and nothing stops the
    loop. *)
Theorem Opcode00EE_unchecked (opcode : Z) (s : chip8) :
  Z.of_nat (length (m_stack s)) < 2 ^ 64 ->
  (m_stack s = [] ->
     Opcode00EE opcode s = Undefined (OutOfRange Stack (2 ^ 64 - 1))) /\
  (forall rest top, m_stack s = rest ++ [top] ->
     Opcode00EE opcode s =
       Completes (set_stack rest (set_ProgramCounter top s))).
Proof.
  intros Hlen. split.
  - intros He. unfold Opcode00EE. rewrite He. reflexivity.
  - intros rest top He. unfold Opcode00EE. rewrite He in *.
    rewrite length_app in *. simpl length in *.
    assert (Hi : size_t (Z.of_nat (length rest + 1) - 1) = Z.of_nat (length rest)).
    { unfold size_t. rewrite Z.mod_small; lia. }
    rewrite Hi.
    rewrite (subscript_Completes Stack _ _ top); [| lia |].
    + simpl. now rewrite removelast_last.
    + rewrite Nat2Z.id. now apply list_lookup_middle.
Qed.

Lemma Opcode00EE_unchecked_witness :
  Opcode00EE 0x00EE power_on = Undefined (OutOfRange Stack (2 ^ 64 - 1)) /\
  Opcode00EE 0x00EE (set_stack [0x202; 0x300] power_on) =
    Completes (set_stack [0x202] (set_ProgramCounter 0x300
                 (set_stack [0x202; 0x300] power_on))).
Proof.
  split.
  - apply (Opcode00EE_unchecked 0x00EE power_on); [reflexivity|reflexivity].
  - apply (Opcode00EE_unchecked 0x00EE (set_stack [0x202; 0x300] power_on)
             ltac:(reflexivity)) with (rest := [0x202]) (top := 0x300).
    reflexivity.
Defined.

(** C7 as stated fails: after a reset the stack is empty, the loop decodes
    00EE as the return, and the step has no defined result; in particular it
    is not a step to a state whose [ProgramRunning] is cleared. *)
Lemma Opcode00EE_empty_stack_not_reported :
  let s0 := loaded [0x00; 0xEE] in
  CPUReset (Some [0x00; 0xEE]) power_on = Completes s0 /\
  m_stack s0 = [] /\
  cycle 0 s0 = Undefined (OutOfRange Stack (2 ^ 64 - 1)) /\
  ~ exists s', cycle 0 s0 = Completes s' /\ ProgramRunning s' = false.
Proof.
  assert (H : cycle 0 (loaded [0x00; 0xEE])
              = Undefined (OutOfRange Stack (2 ^ 64 - 1)))
    by (vm_compute; reflexivity).
  split; [vm_compute; reflexivity|]. split; [reflexivity|].
  split; [exact H|]. intros (s' & Hs' & _). rewrite H in Hs'. discriminate.
Qed.

(** ** Register dump and load: FX55, FX65 *)

(** A loop that completes its first [k] turns under an invariant and whose
    turn [k] has no defined result has none either. *)
Lemma for_loop_Undefined {St} (P : Z -> St -> Prop)
  (body : Z -> St -> outcome St) (u : undefined) (k n : nat) (i : Z) (s : St) :
  (k < n)%nat ->
  P i s ->
  (forall j t, i <= j < i + Z.of_nat k -> P j t ->
     exists t', body j t = Completes t' /\ P (j + 1) t') ->
  (forall t, P (i + Z.of_nat k) t -> body (i + Z.of_nat k) t = Undefined u) ->
  for_loop n i body s = Undefined u.
Proof.
  revert n i s. induction k as [|k IH]; intros n i s Hk HP Hbody Hfail.
  - destruct n as [|n]; [lia|]. simpl.
    replace (i + Z.of_nat 0) with i in Hfail by lia.
    now rewrite (Hfail s HP).
  - destruct n as [|n]; [lia|]. simpl.
    destruct (Hbody i s) as (t & Ht & HPt); [lia|exact HP|].
    rewrite Ht. simpl. apply (IH n (i + 1) t); [lia|exact HPt| |].
    + intros j u' Hj. apply Hbody. lia.
    + replace (i + 1 + Z.of_nat k) with (i + Z.of_nat (S k)) by lia.
      exact Hfail.
Qed.

Lemma OpcodeFX55_turn (s t : chip8) (j : Z) :
  registers_extent s -> transfer_invariant s t -> 0 <= j < 16 ->
  0 <= m_AddressI s + j < Z.of_nat (length (m_GameMemory s)) ->
  exists t', (vi <- reg t j ;; set_mem (m_AddressI s + j) vi t) = Completes t'
             /\ transfer_invariant s t'.
Proof.
  intros He (HI & Hr & Hm) Hj Ha.
  assert (Het : registers_extent t) by (unfold registers_extent in *; lia).
  rewrite (reg_V t j Het Hj). simpl. unfold set_mem.
  rewrite assign_in_range by lia. simpl. eexists. split; [reflexivity|].
  repeat split; simpl; auto. now rewrite length_insert.
Qed.

Lemma OpcodeFX65_turn (s t : chip8) (j : Z) :
  registers_extent s -> transfer_invariant s t -> 0 <= j < 16 ->
  0 <= m_AddressI s + j < Z.of_nat (length (m_GameMemory s)) ->
  exists t', (b <- mem t (m_AddressI s + j) ;; set_reg j b t) = Completes t'
             /\ transfer_invariant s t'.
Proof.
  intros He (HI & Hr & Hm) Hj Ha.
  assert (Het : registers_extent t) by (unfold registers_extent in *; lia).
  destruct (subscript_in_range GameMemory (m_GameMemory t) (m_AddressI s + j))
    as (b & Hb & _); [lia|].
  unfold mem. rewrite Hb. simpl. rewrite set_reg_Completes by auto.
  eexists. split; [reflexivity|].
  repeat split; simpl; auto. now rewrite length_insert.
Qed.

Lemma OpcodeFX55_in_range (opcode : Z) (s : chip8) :
  registers_extent s -> 0 <= m_AddressI s ->
  m_AddressI s + field_x opcode < Z.of_nat (length (m_GameMemory s)) ->
  exists s', OpcodeFX55 opcode s = Completes s' /\ transfer_invariant s s'.
Proof.
  intros He HI Hin. pose proof (field_x_range opcode) as Hx.
  unfold OpcodeFX55. fold (field_x opcode).
  destruct (for_loop_invariant (fun _ t => transfer_invariant s t)
              (fun i t => vi <- reg t i ;; set_mem (m_AddressI s + i) vi t)
              (Z.to_nat (field_x opcode + 1)) 0 s) as (s' & Hs' & Hinv).
  - repeat split.
  - intros j t Hj Ht. apply OpcodeFX55_turn; auto; lia.
  - eauto.
Qed.

Lemma OpcodeFX65_in_range (opcode : Z) (s : chip8) :
  registers_extent s -> 0 <= m_AddressI s ->
  m_AddressI s + field_x opcode < Z.of_nat (length (m_GameMemory s)) ->
  exists s', OpcodeFX65 opcode s = Completes s' /\ transfer_invariant s s'.
Proof.
  intros He HI Hin. pose proof (field_x_range opcode) as Hx.
  unfold OpcodeFX65. fold (field_x opcode).
  destruct (for_loop_invariant (fun _ t => transfer_invariant s t)
              (fun i t => b <- mem t (m_AddressI s + i) ;; set_reg i b t)
              (Z.to_nat (field_x opcode + 1)) 0 s) as (s' & Hs' & Hinv).
  - repeat split.
  - intros j t Hj Ht. apply OpcodeFX65_turn; auto; lia.
  - eauto.
Qed.

Lemma OpcodeFX55_keeps_I (opcode : Z) (s s' : chip8) :
  OpcodeFX55 opcode s = Completes s' -> m_AddressI s' = m_AddressI s.
Proof.
  unfold OpcodeFX55.
  cbv zeta. intros H.
  apply (for_loop_preserves (fun t => m_AddressI t = m_AddressI s) _ _ _ _ _ H);
    [|reflexivity].
  intros j t t' Hb Ht. apply bind_inv in Hb as (v & _ & Hb).
  apply set_mem_inv in Hb as [_ ->]. exact Ht.
Qed.

Lemma OpcodeFX65_keeps_I (opcode : Z) (s s' : chip8) :
  OpcodeFX65 opcode s = Completes s' -> m_AddressI s' = m_AddressI s.
Proof.
  unfold OpcodeFX65.
  cbv zeta. intros H.
  apply (for_loop_preserves (fun t => m_AddressI t = m_AddressI s) _ _ _ _ _ H);
    [|reflexivity].
  intros j t t' Hb Ht. apply bind_inv in Hb as (v & _ & Hb).
  apply set_reg_inv in Hb as [_ ->]. exact Ht.
Qed.

(** C10.  FX55 and FX65 leave the index register as it was.  Whenever the
    bytes at I .. I+X lie in memory the instruction completes, and whenever it
    completes, the index register of the final state is that of the initial
    state. *)
Theorem OpcodeFX55_FX65_leave_I (opcode : Z) (s : chip8) :
  registers_extent s ->
  0 <= m_AddressI s ->
  m_AddressI s + field_x opcode < Z.of_nat (length (m_GameMemory s)) ->
  (exists s', OpcodeFX55 opcode s = Completes s') /\
  (exists s', OpcodeFX65 opcode s = Completes s') /\
  (forall s', OpcodeFX55 opcode s = Completes s' ->
              m_AddressI s' = m_AddressI s) /\
  (forall s', OpcodeFX65 opcode s = Completes s' ->
              m_AddressI s' = m_AddressI s).
Proof.
  intros He HI Hin.
  destruct (OpcodeFX55_in_range opcode s He HI Hin) as (s1 & H1 & _).
  destruct (OpcodeFX65_in_range opcode s He HI Hin) as (s2 & H2 & _).
  split; [eauto|]. split; [eauto|]. split.
  - apply OpcodeFX55_keeps_I.
  - apply OpcodeFX65_keeps_I.
Qed.

Lemma OpcodeFX55_FX65_leave_I_witness :
  let s := set_AddressI 0x300 power_on in
  (exists s', OpcodeFX55 0xF355 s = Completes s') /\
  (exists s', OpcodeFX65 0xF355 s = Completes s') /\
  (forall s', OpcodeFX55 0xF355 s = Completes s' ->
              m_AddressI s' = m_AddressI s) /\
  (forall s', OpcodeFX65 0xF355 s = Completes s' ->
              m_AddressI s' = m_AddressI s).
Proof.
  apply (OpcodeFX55_FX65_leave_I 0xF355 (set_AddressI 0x300 power_on));
    [reflexivity | simpl; lia | vm_compute; reflexivity].
Defined.

(** ** The draw: DXYN *)

Lemma land_mask_testbit (data k : Z) :
  0 <= k -> (Z.land data (Z.shiftl 1 k) =? 0) = negb (Z.testbit data k).
Proof.
  intros Hk. rewrite Z.shiftl_1_l.
  destruct (Z.testbit data k) eqn:Hb; simpl.
  - apply Z.eqb_neq. intros H0.
    assert (Hk' : Z.testbit (Z.land data (2 ^ k)) k = true).
    { rewrite Z.land_spec, Hb, Z.pow2_bits_true by lia. reflexivity. }
    rewrite H0, Z.bits_0 in Hk'. discriminate.
  - apply Z.eqb_eq. apply Z.bits_inj'. intros m Hm.
    rewrite Z.land_spec, Z.bits_0, Z.pow2_bits_eqb by lia.
    destruct (Z.eqb_spec k m) as [->|]; [now rewrite Hb|apply andb_false_r].
Qed.

Lemma cell_update (scr : list (list Z)) (col : list Z) (x y px py v : Z) :
  0 <= x -> 0 <= y -> 0 <= px -> 0 <= py ->
  scr !! Z.to_nat x = Some col -> (Z.to_nat y < length col)%nat ->
  cell (<[Z.to_nat x := <[Z.to_nat y := v]> col]> scr) px py =
    if (px =? x) && (py =? y) then v else cell scr px py.
Proof.
  intros Hx Hy Hpx Hpy Hcol Hlen. unfold cell.
  pose proof (lookup_lt_Some _ _ _ Hcol) as Hxl.
  destruct (Z.eqb_spec px x) as [->|Hne]; simpl.
  - rewrite list_lookup_insert_eq by exact Hxl.
    destruct (Z.eqb_spec py y) as [->|Hney].
    + now rewrite list_lookup_insert_eq by exact Hlen.
    + rewrite list_lookup_insert_ne by lia. now rewrite Hcol.
  - rewrite list_lookup_insert_ne by lia. reflexivity.
Qed.

Lemma wrap_preimage (v k m : Z) : 0 <= k < m -> ((v + k) mod m - v) mod m = k.
Proof.
  intros Hk. rewrite Zminus_mod_idemp_l.
  replace (v + k - v) with k by lia. apply Z.mod_small. lia.
Qed.

Lemma wrap_image (v p m : Z) : 0 <= p < m -> (v + (p - v) mod m) mod m = p.
Proof.
  intros Hp. rewrite Zplus_mod_idemp_r.
  replace (v + (p - v)) with p by lia. apply Z.mod_small. lia.
Qed.

Lemma draw_pixel_clear (vx vy data j k : Z) (t : chip8) :
  0 <= k < 8 -> Z.testbit data (7 - k) = false ->
  draw_pixel vx vy data j k t = Completes t.
Proof.
  intros Hk Hb. unfold draw_pixel.
  rewrite land_mask_testbit by lia. now rewrite Hb.
Qed.

Lemma draw_pixel_set (vx vy data j k : Z) (t : chip8) :
  registers_extent t -> screen_extent t ->
  0 <= vx -> 0 <= vy -> 0 <= k < 8 -> 0 <= j ->
  Z.testbit data (7 - k) = true ->
  let x := (vx + k) mod 64 in
  let y := (vy + j) mod 32 in
  let pix := pixel t x y in
  exists col,
    m_ScreenData t !! Z.to_nat x = Some col /\ length col = 32%nat /\
    draw_pixel vx vy data j k t =
      Completes
        (set_ScreenData
           (<[Z.to_nat x := <[Z.to_nat y := BYTE (Z.lxor pix 1)]> col]>
              (m_ScreenData t))
           (if pix =? 1
            then set_Registers (<[15%nat := 1]> (m_Registers t)) t
            else t)).
Proof.
  intros Her [Hsl Hsc] Hvx Hvy Hk Hj Hb x y pix.
  assert (Hx : 0 <= x < 64) by (apply Z.mod_pos_bound; lia).
  assert (Hy : 0 <= y < 32) by (apply Z.mod_pos_bound; lia).
  destruct (subscript_in_range ScreenData (m_ScreenData t) x)
    as (col & Hcol & Hcl); [rewrite Hsl; lia|].
  assert (Hlen : length col = 32%nat).
  { apply Hsc. apply list_elem_of_lookup. eauto. }
  destruct (subscript_in_range ScreenData col y) as (p & Hp & Hpl);
    [rewrite Hlen; lia|].
  assert (Hpix : pix = p).
  { unfold pix, pixel, cell. now rewrite Hcl, Hpl. }
  exists col. split; [exact Hcl|]. split; [exact Hlen|].
  unfold draw_pixel. rewrite land_mask_testbit by lia. rewrite Hb. simpl.
  unfold HEIGHT, WIDTH. rewrite !Z.rem_mod_nonneg by lia. fold x y.
  rewrite Hcol. simpl. rewrite Hp. simpl. rewrite <- Hpix.
  destruct (pix =? 1).
  - rewrite set_reg_Completes by (auto; lia). simpl.
    rewrite Hcol. simpl. rewrite Hp. simpl.
    rewrite assign_in_range by (rewrite Hlen; lia). simpl.
    rewrite assign_in_range by (rewrite Hsl; lia). simpl.
    now rewrite <- Hpix.
  - simpl. rewrite Hcol. simpl. rewrite Hp. simpl.
    rewrite assign_in_range by (rewrite Hlen; lia). simpl.
    rewrite assign_in_range by (rewrite Hsl; lia). simpl.
    now rewrite <- Hpix.
Qed.

Lemma toggled_step (s : chip8) (vx vy j k px py : Z) :
  toggled s vx vy j (k + 1) px py =
    toggled s vx vy j k px py
    || (((px - vx) mod 64 =? k) && ((py - vy) mod 32 =? j)
        && (k <? 8) && sprite_bit s j k).
Proof.
  unfold toggled. cbv zeta.
  set (c := (px - vx) mod 64). set (r := (py - vy) mod 32).
  destruct (Z.eqb_spec c k) as [->|Hc]; destruct (Z.eqb_spec r j) as [->|Hr];
    destruct (Z.ltb_spec k 8); destruct (sprite_bit s j k) eqn:Hb;
    repeat match goal with
    | |- context [?a <? ?b] => destruct (Z.ltb_spec a b)
    | |- context [sprite_bit ?s ?a ?b] => destruct (sprite_bit s a b)
    end; simpl; try reflexivity; try lia.
Qed.

Lemma toggled_row_end (s : chip8) (vx vy j px py : Z) :
  toggled s vx vy j 8 px py = toggled s vx vy (j + 1) 0 px py.
Proof.
  unfold toggled. cbv zeta.
  set (c := (px - vx) mod 64). set (r := (py - vy) mod 32).
  assert (0 <= c) by (apply Z.mod_pos_bound; lia).
  destruct (Z.eqb_spec r j); destruct (Z.eqb_spec r (j + 1));
    repeat match goal with
    | |- context [?a <? ?b] => destruct (Z.ltb_spec a b)
    | |- context [sprite_bit ?s ?a ?b] => destruct (sprite_bit s a b)
    end; simpl; try reflexivity; try lia.
Qed.

Lemma passed_step (j k r c : Z) :
  0 <= j -> 0 <= k < 8 ->
  passed j (k + 1) r c <-> passed j k r c \/ (r = j /\ c = k).
Proof. unfold passed. lia. Qed.

Lemma passed_row_end (j r c : Z) : passed j 8 r c <-> passed (j + 1) 0 r c.
Proof. unfold passed. lia. Qed.

Lemma screen_extent_update (scr : list (list Z)) (col : list Z) (x y : nat)
  (v : Z) :
  (length scr = 64%nat /\ forall c, c ∈ scr -> length c = 32%nat) ->
  scr !! x = Some col ->
  length (<[x := <[y := v]> col]> scr) = 64%nat /\
  forall c, c ∈ <[x := <[y := v]> col]> scr -> length c = 32%nat.
Proof.
  intros [Hl Hc] Hcol. split; [now rewrite length_insert|].
  intros c Hin. apply list_elem_of_lookup in Hin as [i Hi].
  destruct (decide (i = x)) as [->|Hne].
  - rewrite list_lookup_insert_eq in Hi by (eapply lookup_lt_Some; eauto).
    injection Hi as <-. rewrite length_insert. apply Hc.
    apply list_elem_of_lookup. eauto.
  - rewrite list_lookup_insert_ne in Hi by auto. apply Hc.
    apply list_elem_of_lookup. eauto.
Qed.

(** The scan of one draw: the state [s] the draw begins in and the origin
    [(vx, vy)] read from the registers are fixed while the rows and columns
    are walked. *)
Section DrawScan.

Variable s : chip8.
Variables vx vy : Z.
Hypothesis Hvx : 0 <= vx.
Hypothesis Hvy : 0 <= vy.

Lemma draw_pixel_step (t : chip8) (j k : Z) :
  0 <= j < 32 -> 0 <= k < 8 ->
  draw_invariant s vx vy j k t ->
  exists t', draw_pixel vx vy (sprite_row s j) j k t = Completes t' /\
             draw_invariant s vx vy j (k + 1) t'.
Proof.
  intros Hj Hk [Hreg Hscr Hpix Hflag Hoth Hrest].
  destruct (sprite_bit s j k) eqn:Hb.
  - (* a set bit: the pixel it falls on is toggled *)
    destruct (draw_pixel_set vx vy (sprite_row s j) j k t)
      as (col & Hcol & Hlen & Hdraw); auto; try lia.
    set (x := (vx + k) mod 64) in *. set (y := (vy + j) mod 32) in *.
    assert (Hx : 0 <= x < 64) by (apply Z.mod_pos_bound; lia).
    assert (Hy : 0 <= y < 32) by (apply Z.mod_pos_bound; lia).
    assert (Hcx : (x - vx) mod 64 = k) by (apply wrap_preimage; lia).
    assert (Hry : (y - vy) mod 32 = j) by (apply wrap_preimage; lia).
    assert (Hold : pixel t x y = pixel s x y).
    { rewrite Hpix by lia. unfold toggled. cbv zeta. rewrite Hcx, Hry.
      rewrite Z.ltb_irrefl, (Z.ltb_irrefl k), andb_false_r, andb_false_r.
      reflexivity. }
    rewrite Hold in Hdraw.
    eexists. split; [exact Hdraw|].
    set (t1 := if pixel s x y =? 1
               then set_Registers (<[15%nat := 1]> (m_Registers t)) t else t).
    split.
    + unfold registers_extent, t1. simpl.
      destruct (pixel s x y =? 1); simpl; [rewrite length_insert|]; exact Hreg.
    + unfold screen_extent. simpl. now apply screen_extent_update.
    + intros px py Hpx Hpy. unfold pixel at 1. simpl.
      rewrite (cell_update _ col) by (auto; lia).
      rewrite toggled_step. rewrite Hb, andb_true_r.
      destruct (Z.ltb_spec k 8); [|lia]. rewrite andb_true_r.
      destruct (Z.eqb_spec px x) as [->|Hnx].
      * destruct (Z.eqb_spec py y) as [->|Hny]; simpl.
        -- rewrite Hcx, Hry, !Z.eqb_refl, orb_true_r. reflexivity.
        -- rewrite Hcx, Z.eqb_refl. simpl.
           destruct (Z.eqb_spec ((py - vy) mod 32) j) as [Hr|Hr].
           ++ exfalso. apply Hny. unfold y. rewrite <- Hr.
              symmetry. apply wrap_image. lia.
           ++ rewrite orb_false_r. apply Hpix; lia.
      * simpl.
        destruct (Z.eqb_spec ((px - vx) mod 64) k) as [Hc|Hc].
        -- exfalso. apply Hnx. unfold x. rewrite <- Hc.
           symmetry. apply wrap_image. lia.
        -- simpl. rewrite orb_false_r. apply Hpix; lia.
    + unfold t1. destruct (Z.eqb_spec (pixel s x y) 1) as [H1|H1].
      * left. split.
        -- unfold V. simpl. rewrite list_lookup_insert_eq; [reflexivity|].
           rewrite Hreg. lia.
        -- exists j, k. split; [unfold passed; lia|]. now split.
      * destruct Hflag as [(HF & r & c & Hp & Hc)|(HF & Hnone)].
        -- left. split; [exact HF|]. exists r, c. split; [|exact Hc].
           apply passed_step; [lia|lia|now left].
        -- right. split; [exact HF|]. intros r c Hp [Hbit Hlit].
           apply passed_step in Hp as [Hp|[-> ->]]; try lia.
           ++ apply (Hnone r c Hp). now split.
           ++ now apply H1.
    + intros i Hi HiF. rewrite <- (Hoth i Hi HiF). unfold V, t1. simpl.
      destruct (pixel s x y =? 1); simpl; [|reflexivity].
      rewrite list_lookup_insert_ne; [reflexivity|]. lia.
    + unfold untouched, t1 in *. simpl.
      destruct (pixel s x y =? 1); simpl; exact Hrest.
  - (* a clear bit: nothing happens *)
    exists t. split; [apply draw_pixel_clear; [lia|exact Hb]|].
    split; auto.
    + intros px py Hpx Hpy. rewrite toggled_step, Hb, andb_false_r, orb_false_r.
      now apply Hpix.
    + destruct Hflag as [(HF & r & c & Hp & Hc)|(HF & Hnone)].
      * left. split; [exact HF|]. exists r, c. split; [|exact Hc].
        apply passed_step; [lia|lia|now left].
      * right. split; [exact HF|]. intros r c Hp [Hbit Hlit].
        apply passed_step in Hp as [Hp|[-> ->]]; try lia.
        -- apply (Hnone r c Hp). now split.
        -- congruence.
Qed.

Lemma draw_invariant_row_end (t : chip8) (j : Z) :
  draw_invariant s vx vy j 8 t -> draw_invariant s vx vy (j + 1) 0 t.
Proof.
  intros [Hreg Hscr Hpix Hflag Hoth Hrest]. split; auto.
  - intros px py Hpx Hpy. rewrite <- toggled_row_end. now apply Hpix.
  - destruct Hflag as [(HF & r & c & Hp & Hc)|(HF & Hnone)].
    + left. split; [exact HF|]. exists r, c. split; [|exact Hc].
      now apply passed_row_end.
    + right. split; [exact HF|]. intros r c Hp. apply Hnone.
      now apply passed_row_end.
Qed.

Lemma draw_line_step (t : chip8) (j : Z) :
  0 <= j < 32 ->
  0 <= m_AddressI s + j < Z.of_nat (length (m_GameMemory s)) ->
  draw_invariant s vx vy j 0 t ->
  exists t', draw_line vx vy j t = Completes t' /\
             draw_invariant s vx vy (j + 1) 0 t'.
Proof.
  intros Hj Hrow Hinv.
  destruct (di_rest _ _ _ _ _ _ Hinv) as (Hmem & HI & _).
  destruct (subscript_in_range GameMemory (m_GameMemory s) (m_AddressI s + j))
    as (data & Hd & Hl); [exact Hrow|].
  assert (Hdata : data = sprite_row s j) by (unfold sprite_row; now rewrite Hl).
  unfold draw_line, mem. rewrite Hmem, HI, Hd. simpl. rewrite Hdata.
  destruct (for_loop_invariant (fun k u => draw_invariant s vx vy j k u)
              (draw_pixel vx vy (sprite_row s j) j) 8 0 t Hinv)
    as (t' & Ht' & Hinv').
  - intros k u Hk Hu. apply draw_pixel_step; auto; lia.
  - exists t'. split; [exact Ht'|]. now apply draw_invariant_row_end.
Qed.

Lemma draw_invariant_start :
  registers_extent s -> screen_extent s ->
  draw_invariant s vx vy 0 0
    (set_Registers (<[Z.to_nat 0xF := 0]> (m_Registers s)) s).
Proof.
  intros Hreg Hscr. split.
  - now apply set_Registers_extent.
  - exact Hscr.
  - intros px py Hpx Hpy. unfold toggled. cbv zeta.
    assert (0 <= (px - vx) mod 64) by (apply Z.mod_pos_bound; lia).
    assert (0 <= (py - vy) mod 32) by (apply Z.mod_pos_bound; lia).
    destruct (Z.ltb_spec ((py - vy) mod 32) 0); [lia|].
    destruct (Z.ltb_spec ((px - vx) mod 64) 0); [lia|].
    now rewrite andb_false_r, andb_false_r.
  - right. split; [now apply V_set_same|]. unfold passed. intros r c. lia.
  - intros i Hi HiF. apply V_set_other; lia.
  - repeat split.
Qed.

End DrawScan.

Lemma toggled_iff (s : chip8) (vx vy n px py : Z) :
  0 <= n <= 32 -> 0 <= px < 64 -> 0 <= py < 32 ->
  toggled s vx vy n 0 px py = true <->
  exists r c, 0 <= r < n /\ 0 <= c < 8 /\ sprite_bit s r c = true /\
              (vx + c) mod 64 = px /\ (vy + r) mod 32 = py.
Proof.
  intros Hn Hpx Hpy. unfold toggled. cbv zeta.
  set (c := (px - vx) mod 64). set (r := (py - vy) mod 32).
  assert (Hc : 0 <= c < 64) by (apply Z.mod_pos_bound; lia).
  assert (Hr : 0 <= r < 32) by (apply Z.mod_pos_bound; lia).
  split.
  - intros H. apply andb_prop in H as [H H3]. apply andb_prop in H as [H1 H2].
    exists r, c. apply Z.ltb_lt in H1.
    assert (r < n).
    { apply orb_prop in H3 as [H3|H3]; [now apply Z.ltb_lt|].
      apply andb_prop in H3 as [_ H3]. apply Z.ltb_lt in H3. lia. }
    repeat split; try lia; auto.
    + apply wrap_image. lia.
    + apply wrap_image. lia.
  - intros (r' & c' & Hr' & Hc' & Hb & Hx & Hy).
    assert (c = c') by (unfold c; rewrite <- Hx; apply wrap_preimage; lia).
    assert (r = r') by (unfold r; rewrite <- Hy; apply wrap_preimage; lia).
    subst c' r'. rewrite Hb.
    destruct (Z.ltb_spec c 8); [|lia]. destruct (Z.ltb_spec r n); [|lia].
    reflexivity.
Qed.

(** A draw whose sprite rows lie in memory completes, and the scan has then
    passed all [N] rows. *)
Lemma OpcodeDXYN_completes (opcode : Z) (s : chip8) :
  registers_extent s -> screen_extent s ->
  let vx := V s (field_x opcode) in
  let vy := V s (field_y opcode) in
  let n := Z.land opcode 0x000F in
  0 <= vx -> 0 <= vy ->
  0 <= m_AddressI s ->
  m_AddressI s + n <= Z.of_nat (length (m_GameMemory s)) ->
  exists s', OpcodeDXYN opcode s = Completes s' /\
             draw_invariant s vx vy n 0 s'.
Proof.
  intros Hreg Hscr vx vy n Hvx Hvy HI Hrows.
  assert (Hn : 0 <= n < 16).
  { unfold n. rewrite nibble_spec. apply Z.mod_pos_bound. lia. }
  unfold OpcodeDXYN. fold (field_x opcode) (field_y opcode).
  rewrite (reg_V s _ Hreg (field_x_range opcode)). simpl.
  rewrite (reg_V s _ Hreg (field_y_range opcode)). simpl.
  rewrite set_reg_Completes by (auto; lia). simpl. fold vx vy n.
  destruct (for_loop_invariant (fun j t => draw_invariant s vx vy j 0 t)
              (draw_line vx vy) (Z.to_nat n) 0 _
              (draw_invariant_start s vx vy Hreg Hscr))
    as (s' & Hs' & Hinv).
  { intros j t Hj Ht. apply draw_line_step; auto; lia. }
  replace (0 + Z.of_nat (Z.to_nat n)) with n in Hinv by lia.
  eauto.
Qed.

(** C3.  A draw whose sprite rows lie in memory completes.  VF does not
    depend on its value before the draw: it ends at 1 when some set sprite bit
    falls on a pixel whose value is 1, and at 0 otherwise.  A pixel on which a
    set bit of the [N] rows at the index register falls, the bit of row [r]
    and column [c] (most significant bit first) falling on column
    [(VX + c) mod 64] and row [(VY + r) mod 32], is XORed with 1; every
    other pixel keeps its value.  No pixel is met by two bits of one sprite,
    so the pixel a bit meets has the value it had before the draw. *)
Theorem OpcodeDXYN_draws (opcode : Z) (s : chip8) :
  registers_extent s -> screen_extent s ->
  let vx := V s (field_x opcode) in
  let vy := V s (field_y opcode) in
  let n := Z.land opcode 0x000F in
  0 <= vx -> 0 <= vy ->
  0 <= m_AddressI s ->
  m_AddressI s + n <= Z.of_nat (length (m_GameMemory s)) ->
  exists s', OpcodeDXYN opcode s = Completes s' /\
    (forall px py, 0 <= px < 64 -> 0 <= py < 32 ->
       ((exists r c, 0 <= r < n /\ 0 <= c < 8 /\ sprite_bit s r c = true /\
                     (vx + c) mod 64 = px /\ (vy + r) mod 32 = py) ->
        pixel s' px py = BYTE (Z.lxor (pixel s px py) 1)) /\
       ((forall r c, 0 <= r < n -> 0 <= c < 8 -> sprite_bit s r c = true ->
                     ~ ((vx + c) mod 64 = px /\ (vy + r) mod 32 = py)) ->
        pixel s' px py = pixel s px py)) /\
    (V s' 0xF = 1 <->
       exists r c, 0 <= r < n /\ 0 <= c < 8 /\ collision s vx vy r c) /\
    (V s' 0xF = 0 \/ V s' 0xF = 1) /\
    (forall i, 0 <= i -> i <> 0xF -> V s' i = V s i) /\
    untouched s s'.
Proof.
  intros Hreg Hscr vx vy n Hvx Hvy HI Hrows.
  assert (Hn : 0 <= n < 16).
  { unfold n. rewrite nibble_spec. apply Z.mod_pos_bound. lia. }
  destruct (OpcodeDXYN_completes opcode s Hreg Hscr Hvx Hvy HI Hrows)
    as (s' & Hs' & Hinv). fold vx vy n in Hinv.
  destruct Hinv as [Hreg' Hscr' Hpix Hflag Hoth Hrest].
  exists s'. split; [exact Hs'|]. split; [|split; [|split; [|split]]]; auto.
  - intros px py Hpx Hpy. rewrite (Hpix px py Hpx Hpy). split.
    + intros Hhit. apply (toggled_iff s vx vy n px py) in Hhit; try lia.
      now rewrite Hhit.
    + intros Hmiss. destruct (toggled s vx vy n 0 px py) eqn:Ht; [|reflexivity].
      apply toggled_iff in Ht as (r & c & Hr & Hc & Hb & Hx & Hy); try lia.
      exfalso. apply (Hmiss r c); auto.
  - split.
    + intros H1. destruct Hflag as [(_ & r & c & Hp & Hc)|(H0 & _)]; [|lia].
      exists r, c. unfold passed in Hp. repeat split; try lia; apply Hc.
    + intros (r & c & Hr & Hc & Hcol).
      destruct Hflag as [(H1 & _)|(_ & Hnone)]; [exact H1|].
      exfalso. apply (Hnone r c); [unfold passed; lia|exact Hcol].
  - destruct Hflag as [(H1 & _)|(H0 & _)]; auto.
Qed.

Lemma screen_extent_blank (s : chip8) :
  m_ScreenData s = replicate 64 (replicate 32 0) -> screen_extent s.
Proof.
  intros H. unfold screen_extent. rewrite H. split; [reflexivity|].
  intros col Hin. apply elem_of_replicate in Hin as [-> _]. reflexivity.
Qed.

Lemma OpcodeDXYN_draws_witness :
  let s := loaded [0xD0; 0x05] in
  registers_extent s /\ screen_extent s /\
  0 <= V s 0 /\ 0 <= m_AddressI s /\
  m_AddressI s + 5 <= Z.of_nat (length (m_GameMemory s)) /\
  exists s', OpcodeDXYN 0xD005 s = Completes s' /\
             (V s' 0xF = 1 <->
                exists r c, 0 <= r < 5 /\ 0 <= c < 8 /\
                            collision s (V s 0) (V s 0) r c) /\
             (V s' 0xF = 0 \/ V s' 0xF = 1).
Proof.
  assert (Hreg : registers_extent (loaded [0xD0; 0x05]))
    by (vm_compute; reflexivity).
  assert (Hscr : screen_extent (loaded [0xD0; 0x05]))
    by (apply screen_extent_blank; vm_compute; reflexivity).
  assert (Hv : 0 <= V (loaded [0xD0; 0x05]) 0) by (vm_compute; discriminate).
  assert (HI : 0 <= m_AddressI (loaded [0xD0; 0x05]))
    by (vm_compute; discriminate).
  assert (Hrows : m_AddressI (loaded [0xD0; 0x05]) + 5
                  <= Z.of_nat (length (m_GameMemory (loaded [0xD0; 0x05]))))
    by (vm_compute; discriminate).
  split; [exact Hreg|]. split; [exact Hscr|]. split; [exact Hv|].
  split; [exact HI|]. split; [exact Hrows|].
  destruct (OpcodeDXYN_draws 0xD005 (loaded [0xD0; 0x05]) Hreg Hscr Hv Hv HI Hrows)
    as (s' & Hs' & _ & Hflag & H01 & _).
  exists s'. split; [exact Hs'|]. split; [exact Hflag|exact H01].
Defined.

(** ** Memory accesses are unchecked *)

Lemma GetNextOpcode_in_range (s : chip8) :
  0 <= m_ProgramCounter s ->
  m_ProgramCounter s + 2 <= Z.of_nat (length (m_GameMemory s)) ->
  exists f, GetNextOpcode s = Completes f.
Proof.
  intros Hpc Hin. unfold GetNextOpcode, mem.
  destruct (subscript_in_range GameMemory (m_GameMemory s) (m_ProgramCounter s))
    as (hi & Hhi & _); [lia|].
  destruct (subscript_in_range GameMemory (m_GameMemory s)
              (m_ProgramCounter s + 1)) as (lo & Hlo & _); [lia|].
  rewrite Hhi. simpl. rewrite Hlo. simpl. eauto.
Qed.

Lemma GetNextOpcode_outside (s : chip8) :
  0 <= m_ProgramCounter s ->
  Z.of_nat (length (m_GameMemory s)) < m_ProgramCounter s + 2 ->
  exists addr, GetNextOpcode s = Undefined (OutOfRange GameMemory addr) /\
    Z.of_nat (length (m_GameMemory s)) <= addr < m_ProgramCounter s + 2.
Proof.
  intros Hpc Hout. unfold GetNextOpcode, mem.
  destruct (Z_lt_le_dec (m_ProgramCounter s)
              (Z.of_nat (length (m_GameMemory s)))) as [Hlt|Hge].
  - destruct (subscript_in_range GameMemory (m_GameMemory s)
                (m_ProgramCounter s)) as (hi & Hhi & _); [lia|].
    rewrite Hhi. simpl. rewrite subscript_outside by lia. simpl.
    eexists. split; [reflexivity|lia].
  - rewrite subscript_outside by lia. simpl. eexists. split; [reflexivity|lia].
Qed.

Lemma OpcodeFX33_in_range (opcode : Z) (s : chip8) :
  registers_extent s -> 0 <= m_AddressI s ->
  m_AddressI s + 3 <= Z.of_nat (length (m_GameMemory s)) ->
  exists s', OpcodeFX33 opcode s = Completes s'.
Proof.
  intros He HI Hin. unfold OpcodeFX33. fold (field_x opcode).
  rewrite (reg_V s _ He (field_x_range opcode)). simpl.
  unfold set_mem. rewrite assign_in_range by lia. simpl.
  rewrite assign_in_range by (rewrite length_insert; lia). simpl.
  rewrite assign_in_range by (rewrite !length_insert; lia). simpl. eauto.
Qed.

Lemma OpcodeFX33_outside (opcode : Z) (s : chip8) :
  registers_extent s -> 0 <= m_AddressI s ->
  Z.of_nat (length (m_GameMemory s)) < m_AddressI s + 3 ->
  leaves_memory (OpcodeFX33 opcode s) s (m_AddressI s + 3).
Proof.
  intros He HI Hout. unfold leaves_memory, OpcodeFX33. fold (field_x opcode).
  rewrite (reg_V s _ He (field_x_range opcode)). simpl. unfold set_mem.
  destruct (Z_lt_le_dec (m_AddressI s) (Z.of_nat (length (m_GameMemory s))))
    as [H0|H0].
  - rewrite assign_in_range by lia. simpl.
    destruct (Z_lt_le_dec (m_AddressI s + 1)
                (Z.of_nat (length (m_GameMemory s)))) as [H1|H1].
    + rewrite assign_in_range by (rewrite length_insert; lia). simpl.
      rewrite assign_outside by (rewrite !length_insert; lia). simpl.
      eexists. split; [reflexivity|lia].
    + rewrite assign_outside by (rewrite length_insert; lia). simpl.
      eexists. split; [reflexivity|lia].
  - rewrite assign_outside by lia. simpl. eexists. split; [reflexivity|lia].
Qed.

Lemma OpcodeFX55_outside (opcode : Z) (s : chip8) :
  registers_extent s -> 0 <= m_AddressI s ->
  Z.of_nat (length (m_GameMemory s)) < m_AddressI s + (field_x opcode + 1) ->
  leaves_memory (OpcodeFX55 opcode s) s (m_AddressI s + (field_x opcode + 1)).
Proof.
  intros He HI Hout. pose proof (field_x_range opcode) as Hx.
  set (k := Z.max 0 (Z.of_nat (length (m_GameMemory s)) - m_AddressI s)).
  exists (m_AddressI s + k). split; [|lia].
  unfold OpcodeFX55. fold (field_x opcode). cbv zeta.
  apply (for_loop_Undefined (fun _ t => transfer_invariant s t) _ _
           (Z.to_nat k)); [lia|repeat split| |].
  - intros j t Hj Ht. apply OpcodeFX55_turn; auto; lia.
  - intros t (_ & Hr & Hm). rewrite Z2Nat.id by lia. rewrite !Z.add_0_l.
    assert (Het : registers_extent t) by (unfold registers_extent in *; lia).
    rewrite (reg_V t k Het) by lia. simpl. unfold set_mem.
    rewrite assign_outside by lia. reflexivity.
Qed.

Lemma OpcodeFX65_outside (opcode : Z) (s : chip8) :
  registers_extent s -> 0 <= m_AddressI s ->
  Z.of_nat (length (m_GameMemory s)) < m_AddressI s + (field_x opcode + 1) ->
  leaves_memory (OpcodeFX65 opcode s) s (m_AddressI s + (field_x opcode + 1)).
Proof.
  intros He HI Hout. pose proof (field_x_range opcode) as Hx.
  set (k := Z.max 0 (Z.of_nat (length (m_GameMemory s)) - m_AddressI s)).
  exists (m_AddressI s + k). split; [|lia].
  unfold OpcodeFX65. fold (field_x opcode). cbv zeta.
  apply (for_loop_Undefined (fun _ t => transfer_invariant s t) _ _
           (Z.to_nat k)); [lia|repeat split| |].
  - intros j t Hj Ht. apply OpcodeFX65_turn; auto; lia.
  - intros t (_ & Hr & Hm). rewrite Z2Nat.id by lia. rewrite !Z.add_0_l.
    unfold mem. rewrite subscript_outside by lia. reflexivity.
Qed.

Lemma OpcodeDXYN_outside (opcode : Z) (s : chip8) :
  registers_extent s -> screen_extent s ->
  0 <= V s (field_x opcode) -> 0 <= V s (field_y opcode) ->
  0 <= m_AddressI s ->
  Z.of_nat (length (m_GameMemory s)) < m_AddressI s + Z.land opcode 0x000F ->
  0 < Z.land opcode 0x000F ->
  leaves_memory (OpcodeDXYN opcode s) s (m_AddressI s + Z.land opcode 0x000F).
Proof.
  intros Hreg Hscr Hvx Hvy HI Hout Hpos.
  set (n := Z.land opcode 0x000F) in *.
  assert (Hn : 0 <= n < 16).
  { unfold n. rewrite nibble_spec. apply Z.mod_pos_bound. lia. }
  set (k := Z.max 0 (Z.of_nat (length (m_GameMemory s)) - m_AddressI s)).
  exists (m_AddressI s + k). split; [|lia].
  unfold OpcodeDXYN. fold (field_x opcode) (field_y opcode).
  rewrite (reg_V s _ Hreg (field_x_range opcode)). simpl.
  rewrite (reg_V s _ Hreg (field_y_range opcode)). simpl.
  rewrite set_reg_Completes by (auto; lia). simpl. fold n.
  apply (for_loop_Undefined
           (fun j t => draw_invariant s (V s (field_x opcode))
                         (V s (field_y opcode)) j 0 t) _ _ (Z.to_nat k));
    [lia|now apply draw_invariant_start| |].
  - intros j t Hj Ht. apply draw_line_step; auto; lia.
  - intros t Ht. rewrite Z2Nat.id by lia. rewrite !Z.add_0_l.
    destruct (di_rest _ _ _ _ _ _ Ht) as (Hmem & HIt & _).
    unfold draw_line, mem. rewrite Hmem, HIt.
    rewrite subscript_outside by lia. reflexivity.
Qed.

Lemma OpcodeDXYN_no_rows (opcode : Z) (s : chip8) :
  registers_extent s -> Z.land opcode 0x000F = 0 ->
  exists s', OpcodeDXYN opcode s = Completes s'.
Proof.
  intros Hreg Hn. unfold OpcodeDXYN. fold (field_x opcode) (field_y opcode).
  rewrite (reg_V s _ Hreg (field_x_range opcode)). simpl.
  rewrite (reg_V s _ Hreg (field_y_range opcode)). simpl.
  rewrite set_reg_Completes by (auto; lia). simpl. rewrite Hn. simpl. eauto.
Qed.

Lemma OpcodeFX33_keeps (opcode : Z) (s s' : chip8) :
  OpcodeFX33 opcode s = Completes s' -> keeps s s'.
Proof. intros H. opcode_keeps H. Qed.

#[local] Hint Resolve OpcodeFX33_keeps GetNextOpcode_keeps : keeps_db.

(** C8, as the code has it.  Fetch, draw, BCD store, register dump and
    register load address memory without a range check.  When the bytes an
    instruction addresses all lie in the array, it completes, and neither
    [ProgramRunning] nor the extent of the memory has changed.  When one of
    them lies beyond the array, the instruction is an unchecked subscript at
    the first such address: it has no defined result, and no state with
    [ProgramRunning] cleared. *)
Theorem memory_access_unchecked (a : memory_access) (opcode : Z) (s : chip8) :
  registers_extent s -> screen_extent s ->
  (forall i, 0 <= V s i) ->
  0 <= first_address a s ->
  let size := Z.of_nat (length (m_GameMemory s)) in
  let limit := first_address a s + byte_count a opcode in
  (byte_count a opcode = 0 \/ limit <= size ->
     exists s', perform a opcode s = Completes s' /\ keeps s s') /\
  (0 < byte_count a opcode -> size < limit ->
     leaves_memory (perform a opcode s) s limit /\
     ~ exists s', perform a opcode s = Completes s').
Proof.
  intros Hreg Hscr Hv Hfirst size limit.
  pose proof (field_x_range opcode) as Hx.
  assert (Hno : forall o, leaves_memory o s limit ->
                  leaves_memory o s limit /\ ~ exists s', o = Completes s').
  { intros o Hl. split; [exact Hl|]. destruct Hl as (addr & -> & _).
    intros (s' & Hs'). discriminate. }
  split.
  - intros Hin. destruct a; simpl in *.
    + destruct Hin as [Hin|Hin]; [lia|].
      destruct (GetNextOpcode_in_range s Hfirst Hin) as ([op s'] & Hf).
      exists s'. rewrite Hf. simpl. split; [reflexivity|].
      eauto with keeps_db.
    + assert (Hc : exists s', OpcodeDXYN opcode s = Completes s').
      { destruct Hin as [Hin|Hin]; [now apply OpcodeDXYN_no_rows|].
        destruct (OpcodeDXYN_completes opcode s) as (s' & Hs' & _); eauto. }
      destruct Hc as (s' & Hs'). exists s'. split; [exact Hs'|].
      eauto with keeps_db.
    + destruct Hin as [Hin|Hin]; [lia|].
      destruct (OpcodeFX33_in_range opcode s) as (s' & Hs'); auto.
      exists s'. split; [exact Hs'|]. eauto with keeps_db.
    + destruct Hin as [Hin|Hin]; [lia|].
      destruct (OpcodeFX55_in_range opcode s) as (s' & Hs' & _); auto; [lia|].
      exists s'. split; [exact Hs'|]. eauto with keeps_db.
    + destruct Hin as [Hin|Hin]; [lia|].
      destruct (OpcodeFX65_in_range opcode s) as (s' & Hs' & _); auto; [lia|].
      exists s'. split; [exact Hs'|]. eauto with keeps_db.
  - intros Hpos Hout. apply Hno. destruct a; simpl in *.
    + destruct (GetNextOpcode_outside s Hfirst Hout) as (addr & Hf & Ha).
      exists addr. rewrite Hf. split; [reflexivity|exact Ha].
    + apply OpcodeDXYN_outside; auto.
    + apply OpcodeFX33_outside; auto.
    + apply OpcodeFX55_outside; auto.
    + apply OpcodeFX65_outside; auto.
Qed.

Lemma registers_zero_nonneg (s : chip8) :
  m_Registers s = replicate 16 0 -> forall i, 0 <= V s i.
Proof.
  intros H i. unfold V. rewrite H.
  destruct (replicate 16 0 !! Z.to_nat i) eqn:E; simpl; [|lia].
  apply lookup_replicate in E as [-> _]. lia.
Qed.

Lemma memory_access_unchecked_witness :
  let s := set_AddressI 0x300 (loaded [0xF2; 0x55]) in
  let t := set_AddressI 0xFFD (loaded [0xF2; 0x55]) in
  (exists s', perform DumpRegs 0xF255 s = Completes s' /\ keeps s s') /\
  (exists s', perform Fetch 0xF255 s = Completes s' /\ keeps s s') /\
  leaves_memory (perform StoreBCD 0xF033 t) t (0xFFD + 3) /\
  ~ (exists t', perform StoreBCD 0xF033 t = Completes t').
Proof.
  assert (Hreg : forall i, registers_extent (set_AddressI i (loaded [0xF2; 0x55])))
    by (intros i; vm_compute; reflexivity).
  assert (Hscr : forall i, screen_extent (set_AddressI i (loaded [0xF2; 0x55])))
    by (intros i; apply screen_extent_blank; vm_compute; reflexivity).
  assert (Hv : forall i j, 0 <= V (set_AddressI i (loaded [0xF2; 0x55])) j)
    by (intros i; apply registers_zero_nonneg; vm_compute; reflexivity).
  split; [|split].
  - apply (memory_access_unchecked DumpRegs 0xF255 _ (Hreg _) (Hscr _) (Hv _));
      [vm_compute; discriminate | right; vm_compute; discriminate].
  - apply (memory_access_unchecked Fetch 0xF255 _ (Hreg _) (Hscr _) (Hv _));
      [vm_compute; discriminate | right; vm_compute; discriminate].
  - apply (memory_access_unchecked StoreBCD 0xF033 _ (Hreg _) (Hscr _) (Hv _));
      [vm_compute; discriminate | reflexivity | vm_compute; reflexivity].
Defined.

(** C8 as stated fails.  The array has 0xfff = 4095 bytes, so 0xFFF is not an
    address of it.  After AFFD the BCD store F033 addresses 0xFFD, 0xFFE and
    0xFFF, all within 0x000-0xFFF: the third store leaves the array, the
    step has no defined result, and no step to a halted machine is taken. *)
Lemma address_0xFFF_outside_memory :
  let s0 := loaded [0xAF; 0xFD; 0xF0; 0x33] in
  length (m_GameMemory s0) = 4095%nat /\
  mem s0 0xFFF = Undefined (OutOfRange GameMemory 0xFFF) /\
  exists s1, cycle 0 s0 = Completes s1 /\ m_AddressI s1 = 0xFFD /\
    cycle 0 s1 = Undefined (OutOfRange GameMemory 0xFFF) /\
    ~ exists s2, cycle 0 s1 = Completes s2 /\ ProgramRunning s2 = false.
Proof.
  split; [vm_compute; reflexivity|]. split; [vm_compute; reflexivity|].
  eexists. split; [vm_compute; reflexivity|]. split; [reflexivity|].
  match goal with
  | |- ?c = ?u /\ _ => assert (H : c = u) by (vm_compute; reflexivity)
  end.
  split; [exact H|]. intros (s2 & Hs2 & _). rewrite H in Hs2. discriminate.
Qed.

(** ** Loading the program: CPUReset *)

Lemma overwrite_insert (m : list Z) (a : nat) (b : Z) (bs : list Z) :
  (a < length m)%nat ->
  overwrite (<[a := b]> m) (S a) bs = overwrite m a (b :: bs).
Proof.
  intros Ha. unfold overwrite.
  rewrite (take_S_r _ a b) by (now apply list_lookup_insert_eq).
  rewrite take_insert_ge by lia. rewrite drop_insert_lt by lia.
  rewrite <- app_assoc. simpl. now rewrite Nat.add_succ_r.
Qed.

Lemma store_bytes_in_range (bytes : list Z) (a : Z) (s : chip8) :
  0 <= a ->
  a + Z.of_nat (length bytes) <= Z.of_nat (length (m_GameMemory s)) ->
  store_bytes a bytes s =
    Completes (set_GameMemory (overwrite (m_GameMemory s) (Z.to_nat a) bytes) s).
Proof.
  revert a s. induction bytes as [|b bs IH]; intros a s Ha Hin.
  - simpl. unfold overwrite. simpl. rewrite Nat.add_0_r, take_drop.
    now destruct s.
  - simpl in *. unfold set_mem. rewrite assign_in_range by lia. simpl.
    rewrite IH by (simpl; rewrite ?length_insert; lia). simpl.
    replace (Z.to_nat (a + 1)) with (S (Z.to_nat a)) by lia.
    rewrite overwrite_insert by lia. reflexivity.
Qed.

Lemma store_bytes_outside (bytes : list Z) (a : Z) (s : chip8) :
  0 <= a <= Z.of_nat (length (m_GameMemory s)) ->
  Z.of_nat (length (m_GameMemory s)) < a + Z.of_nat (length bytes) ->
  store_bytes a bytes s =
    Undefined (OutOfRange GameMemory (Z.of_nat (length (m_GameMemory s)))).
Proof.
  revert a s. induction bytes as [|b bs IH]; intros a s Ha Hout.
  - simpl in Hout. lia.
  - simpl in *. unfold set_mem.
    destruct (Z.eq_dec a (Z.of_nat (length (m_GameMemory s)))) as [->|Hne].
    + rewrite assign_outside by lia. reflexivity.
    + rewrite assign_in_range by lia. simpl.
      rewrite IH; simpl; rewrite ?length_insert; [reflexivity|lia|lia].
Qed.

Lemma fontset_loop (s : chip8) :
  for_loop 80 0 (fun i s => f <- subscript Fontset fontset i ;; set_mem i f s) s
  = store_bytes 0 fontset s.
Proof. reflexivity. Qed.

Lemma keys_loop (t : chip8) :
  keys_extent t ->
  exists ks,
    for_loop 16 0 (fun i s =>
      ks <- assign KeysPressed (m_KeysPressed s) i false ;;
      Completes (set_KeysPressed ks s)) t
    = Completes (set_KeysPressed ks t).
Proof.
  intros Hk.
  destruct (for_loop_invariant
              (fun _ u => keys_extent u /\
                          exists ks, u = set_KeysPressed ks t)
              (fun i s => ks <- assign KeysPressed (m_KeysPressed s) i false ;;
                          Completes (set_KeysPressed ks s)) 16 0 t)
    as (t' & Ht' & _ & ks & ->).
  - split; [exact Hk|]. exists (m_KeysPressed t). now destruct t.
  - intros j u Hj [Hu (ks & ->)]. unfold keys_extent in Hu.
    rewrite assign_in_range by (rewrite Hu; lia). simpl.
    eexists. split; [reflexivity|]. split.
    + unfold keys_extent. simpl. now rewrite length_insert.
    + eexists. reflexivity.
  - eauto.
Qed.

(** C9, as the code has it.  [CPUReset] tests neither the result of [fopen]
    nor the size of the image, and has no outcome that reports a failed
    load.  With an open file whose transferred bytes fit in the array from
    0x200, it completes: the font is at 0 .. 79, all the transferred bytes
    are at 0x200 and up, the program counter is 0x200, [ProgramRunning] is
    set, and [RunEmulator] goes on to the loop from that state.  With no
    open file the routine reads through a null stream, and with bytes that
    do not fit it stores past the end of the array: neither has a defined
    result. *)
Theorem CPUReset_unchecked (file : option (list Z)) (s : chip8) :
  keys_extent s ->
  0x200 <= Z.of_nat (length (m_GameMemory s)) ->
  let size := Z.of_nat (length (m_GameMemory s)) in
  match file with
  | None => CPUReset file s = Undefined NullStream
  | Some image =>
      let bytes := transferred image in
      (0x200 + Z.of_nat (length bytes) <= size ->
         exists s', CPUReset file s = Completes s' /\
           ProgramRunning s' = true /\ m_ProgramCounter s' = 0x200 /\
           take 80 (m_GameMemory s') = fontset /\
           take (length bytes) (drop 0x200 (m_GameMemory s')) = bytes /\
           length (m_GameMemory s') = length (m_GameMemory s) /\
           forall rnds, RunEmulator file rnds s = run_loop rnds s') /\
      (size < 0x200 + Z.of_nat (length bytes) ->
         CPUReset file s = Undefined (OutOfRange GameMemory size))
  end.
Proof.
  intros Hk Hsize size.
  set (s0 := set_Registers (replicate 16 0)
               (set_ProgramCounter 0x200
                  (set_AddressI 0 (set_ProgramRunning true s)))).
  assert (Hfont : store_bytes 0 fontset s0 =
            Completes (set_GameMemory (overwrite (m_GameMemory s) 0 fontset) s0)).
  { rewrite store_bytes_in_range; [reflexivity|lia|]. simpl. lia. }
  set (m1 := overwrite (m_GameMemory s) 0 fontset) in *.
  assert (Hm1 : length m1 = length (m_GameMemory s)).
  { unfold m1, overwrite. simpl take.
    rewrite !length_app, length_drop. simpl. lia. }
  unfold RunEmulator, CPUReset. fold s0. rewrite fontset_loop, Hfont.
  cbn [bind]. destruct file as [image|]; [|reflexivity].
  cbv zeta. unfold fread. fold (transferred image).
  set (bytes := transferred image).
  split.
  - intros Hfit. unfold size in Hfit.
    rewrite store_bytes_in_range
      by (cbn [m_GameMemory set_GameMemory]; lia).
    cbn [bind].
    change (m_GameMemory (set_GameMemory m1 s0)) with m1.
    set (m2 := overwrite m1 (Z.to_nat 512) bytes).
    destruct (keys_loop (set_GameMemory m2 (set_GameMemory m1 s0)) Hk)
      as (ks & Hks).
    rewrite Hks. eexists. split; [reflexivity|].
    assert (Hm2 : m2 = take 512 m1 ++ bytes ++ drop (512 + length bytes) m1)
      by reflexivity.
    assert (Hl512 : length (take 512 m1) = 512%nat)
      by (rewrite length_take; lia).
    cbn [ProgramRunning m_ProgramCounter m_GameMemory set_KeysPressed
         set_GameMemory set_Registers set_ProgramCounter s0].
    repeat split.
    + rewrite Hm2. rewrite (drop_app_length' (take 512 m1)) by lia.
      apply take_app_length.
    + rewrite Hm2, !length_app, length_drop, Hl512. lia.
  - intros Hover. unfold size in *.
    rewrite store_bytes_outside by (cbn [m_GameMemory set_GameMemory]; lia).
    cbn [bind].
    change (m_GameMemory (set_GameMemory m1 s0)) with m1. now rewrite Hm1.
Qed.

Lemma CPUReset_unchecked_witness :
  keys_extent power_on /\
  0x200 <= Z.of_nat (length (m_GameMemory power_on)) /\
  CPUReset None power_on = Undefined NullStream /\
  exists s', CPUReset (Some [0x00; 0xE0]) power_on = Completes s' /\
             ProgramRunning s' = true /\ m_ProgramCounter s' = 0x200.
Proof.
  assert (Hk : keys_extent power_on) by reflexivity.
  assert (Hs : 0x200 <= Z.of_nat (length (m_GameMemory power_on)))
    by (vm_compute; discriminate).
  split; [exact Hk|]. split; [exact Hs|]. split.
  - exact (CPUReset_unchecked None power_on Hk Hs).
  - destruct (CPUReset_unchecked (Some [0x00; 0xE0]) power_on Hk Hs)
      as [Hfit _].
    destruct Hfit as (s' & Hs' & Hr & Hpc & _); [vm_compute; discriminate|].
    exists s'. split; [exact Hs'|]. split; [exact Hr|exact Hpc].
Defined.

(** C9 as stated fails.  From 0x200 the array has room for
    0xfff - 0x200 = 3583 bytes.  An image of 3583 bytes is loaded; one of
    4096 - 512 = 3584 bytes is stored one byte past the end of the array, as
    is one of 3585 bytes; and a file that is not there is read through a null
    stream.  None of the three is a reported failure, and none a completed
    load. *)
Lemma CPUReset_3584_bytes_overrun :
  (exists s', CPUReset (Some (replicate 3583 0)) power_on = Completes s') /\
  CPUReset (Some (replicate 3584 0)) power_on
    = Undefined (OutOfRange GameMemory 4095) /\
  (~ exists s', CPUReset (Some (replicate 3584 0)) power_on = Completes s') /\
  CPUReset (Some (replicate 3585 0)) power_on
    = Undefined (OutOfRange GameMemory 4095) /\
  CPUReset None power_on = Undefined NullStream.
Proof.
  assert (H : CPUReset (Some (replicate 3584 0)) power_on
              = Undefined (OutOfRange GameMemory 4095))
    by (vm_compute; reflexivity).
  split; [eexists; vm_compute; reflexivity|].
  split; [exact H|]. split.
  - intros (s' & Hs'). rewrite H in Hs'. discriminate.
  - split; [vm_compute; reflexivity|reflexivity].
Qed.

(** * Further properties of the routines *)

(** ** Conditional skips *)

Lemma skip_changes_pc (s : chip8) : skip s <> s.
Proof.
  intros H. apply (f_equal m_ProgramCounter) in H. simpl in H.
  unfold WORD in H. revert H.
  generalize (m_ProgramCounter s). intros pc H.
  Z.div_mod_to_equations. lia.
Qed.

Lemma skip_keeps_rest (s : chip8) :
  m_ProgramCounter (skip s) = (m_ProgramCounter s + 2) mod 65536 /\
  set_ProgramCounter (m_ProgramCounter s) (skip s) = s.
Proof. split; [reflexivity|]. now destruct s. Qed.

(** Of each pair of opposite skips exactly one skips: 3XNN skips when
    VX = NN and 4XNN when it differs, 5XY0 when VX = VY and 9XY0 when it
    differs.  A skip adds 2 to the program counter modulo 65536 and changes
    nothing else; the instruction that does not skip changes nothing. *)
Theorem opposite_skips (opcode : Z) (s : chip8) :
  registers_extent s ->
  let vx := V s (field_x opcode) in
  let vy := V s (field_y opcode) in
  let nn := Z.land opcode 0x0FF in
  skip s <> s /\
  m_ProgramCounter (skip s) = (m_ProgramCounter s + 2) mod 65536 /\
  set_ProgramCounter (m_ProgramCounter s) (skip s) = s /\
  (vx = nn ->
     Opcode3XNN opcode s = Completes (skip s) /\
     Opcode4XNN opcode s = Completes s) /\
  (vx <> nn ->
     Opcode3XNN opcode s = Completes s /\
     Opcode4XNN opcode s = Completes (skip s)) /\
  (vx = vy ->
     Opcode5XY0 opcode s = Completes (skip s) /\
     Opcode9XY0 opcode s = Completes s) /\
  (vx <> vy ->
     Opcode5XY0 opcode s = Completes s /\
     Opcode9XY0 opcode s = Completes (skip s)).
Proof.
  intros He vx vy nn.
  pose proof (field_x_range opcode) as Hx. pose proof (field_y_range opcode) as Hy.
  split; [apply skip_changes_pc|].
  split; [apply skip_keeps_rest|]. split; [apply skip_keeps_rest|].
  unfold Opcode3XNN, Opcode4XNN, Opcode5XY0, Opcode9XY0.
  fold (field_x opcode) (field_y opcode). cbv zeta.
  rewrite (reg_V s _ He Hx), (reg_V s _ He Hy). simpl. fold vx vy nn.
  split; [|split; [|split]]; intros H;
    first [apply Z.eqb_eq in H | apply Z.eqb_neq in H]; now rewrite H.
Qed.

Lemma opposite_skips_witness :
  let s := set_Registers (<[1%nat := 7]> (replicate 16 0)) power_on in
  Opcode3XNN 0x3107 s = Completes (skip s) /\
  Opcode4XNN 0x3107 s = Completes s /\
  Opcode5XY0 0x5120 s = Completes s /\
  Opcode9XY0 0x5120 s = Completes (skip s).
Proof.
  assert (He : registers_extent
                 (set_Registers (<[1%nat := 7]> (replicate 16 0)) power_on))
    by (vm_compute; reflexivity).
  pose proof (opposite_skips 0x3107 _ He) as (_ & _ & _ & Heq & _).
  pose proof (opposite_skips 0x5120 _ He) as (_ & _ & _ & _ & _ & _ & Hne).
  destruct Heq as [H3 H4]; [reflexivity|].
  destruct Hne as [H5 H9]; [vm_compute; discriminate|].
  repeat split; assumption.
Defined.

(** ** Shifts: 8XY6, 8XYE *)

Lemma Opcode8XY6_closed (opcode : Z) (s : chip8) :
  registers_extent s ->
  let x := field_x opcode in
  let s1 := set_Registers (<[15%nat := (V s x mod 2) mod 256]> (m_Registers s)) s in
  Opcode8XY6 opcode s =
    Completes (set_Registers (<[Z.to_nat x := (V s1 x / 2) mod 256]>
                                (m_Registers s1)) s1).
Proof.
  intros He x s1. pose proof (field_x_range opcode) as Hx.
  unfold Opcode8XY6. fold (field_x opcode). fold x. cbv zeta.
  rewrite (reg_V s x He Hx). simpl.
  rewrite set_reg_Completes by (auto; lia). simpl.
  change (Z.land (V s x) 1) with (Z.land (V s x) (Z.ones 1)).
  rewrite Z.land_ones by lia. change (2 ^ 1) with 2.
  change (set_Registers (<[Z.to_nat 15 := BYTE (V s x mod 2)]> (m_Registers s)) s)
    with s1.
  assert (He1 : registers_extent s1) by (apply set_Registers_extent; exact He).
  rewrite (reg_V s1 x He1 Hx). simpl.
  rewrite set_reg_Completes by auto.
  rewrite Z.shiftr_div_pow2 by lia. reflexivity.
Qed.

Lemma Opcode8XYE_closed (opcode : Z) (s : chip8) :
  registers_extent s ->
  let x := field_x opcode in
  let s1 := set_Registers (<[15%nat := (V s x / 128) mod 256]> (m_Registers s)) s in
  Opcode8XYE opcode s =
    Completes (set_Registers (<[Z.to_nat x := (V s1 x * 2) mod 256]>
                                (m_Registers s1)) s1).
Proof.
  intros He x s1. pose proof (field_x_range opcode) as Hx.
  unfold Opcode8XYE. fold (field_x opcode). fold x. cbv zeta.
  rewrite (reg_V s x He Hx). simpl.
  rewrite set_reg_Completes by (auto; lia). simpl.
  rewrite Z.shiftr_div_pow2 by lia. change (2 ^ 7) with 128.
  change (set_Registers (<[Z.to_nat 15 := BYTE (V s x / 128)]> (m_Registers s)) s)
    with s1.
  assert (He1 : registers_extent s1) by (apply set_Registers_extent; exact He).
  rewrite (reg_V s1 x He1 Hx). simpl.
  rewrite set_reg_Completes by auto.
  rewrite Z.shiftl_mul_pow2 by lia. reflexivity.
Qed.

(** The shifts lose nothing when VX is not VF: after 8XY6 the old VX is
    twice the new VX plus VF, after 8XYE twice the old VX is 256 times VF
    plus the new VX, VF being the bit shifted out; the fourteen other
    registers are as they were.  VY takes no part. *)
Theorem shifts_keep_the_bit_shifted_out (opcode : Z) (s : chip8) :
  registers_extent s ->
  let x := field_x opcode in
  x <> 0xF -> 0 <= V s x <= 255 ->
  exists r l,
    Opcode8XY6 opcode s = Completes r /\
    Opcode8XYE opcode s = Completes l /\
    V s x = 2 * V r x + V r 0xF /\ 0 <= V r 0xF <= 1 /\
    2 * V s x = 256 * V l 0xF + V l x /\ 0 <= V l 0xF <= 1 /\
    0 <= V l x <= 255 /\
    forall i, 0 <= i -> i <> x -> i <> 0xF ->
              V r i = V s i /\ V l i = V s i.
Proof.
  intros He x HxF Hv. pose proof (field_x_range opcode) as Hx. fold x in Hx.
  pose proof (Opcode8XY6_closed opcode s He) as Hr.
  pose proof (Opcode8XYE_closed opcode s He) as Hl.
  cbv zeta in Hr, Hl. fold x in Hr, Hl.
  set (sr := set_Registers (<[15%nat := (V s x mod 2) mod 256]> (m_Registers s)) s) in *.
  set (sl := set_Registers (<[15%nat := (V s x / 128) mod 256]> (m_Registers s)) s) in *.
  assert (Her : registers_extent sr) by (apply set_Registers_extent; exact He).
  assert (Hel : registers_extent sl) by (apply set_Registers_extent; exact He).
  assert (Hrx : V sr x = V s x) by (apply (V_set_other s 15 x); lia).
  assert (Hlx : V sl x = V s x) by (apply (V_set_other s 15 x); lia).
  assert (HrF : V sr 15 = (V s x mod 2) mod 256)
    by (apply (V_set_same s 15); [exact He|lia]).
  assert (HlF : V sl 15 = (V s x / 128) mod 256)
    by (apply (V_set_same s 15); [exact He|lia]).
  do 2 eexists. split; [exact Hr|]. split; [exact Hl|].
  rewrite !V_set_same by auto. rewrite !(V_set_other _ x 15) by lia.
  rewrite Hrx, Hlx, HrF, HlF.
  assert (H2 : 0 <= V s x mod 2 < 2) by (apply Z.mod_pos_bound; lia).
  assert (H128 : 0 <= V s x / 128 <= 1) by (Z.div_mod_to_equations; lia).
  rewrite (Z.mod_small (V s x mod 2)) by lia.
  rewrite (Z.mod_small (V s x / 128)) by lia.
  rewrite (Z.mod_small (V s x / 2)) by (Z.div_mod_to_equations; lia).
  assert (Hm : 0 <= (V s x * 2) mod 256 < 256) by (apply Z.mod_pos_bound; lia).
  repeat split; try lia.
  - rewrite (Z.div_mod (V s x) 2) at 1 by lia. lia.
  - generalize (V s x) Hv. intros v Hv'. Z.div_mod_to_equations. lia.
  - rewrite V_set_other by lia. apply (V_set_other s 15 i); lia.
  - rewrite V_set_other by lia. apply (V_set_other s 15 i); lia.
Qed.

Lemma shifts_keep_the_bit_shifted_out_witness :
  let s := set_Registers (<[3%nat := 0x85]> (replicate 16 0)) power_on in
  exists r l,
    Opcode8XY6 0x8306 s = Completes r /\
    Opcode8XYE 0x830E s = Completes l /\
    V r 3 = 0x42 /\ V r 0xF = 1 /\ V l 3 = 0x0A /\ V l 0xF = 1.
Proof.
  assert (He : registers_extent
                 (set_Registers (<[3%nat := 0x85]> (replicate 16 0)) power_on))
    by (vm_compute; reflexivity).
  destruct (shifts_keep_the_bit_shifted_out 0x8306 _ He) as (r & _ & Hr & _ & _);
    [vm_compute; discriminate | vm_compute; split; discriminate |].
  destruct (shifts_keep_the_bit_shifted_out 0x830E _ He) as (_ & l & _ & Hl & _);
    [vm_compute; discriminate | vm_compute; split; discriminate |].
  exists r, l. split; [exact Hr|]. split; [exact Hl|].
  vm_compute in Hr. vm_compute in Hl.
  injection Hr as <-. injection Hl as <-. repeat split.
Defined.

(** With VF as the register shifted the flag is lost: 8FY6 stores the low
    bit to VF and then shifts VF itself, which leaves 0 whatever VF held;
    8FYE leaves twice the high bit, 0 or 2. *)
Theorem shifts_of_VF_lose_the_flag (opcode : Z) (s : chip8) :
  registers_extent s ->
  field_x opcode = 0xF -> 0 <= V s 0xF <= 255 ->
  exists r l,
    Opcode8XY6 opcode s = Completes r /\ V r 0xF = 0 /\
    Opcode8XYE opcode s = Completes l /\ V l 0xF = 2 * (V s 0xF / 128).
Proof.
  intros He HxF Hv.
  pose proof (Opcode8XY6_closed opcode s He) as Hr.
  pose proof (Opcode8XYE_closed opcode s He) as Hl.
  cbv zeta in Hr, Hl. rewrite HxF in Hr, Hl.
  do 2 eexists. split; [exact Hr|]. split; [|split; [exact Hl|]].
  - rewrite V_set_same by (try apply set_Registers_extent; auto; lia).
    rewrite (V_set_same s 15) by (auto; lia).
    assert (H2 : 0 <= V s 15 mod 2 < 2) by (apply Z.mod_pos_bound; lia).
    rewrite (Z.mod_small (V s 15 mod 2)) by lia.
    rewrite Z.div_small by lia. reflexivity.
  - rewrite V_set_same by (try apply set_Registers_extent; auto; lia).
    rewrite (V_set_same s 15) by (auto; lia).
    assert (H128 : 0 <= V s 15 / 128 <= 1) by (Z.div_mod_to_equations; lia).
    rewrite (Z.mod_small (V s 15 / 128)) by lia.
    rewrite Z.mod_small by lia. lia.
Qed.

Lemma shifts_of_VF_lose_the_flag_witness :
  let s := set_Registers (<[15%nat := 0xFF]> (replicate 16 0)) power_on in
  exists r l,
    Opcode8XY6 0x8F06 s = Completes r /\ V r 0xF = 0 /\
    Opcode8XYE 0x8F0E s = Completes l /\ V l 0xF = 2.
Proof.
  assert (He : registers_extent
                 (set_Registers (<[15%nat := 0xFF]> (replicate 16 0)) power_on))
    by (vm_compute; reflexivity).
  destruct (shifts_of_VF_lose_the_flag 0x8F06 _ He) as (r & _ & Hr & Hr0 & _);
    [reflexivity | vm_compute; split; discriminate |].
  destruct (shifts_of_VF_lose_the_flag 0x8F0E _ He) as (_ & l & _ & _ & Hl & Hl2);
    [reflexivity | vm_compute; split; discriminate |].
  exists r, l. split; [exact Hr|]. split; [exact Hr0|]. split; [exact Hl|].
  rewrite Hl2. reflexivity.
Defined.

(** ** Random: CXNN *)

Lemma land_le_r (a b : Z) : 0 <= a -> 0 <= b -> Z.land a b <= b.
Proof.
  intros Ha Hb.
  rewrite <- (Z2N.id a Ha), <- (Z2N.id b Hb) at 1.
  rewrite <- N2Z.inj_land.
  rewrite <- (Z2N.id b Hb) at 2. apply N2Z.inj_le. apply N.land_le_r.
Qed.

(** Whatever [rand()] returns, CXNN leaves in VX a value whose set bits are
    all bits of NN, so it is at most NN, and it changes no other
    register. *)
Theorem OpcodeCXNN_within_mask (rnd opcode : Z) (s : chip8) :
  registers_extent s -> 0 <= rnd ->
  let x := field_x opcode in
  let nn := Z.land opcode 0x0FF in
  exists s', OpcodeCXNN rnd opcode s = Completes s' /\
    V s' x = Z.land rnd nn /\
    0 <= V s' x <= nn /\ nn <= 255 /\
    Z.land (V s' x) nn = V s' x /\
    forall i, 0 <= i -> i <> x -> V s' i = V s i.
Proof.
  intros He Hr x nn. pose proof (field_x_range opcode) as Hx. fold x in Hx.
  assert (Hnn : 0 <= nn <= 255).
  { unfold nn. change (Z.land opcode 0x0FF) with (Z.land opcode (Z.ones 8)).
    rewrite Z.land_ones by lia.
    change (2 ^ 8) with 256.
    pose proof (Z.mod_pos_bound opcode 256 ltac:(lia)). lia. }
  assert (Hl : 0 <= Z.land rnd nn <= nn).
  { split; [apply Z.land_nonneg; lia|apply land_le_r; lia]. }
  unfold OpcodeCXNN. fold (field_x opcode). fold x nn.
  rewrite set_reg_Completes by auto. eexists. split; [reflexivity|].
  rewrite V_set_same by auto. unfold BYTE. rewrite Z.mod_small by lia.
  split; [reflexivity|]. split; [exact Hl|]. split; [lia|]. split.
  - now rewrite <- Z.land_assoc, Z.land_diag.
  - intros i Hi Hne. apply V_set_other; lia.
Qed.

Lemma OpcodeCXNN_within_mask_witness :
  exists s', OpcodeCXNN 0x7FFFFFFF 0xC20F power_on = Completes s' /\
             V s' 2 = 0x0F.
Proof.
  destruct (OpcodeCXNN_within_mask 0x7FFFFFFF 0xC20F power_on)
    as (s' & Hs' & Hv & _); [reflexivity | discriminate |].
  exists s'. split; [exact Hs'|]. exact Hv.
Defined.

(** ** Subroutines: 2NNN and 00EE *)

(** A call followed by a return comes back: 2NNN sets the program counter
    to NNN and pushes the address it held, and a 00EE executed next restores
    that address and the stack, so that the machine is in the state it was in
    before the call. *)
Theorem call_then_return (call ret : Z) (s : chip8) :
  Z.of_nat (length (m_stack s)) + 1 < 2 ^ 64 ->
  exists s1,
    Opcode2NNN call s = Completes s1 /\
    m_ProgramCounter s1 = Z.land call 0xFFF /\
    m_stack s1 = m_stack s ++ [m_ProgramCounter s] /\
    Opcode00EE ret s1 = Completes s.
Proof.
  intros Hlen. eexists. split; [reflexivity|]. split; [reflexivity|].
  split; [reflexivity|].
  unfold Opcode00EE. cbn [m_stack set_stack set_ProgramCounter].
  rewrite length_app. simpl length.
  assert (Hi : size_t (Z.of_nat (length (m_stack s) + 1) - 1)
               = Z.of_nat (length (m_stack s))).
  { unfold size_t. rewrite Z.mod_small; lia. }
  rewrite Hi.
  rewrite (subscript_Completes Stack _ _ (m_ProgramCounter s)); [|lia|].
  - simpl. rewrite removelast_last. now destruct s.
  - rewrite Nat2Z.id. now apply list_lookup_middle.
Qed.

Lemma call_then_return_witness :
  let s := set_ProgramCounter 0x202 (set_stack [0x300] power_on) in
  exists s1,
    Opcode2NNN 0x2ABC s = Completes s1 /\
    m_ProgramCounter s1 = 0xABC /\
    m_stack s1 = [0x300; 0x202] /\
    Opcode00EE 0x00EE s1 = Completes s.
Proof.
  destruct (call_then_return 0x2ABC 0x00EE
              (set_ProgramCounter 0x202 (set_stack [0x300] power_on)))
    as (s1 & H1 & Hpc & Hst & Hret); [reflexivity|].
  exists s1. split; [exact H1|]. split; [exact Hpc|].
  split; [exact Hst|exact Hret].
Defined.

(** ** Decimal digits: FX33 *)

(** FX33 writes the three decimal digits of VX: the bytes at I, I+1 and I+2
    become the hundreds, tens and units, each a digit, which make up VX
    again; no other byte of memory and no other component changes. *)
Theorem OpcodeFX33_digits (opcode : Z) (s : chip8) :
  registers_extent s ->
  let v := V s (field_x opcode) in
  let i := m_AddressI s in
  0 <= v <= 255 -> 0 <= i ->
  i + 3 <= Z.of_nat (length (m_GameMemory s)) ->
  exists s' h t u,
    OpcodeFX33 opcode s = Completes s' /\
    m_GameMemory s' !! Z.to_nat i = Some h /\
    m_GameMemory s' !! Z.to_nat (i + 1) = Some t /\
    m_GameMemory s' !! Z.to_nat (i + 2) = Some u /\
    0 <= h <= 2 /\ 0 <= t <= 9 /\ 0 <= u <= 9 /\
    v = 100 * h + 10 * t + u /\
    (forall a, 0 <= a -> a < i \/ i + 3 <= a ->
               m_GameMemory s' !! Z.to_nat a = m_GameMemory s !! Z.to_nat a) /\
    s' = set_GameMemory (m_GameMemory s') s.
Proof.
  intros He v i Hv Hi Hin.
  unfold OpcodeFX33. fold (field_x opcode).
  rewrite (reg_V s _ He (field_x_range opcode)). simpl. fold v.
  unfold set_mem. cbn [m_AddressI m_GameMemory set_GameMemory]. fold i.
  rewrite assign_in_range by lia. simpl.
  rewrite assign_in_range by (rewrite length_insert; lia). simpl.
  rewrite assign_in_range by (rewrite !length_insert; lia). simpl.
  rewrite Z.quot_div_nonneg, !Z.rem_mod_nonneg by
    (try apply Z.quot_pos; try apply Z.div_pos; lia).
  rewrite Z.quot_div_nonneg by lia.
  assert (Hh : 0 <= v / 100 <= 2) by (Z.div_mod_to_equations; lia).
  assert (Ht : 0 <= (v / 10) mod 10 <= 9) by (Z.div_mod_to_equations; lia).
  assert (Hu : 0 <= v mod 10 <= 9) by (Z.div_mod_to_equations; lia).
  unfold BYTE.
  rewrite (Z.mod_small (v / 100) 256), (Z.mod_small ((v / 10) mod 10) 256),
    (Z.mod_small (v mod 10) 256) by lia.
  eexists _, (v / 100), ((v / 10) mod 10), (v mod 10).
  split; [reflexivity|]. cbn [m_GameMemory set_GameMemory]. subst i.
  split; [|split; [|split]].
  - rewrite !list_lookup_insert_ne by lia.
    apply list_lookup_insert_eq. lia.
  - rewrite list_lookup_insert_ne by lia.
    apply list_lookup_insert_eq. rewrite length_insert. lia.
  - apply list_lookup_insert_eq. rewrite !length_insert. lia.
  - split; [exact Hh|]. split; [exact Ht|]. split; [exact Hu|].
    split; [Z.div_mod_to_equations; lia|]. split; [|reflexivity].
    intros a Ha Hout. now rewrite !list_lookup_insert_ne by lia.
Qed.

Lemma OpcodeFX33_digits_witness :
  let s := set_AddressI 0x300
             (set_Registers (<[4%nat := 156]> (replicate 16 0)) power_on) in
  exists s',
    OpcodeFX33 0xF433 s = Completes s' /\
    take 3 (drop 0x300 (m_GameMemory s')) = [1; 5; 6].
Proof.
  assert (He : registers_extent
                 (set_AddressI 0x300
                    (set_Registers (<[4%nat := 156]> (replicate 16 0)) power_on)))
    by (vm_compute; reflexivity).
  destruct (OpcodeFX33_digits 0xF433 _ He) as (s' & h & t & u & Hs' & _);
    [vm_compute; split; discriminate | vm_compute; discriminate
    | vm_compute; discriminate |].
  exists s'. split; [exact Hs'|].
  vm_compute in Hs'. injection Hs' as <-. vm_compute. reflexivity.
Defined.

(** ** Register dump and load: what is transferred *)

Lemma set_GameMemory_over (m : list Z) (s t : chip8) :
  t = set_GameMemory (m_GameMemory t) s ->
  set_GameMemory m t = set_GameMemory m s.
Proof. intros H. rewrite H. reflexivity. Qed.

Lemma set_Registers_over (r : list Z) (s t : chip8) :
  t = set_Registers (m_Registers t) s ->
  set_Registers r t = set_Registers r s.
Proof. intros H. rewrite H. reflexivity. Qed.

Lemma OpcodeFX55_content (opcode : Z) (s : chip8) :
  registers_extent s -> 0 <= m_AddressI s ->
  m_AddressI s + field_x opcode < Z.of_nat (length (m_GameMemory s)) ->
  exists s', OpcodeFX55 opcode s = Completes s' /\
    s' = set_GameMemory (m_GameMemory s') s /\
    length (m_GameMemory s') = length (m_GameMemory s) /\
    (forall j, 0 <= j <= field_x opcode ->
       m_GameMemory s' !! Z.to_nat (m_AddressI s + j) = Some (V s j)) /\
    (forall a, 0 <= a ->
       a < m_AddressI s \/ m_AddressI s + field_x opcode < a ->
       m_GameMemory s' !! Z.to_nat a = m_GameMemory s !! Z.to_nat a).
Proof.
  intros He HI Hin. pose proof (field_x_range opcode) as Hx.
  unfold OpcodeFX55. fold (field_x opcode). cbv zeta.
  destruct (for_loop_invariant
    (fun i t =>
       t = set_GameMemory (m_GameMemory t) s /\
       length (m_GameMemory t) = length (m_GameMemory s) /\
       (forall j, 0 <= j < i ->
          m_GameMemory t !! Z.to_nat (m_AddressI s + j) = Some (V s j)) /\
       (forall a, 0 <= a -> a < m_AddressI s \/ m_AddressI s + i <= a ->
          m_GameMemory t !! Z.to_nat a = m_GameMemory s !! Z.to_nat a))
    (fun i t => vi <- reg t i ;; set_mem (m_AddressI s + i) vi t)
    (Z.to_nat (field_x opcode + 1)) 0 s) as (s' & Hs' & Hinv).
  - split; [now destruct s|]. split; [reflexivity|]. split; [intros; lia|].
    reflexivity.
  - intros j t Hj (Ht & Hlen & Hdone & Hrest).
    assert (Hregs : m_Registers t = m_Registers s) by (now rewrite Ht).
    assert (Het : registers_extent t)
      by (unfold registers_extent; now rewrite Hregs).
    rewrite (reg_V t j Het) by lia. simpl. unfold set_mem.
    rewrite assign_in_range by lia. simpl. eexists. split; [reflexivity|].
    cbn [m_GameMemory set_GameMemory]. split; [|split; [|split]].
    + now apply set_GameMemory_over.
    + now rewrite length_insert.
    + intros k Hk. destruct (Z.eq_dec k j) as [->|Hne].
      * rewrite list_lookup_insert_eq by lia. unfold V. now rewrite Hregs.
      * rewrite list_lookup_insert_ne by lia. apply Hdone. lia.
    + intros a Ha Hout. rewrite list_lookup_insert_ne by lia.
      apply Hrest; lia.
  - destruct Hinv as (Ht & Hlen & Hdone & Hrest).
    exists s'. split; [exact Hs'|]. split; [exact Ht|]. split; [exact Hlen|].
    split.
    + intros j Hj. apply Hdone. lia.
    + intros a Ha Hout. apply Hrest; lia.
Qed.

Lemma OpcodeFX65_content (opcode : Z) (s : chip8) :
  registers_extent s -> 0 <= m_AddressI s ->
  m_AddressI s + field_x opcode < Z.of_nat (length (m_GameMemory s)) ->
  exists s', OpcodeFX65 opcode s = Completes s' /\
    s' = set_Registers (m_Registers s') s /\
    registers_extent s' /\
    (forall j, 0 <= j <= field_x opcode ->
       m_GameMemory s !! Z.to_nat (m_AddressI s + j) = Some (V s' j)) /\
    (forall j, field_x opcode < j -> V s' j = V s j).
Proof.
  intros He HI Hin. pose proof (field_x_range opcode) as Hx.
  unfold OpcodeFX65. fold (field_x opcode). cbv zeta.
  destruct (for_loop_invariant
    (fun i t =>
       t = set_Registers (m_Registers t) s /\
       registers_extent t /\
       (forall j, 0 <= j < i ->
          m_GameMemory s !! Z.to_nat (m_AddressI s + j) = Some (V t j)) /\
       (forall j, i <= j -> V t j = V s j))
    (fun i t => b <- mem t (m_AddressI s + i) ;; set_reg i b t)
    (Z.to_nat (field_x opcode + 1)) 0 s) as (s' & Hs' & Hinv).
  - split; [now destruct s|]. split; [exact He|]. split; [intros; lia|].
    reflexivity.
  - intros j t Hj (Ht & Het & Hdone & Hrest).
    assert (Hmem : m_GameMemory t = m_GameMemory s) by (now rewrite Ht).
    destruct (subscript_in_range GameMemory (m_GameMemory s) (m_AddressI s + j))
      as (b & Hb & Hbl); [lia|].
    unfold mem. rewrite Hmem, Hb. simpl.
    rewrite set_reg_Completes by (auto; lia).
    eexists. split; [reflexivity|]. split; [|split; [|split]].
    + cbn [m_Registers set_Registers]. now apply set_Registers_over.
    + now apply set_Registers_extent.
    + intros k Hk. destruct (Z.eq_dec k j) as [->|Hne].
      * rewrite V_set_same by (auto; lia). exact Hbl.
      * rewrite V_set_other by lia. apply Hdone. lia.
    + intros k Hk. rewrite V_set_other by lia. apply Hrest. lia.
  - destruct Hinv as (Ht & Het & Hdone & Hrest).
    exists s'. split; [exact Hs'|]. split; [exact Ht|]. split; [exact Het|].
    split.
    + intros j Hj. apply Hdone. lia.
    + intros j Hj. apply Hrest. lia.
Qed.

(** FX55 copies V0 .. VX to the bytes at I .. I+X, in ascending order, and
    changes no other byte and no register; FX65 copies those bytes to
    V0 .. VX and changes no other register and no byte. *)
Theorem dump_and_load_transfer (opcode : Z) (s : chip8) :
  registers_extent s -> 0 <= m_AddressI s ->
  m_AddressI s + field_x opcode < Z.of_nat (length (m_GameMemory s)) ->
  exists d l,
    OpcodeFX55 opcode s = Completes d /\
    OpcodeFX65 opcode s = Completes l /\
    d = set_GameMemory (m_GameMemory d) s /\
    l = set_Registers (m_Registers l) s /\
    (forall j, 0 <= j <= field_x opcode ->
       m_GameMemory d !! Z.to_nat (m_AddressI s + j) = Some (V s j) /\
       m_GameMemory s !! Z.to_nat (m_AddressI s + j) = Some (V l j)) /\
    (forall a, 0 <= a ->
       a < m_AddressI s \/ m_AddressI s + field_x opcode < a ->
       m_GameMemory d !! Z.to_nat a = m_GameMemory s !! Z.to_nat a) /\
    (forall j, field_x opcode < j -> V l j = V s j).
Proof.
  intros He HI Hin.
  destruct (OpcodeFX55_content opcode s He HI Hin)
    as (d & Hd & Hdf & _ & Hdw & Hdr).
  destruct (OpcodeFX65_content opcode s He HI Hin)
    as (l & Hl & Hlf & _ & Hlw & Hlr).
  exists d, l. repeat split; auto.
Qed.

Lemma dump_and_load_transfer_witness :
  let s := set_AddressI 0x300
             (set_Registers (<[1%nat := 7]> (replicate 16 0)) power_on) in
  exists d l,
    OpcodeFX55 0xF155 s = Completes d /\
    OpcodeFX65 0xF155 s = Completes l /\
    m_GameMemory d !! Z.to_nat 0x301 = Some 7 /\ V l 1 = 0.
Proof.
  assert (He : registers_extent
                 (set_AddressI 0x300
                    (set_Registers (<[1%nat := 7]> (replicate 16 0)) power_on)))
    by (vm_compute; reflexivity).
  destruct (dump_and_load_transfer 0xF155 _ He)
    as (d & l & Hd & Hl & _ & _ & Hw & _);
    [vm_compute; discriminate | vm_compute; reflexivity |].
  exists d, l. split; [exact Hd|]. split; [exact Hl|].
  destruct (Hw 1) as [Hd1 Hl1]; [vm_compute; split; discriminate|].
  split; [exact Hd1|].
  match type of Hl1 with
  | ?lhs = _ => assert (E : lhs = Some 0) by (vm_compute; reflexivity)
  end.
  rewrite E in Hl1. now injection Hl1.
Defined.

(** Registers saved with FX55 come back with FX65: once V0 .. VX have been
    dumped at I, a load executed later, in a state whose memory and index
    register are those the dump left and whose registers may hold anything,
    gives V0 .. VX the values they had when they were dumped. *)
Theorem dump_then_load_restores (opcode : Z) (s t : chip8) :
  registers_extent s -> registers_extent t -> 0 <= m_AddressI s ->
  m_AddressI s + field_x opcode < Z.of_nat (length (m_GameMemory s)) ->
  exists d, OpcodeFX55 opcode s = Completes d /\
    (m_GameMemory t = m_GameMemory d -> m_AddressI t = m_AddressI s ->
     exists l, OpcodeFX65 opcode t = Completes l /\
       (forall j, 0 <= j <= field_x opcode -> V l j = V s j) /\
       (forall j, field_x opcode < j -> V l j = V t j) /\
       l = set_Registers (m_Registers l) t).
Proof.
  intros He Het HI Hin.
  destruct (OpcodeFX55_content opcode s He HI Hin)
    as (d & Hd & _ & Hlen & Hdw & _).
  exists d. split; [exact Hd|]. intros Hmem HIt.
  destruct (OpcodeFX65_content opcode t Het) as (l & Hl & Hlf & _ & Hlw & Hlr).
  - rewrite HIt. exact HI.
  - rewrite HIt, Hmem, Hlen. exact Hin.
  - exists l. split; [exact Hl|]. split; [|split; [exact Hlr|exact Hlf]].
    intros j Hj. specialize (Hlw j Hj). rewrite HIt, Hmem in Hlw.
    rewrite (Hdw j Hj) in Hlw. now injection Hlw.
Qed.

Lemma dump_then_load_restores_witness :
  let s := set_AddressI 0x300
             (set_Registers (<[1%nat := 7]> (replicate 16 0)) power_on) in
  exists d l,
    OpcodeFX55 0xF155 s = Completes d /\
    OpcodeFX65 0xF155 (set_Registers (replicate 16 9) d) = Completes l /\
    V l 0 = 0 /\ V l 1 = 7 /\ V l 2 = 9.
Proof.
  assert (He : registers_extent
                 (set_AddressI 0x300
                    (set_Registers (<[1%nat := 7]> (replicate 16 0)) power_on)))
    by (vm_compute; reflexivity).
  destruct (dump_then_load_restores 0xF155 _
              (set_Registers (replicate 16 9)
                 (match OpcodeFX55 0xF155
                          (set_AddressI 0x300
                             (set_Registers (<[1%nat := 7]> (replicate 16 0))
                                power_on))
                  with Completes d => d | Undefined _ => power_on end))
              He)
    as (d & Hd & Hload);
    [ vm_compute; reflexivity | vm_compute; discriminate
    | vm_compute; reflexivity |].
  assert (Hd' := Hd). vm_compute in Hd'. injection Hd' as <-.
  destruct Hload as (l & Hl & Hsame & Hrest & _);
    [reflexivity | reflexivity |].
  eexists _, l. split; [exact Hd|]. split; [exact Hl|].
  split; [|split].
  - rewrite (Hsame 0) by (vm_compute; split; discriminate). reflexivity.
  - rewrite (Hsame 1) by (vm_compute; split; discriminate). reflexivity.
  - rewrite (Hrest 2) by (vm_compute; reflexivity). reflexivity.
Defined.

(** ** Key tests: EX9E, EXA1 *)

Lemma key_tests_cases (opcode : Z) (s : chip8) :
  registers_extent s -> keys_extent s ->
  let v := V s (field_x opcode) in
  (0 <= v < 16 ->
     exists down : bool, m_KeysPressed s !! Z.to_nat v = Some down /\
       OpcodeEX9E opcode s = Completes (if down then skip s else s) /\
       OpcodeEXA1 opcode s = Completes (if down then s else skip s)) /\
  (16 <= v ->
     OpcodeEX9E opcode s = Undefined (OutOfRange KeysPressed v) /\
     OpcodeEXA1 opcode s = Undefined (OutOfRange KeysPressed v)).
Proof.
  intros He Hk v. pose proof (field_x_range opcode) as Hx.
  unfold OpcodeEX9E, OpcodeEXA1. fold (field_x opcode). cbv zeta.
  rewrite (reg_V s _ He Hx). simpl. fold v. unfold key. split.
  - intros Hv.
    destruct (subscript_in_range KeysPressed (m_KeysPressed s) v)
      as (down & Hd & Hl); [rewrite Hk; lia|].
    exists down. rewrite Hd. simpl. auto.
  - intros Hv. rewrite subscript_outside by (rewrite Hk; lia). auto.
Qed.

(** The key tests index [m_KeysPressed] with the value of VX, unchecked.
    With VX below 16 exactly one of EX9E and EXA1 skips, EX9E when the key is
    down; with VX at 16 or above both subscript the array outside its sixteen
    entries. *)
Theorem key_tests (opcode : Z) (s : chip8) :
  registers_extent s -> keys_extent s ->
  let v := V s (field_x opcode) in
  (0 <= v < 16 ->
     exists down : bool, m_KeysPressed s !! Z.to_nat v = Some down /\
       OpcodeEX9E opcode s = Completes (if down then skip s else s) /\
       OpcodeEXA1 opcode s = Completes (if down then s else skip s)) /\
  (16 <= v ->
     OpcodeEX9E opcode s = Undefined (OutOfRange KeysPressed v) /\
     OpcodeEXA1 opcode s = Undefined (OutOfRange KeysPressed v)).
Proof. exact (key_tests_cases opcode s). Qed.

Lemma key_tests_witness :
  let s := set_Registers (<[0%nat := 3]> (replicate 16 0))
             (set_KeysPressed (<[3%nat := true]> (replicate 16 false))
                power_on) in
  let t := set_Registers (<[0%nat := 16]> (replicate 16 0)) power_on in
  OpcodeEX9E 0xE09E s = Completes (skip s) /\
  OpcodeEXA1 0xE0A1 s = Completes s /\
  OpcodeEX9E 0xE09E t = Undefined (OutOfRange KeysPressed 16).
Proof.
  assert (He : forall r k, registers_extent
                 (set_Registers (<[0%nat := r]> (replicate 16 0))
                    (set_KeysPressed k power_on)))
    by (intros; vm_compute; reflexivity).
  destruct (key_tests 0xE09E _ (He 3 (<[3%nat := true]> (replicate 16 false))))
    as [Hin _]; [vm_compute; reflexivity|].
  destruct Hin as (down & Hd & H9 & _); [vm_compute; split; [discriminate|reflexivity]|].
  destruct (key_tests 0xE0A1 _ (He 3 (<[3%nat := true]> (replicate 16 false))))
    as [Hin' _]; [vm_compute; reflexivity|].
  destruct Hin' as (down' & Hd' & _ & HA); [vm_compute; split; [discriminate|reflexivity]|].
  destruct (key_tests 0xE09E _ (He 16 (m_KeysPressed power_on)))
    as [_ Hout]; [vm_compute; reflexivity|].
  destruct Hout as [Hu _]; [vm_compute; discriminate|].
  vm_compute in Hd. injection Hd as <-.
  vm_compute in Hd'. injection Hd' as <-.
  split; [exact H9|]. split; [exact HA|exact Hu].
Defined.

(** ** Waiting for a key: FX0A *)

Lemma key_char_subscript (i : Z) :
  0 <= i < 16 ->
  subscript KeyMappings m_keyMappings i = Completes (key_char i).
Proof.
  intros Hi.
  destruct (subscript_in_range KeyMappings m_keyMappings i) as (c & Hc & Hl);
    [simpl; lia|].
  unfold key_char. now rewrite Hc, Hl.
Qed.

(** The scan of the sixteen keys, up to key [i]: either no key below [i] is
    down and nothing has happened, or VX holds the character of the highest
    key below [i] that is down. *)
Lemma OpcodeFX0A_scan (x : Z) (s : chip8) :
  registers_extent s -> keys_extent s -> 0 <= x < 16 ->
  exists r,
    for_loop 16 0 (fun i (st : chip8 * Z) =>
         k <- key (fst st) i ;;
         if k then
           km <- subscript KeyMappings m_keyMappings i ;;
           s1 <- set_reg x km (fst st) ;;
           Completes (s1, 1)
         else Completes st) (s, 0) = Completes r /\
    ((snd r = 0 /\ fst r = s /\
      forall j, 0 <= j < 16 -> m_KeysPressed s !! Z.to_nat j = Some false) \/
     (snd r = 1 /\ exists j, 0 <= j < 16 /\
        m_KeysPressed s !! Z.to_nat j = Some true /\
        (forall k, j < k < 16 -> m_KeysPressed s !! Z.to_nat k = Some false) /\
        fst r = set_Registers (<[Z.to_nat x := key_char j]> (m_Registers s)) s)).
Proof.
  intros He Hk Hx.
  destruct (for_loop_invariant
    (fun i (st : chip8 * Z) =>
       (snd st = 0 /\ fst st = s /\
        forall j, 0 <= j < i -> m_KeysPressed s !! Z.to_nat j = Some false) \/
       (snd st = 1 /\ exists j, 0 <= j < i /\
          m_KeysPressed s !! Z.to_nat j = Some true /\
          (forall k, j < k < i -> m_KeysPressed s !! Z.to_nat k = Some false) /\
          fst st = set_Registers (<[Z.to_nat x := key_char j]> (m_Registers s)) s))
    (fun i (st : chip8 * Z) =>
         k <- key (fst st) i ;;
         if k then
           km <- subscript KeyMappings m_keyMappings i ;;
           s1 <- set_reg x km (fst st) ;;
           Completes (s1, 1)
         else Completes st) 16 0 (s, 0)) as (r & Hr & Hinv).
  - left. split; [reflexivity|]. split; [reflexivity|]. intros; lia.
  - intros i [t kp] Hi Hst. cbn [fst snd] in *.
    assert (Hshape : t = s \/
              exists j, t = set_Registers (<[Z.to_nat x := key_char j]>
                                             (m_Registers s)) s).
    { destruct Hst as [(_ & -> & _)|(_ & j & _ & _ & _ & ->)]; eauto. }
    assert (Hkeys : m_KeysPressed t = m_KeysPressed s)
      by (destruct Hshape as [->|(j & ->)]; reflexivity).
    assert (Het : registers_extent t).
    { destruct Hshape as [->|(j & ->)]; [exact He|].
      now apply set_Registers_extent. }
    assert (Hnew : set_reg x (key_char i) t =
              Completes (set_Registers (<[Z.to_nat x := key_char i]>
                                          (m_Registers s)) s)).
    { rewrite set_reg_Completes by auto.
      destruct Hshape as [->|(j & ->)]; [reflexivity|].
      simpl. now rewrite list_insert_insert_eq. }
    destruct (subscript_in_range KeysPressed (m_KeysPressed s) i)
      as (b & Hb & Hbl); [rewrite Hk; lia|].
    unfold key. rewrite Hkeys, Hb. simpl. destruct b.
    + rewrite key_char_subscript by lia. simpl. rewrite Hnew. simpl.
      eexists. split; [reflexivity|]. right. split; [reflexivity|].
      exists i. split; [lia|]. split; [exact Hbl|]. split; [intros; lia|].
      reflexivity.
    + eexists. split; [reflexivity|]. cbn [fst snd].
      destruct Hst as [(Hkp & Ht & Hnone)|(Hkp & j & Hj & Hjd & Habove & Ht)].
      * left. split; [exact Hkp|]. split; [exact Ht|]. intros j Hj.
        destruct (Z.eq_dec j i) as [->|Hne]; [exact Hbl|apply Hnone; lia].
      * right. split; [exact Hkp|]. exists j. split; [lia|].
        split; [exact Hjd|]. split; [|exact Ht]. intros k Hkk.
        destruct (Z.eq_dec k i) as [->|Hne]; [exact Hbl|apply Habove; lia].
  - exists r. split; [exact Hr|]. exact Hinv.
Qed.

Lemma OpcodeFX0A_cases (opcode : Z) (s : chip8) :
  registers_extent s -> keys_extent s ->
  let x := field_x opcode in
  ((forall j, 0 <= j < 16 -> m_KeysPressed s !! Z.to_nat j = Some false) ->
     OpcodeFX0A opcode s =
       Completes (set_ProgramCounter (WORD (m_ProgramCounter s - 2)) s)) /\
  (forall j, 0 <= j < 16 ->
     m_KeysPressed s !! Z.to_nat j = Some true ->
     (forall k, j < k < 16 -> m_KeysPressed s !! Z.to_nat k = Some false) ->
     OpcodeFX0A opcode s =
       Completes (set_Registers (<[Z.to_nat x := key_char j]> (m_Registers s)) s)
     /\ 49 <= key_char j <= 122).
Proof.
  intros He Hk x. pose proof (field_x_range opcode) as Hx. fold x in Hx.
  destruct (OpcodeFX0A_scan x s He Hk Hx) as (r & Hr & Hcases).
  unfold OpcodeFX0A. fold (field_x opcode). fold x. cbv zeta. rewrite Hr.
  cbn [bind]. split.
  - intros Hnone.
    destruct Hcases as [(Hkp & Ht & _)|(_ & j & Hj & Hjd & _)].
    + now rewrite Hkp, Ht.
    + rewrite (Hnone j Hj) in Hjd. discriminate.
  - intros j Hj Hjd Habove.
    destruct Hcases as [(_ & _ & Hnone)|(Hkp & j' & Hj' & Hjd' & Habove' & Ht)].
    + rewrite (Hnone j Hj) in Hjd. discriminate.
    + assert (j' = j).
      { destruct (Z.lt_trichotomy j j') as [Hlt|[Heq|Hgt]]; [|auto|].
        - rewrite (Habove j') in Hjd' by lia. discriminate.
        - rewrite (Habove' j) in Hjd by lia. discriminate. }
      subst j'. rewrite Hkp, Ht. split; [reflexivity|].
      assert (Hcases16 : j = 0 \/ j = 1 \/ j = 2 \/ j = 3 \/ j = 4 \/ j = 5 \/
                j = 6 \/ j = 7 \/ j = 8 \/ j = 9 \/ j = 10 \/ j = 11 \/
                j = 12 \/ j = 13 \/ j = 14 \/ j = 15) by lia.
      repeat (destruct Hcases16 as [->|Hcases16];
              [vm_compute; split; discriminate|]).
      subst j. vm_compute. split; discriminate.
Qed.

(** FX0A with no key down steps the program counter back by 2 and changes
    nothing else; with a key down it stores in VX the character
    [m_keyMappings] has for the highest key that is down, not the index of
    the key, and leaves the program counter where it is. *)
Theorem OpcodeFX0A_waits_or_stores (opcode : Z) (s : chip8) :
  registers_extent s -> keys_extent s ->
  let x := field_x opcode in
  ((forall j, 0 <= j < 16 -> m_KeysPressed s !! Z.to_nat j = Some false) ->
     OpcodeFX0A opcode s =
       Completes (set_ProgramCounter (WORD (m_ProgramCounter s - 2)) s)) /\
  (forall j, 0 <= j < 16 ->
     m_KeysPressed s !! Z.to_nat j = Some true ->
     (forall k, j < k < 16 -> m_KeysPressed s !! Z.to_nat k = Some false) ->
     OpcodeFX0A opcode s =
       Completes (set_Registers (<[Z.to_nat x := key_char j]> (m_Registers s)) s)
     /\ 49 <= key_char j <= 122).
Proof. exact (OpcodeFX0A_cases opcode s). Qed.

Lemma OpcodeFX0A_waits_or_stores_witness :
  let quiet := set_ProgramCounter 0x202 power_on in
  let down := set_KeysPressed (<[4%nat := true]> (replicate 16 false))
                power_on in
  OpcodeFX0A 0xF30A quiet = Completes (set_ProgramCounter 0x200 quiet) /\
  OpcodeFX0A 0xF30A down =
    Completes (set_Registers (<[3%nat := 113]> (replicate 16 0)) down).
Proof.
  split.
  - apply (OpcodeFX0A_waits_or_stores 0xF30A (set_ProgramCounter 0x202 power_on));
      [vm_compute; reflexivity | vm_compute; reflexivity |].
    intros j Hj.
    change (m_KeysPressed (set_ProgramCounter 0x202 power_on))
      with (replicate 16 false).
    apply lookup_replicate_2. lia.
  - destruct (OpcodeFX0A_waits_or_stores 0xF30A
                (set_KeysPressed (<[4%nat := true]> (replicate 16 false))
                   power_on)) as [_ Hdown];
      [vm_compute; reflexivity | vm_compute; reflexivity |].
    destruct (Hdown 4) as [Hstore _]; [lia | reflexivity | | exact Hstore].
    intros k Hk. cbn [m_KeysPressed set_KeysPressed].
    rewrite list_lookup_insert_ne by lia. apply lookup_replicate_2. lia.
Defined.

(** The character FX0A stores is no key index: a key test on the register a
    key wait has just filled subscripts [m_KeysPressed] at 49 or above,
    outside its sixteen entries. *)
Theorem key_test_after_key_wait (wait test : Z) (s : chip8) (j : Z) :
  registers_extent s -> keys_extent s ->
  field_x test = field_x wait ->
  0 <= j < 16 ->
  m_KeysPressed s !! Z.to_nat j = Some true ->
  (forall k, j < k < 16 -> m_KeysPressed s !! Z.to_nat k = Some false) ->
  exists s1,
    OpcodeFX0A wait s = Completes s1 /\
    V s1 (field_x wait) = key_char j /\
    OpcodeEX9E test s1 = Undefined (OutOfRange KeysPressed (key_char j)) /\
    OpcodeEXA1 test s1 = Undefined (OutOfRange KeysPressed (key_char j)).
Proof.
  intros He Hk Hx Hj Hdown Habove.
  pose proof (field_x_range wait) as Hxr.
  destruct (OpcodeFX0A_cases wait s He Hk) as [_ Hstore].
  destruct (Hstore j Hj Hdown Habove) as [Hs1 Hchar].
  eexists. split; [exact Hs1|].
  set (s1 := set_Registers _ s).
  assert (He1 : registers_extent s1) by (now apply set_Registers_extent).
  assert (Hk1 : keys_extent s1) by exact Hk.
  assert (Hv : V s1 (field_x wait) = key_char j) by (now apply V_set_same).
  split; [exact Hv|].
  destruct (key_tests_cases test s1 He1 Hk1) as [_ Hout].
  rewrite Hx, Hv in Hout. apply Hout. lia.
Qed.

Lemma key_test_after_key_wait_witness :
  let s := set_KeysPressed (<[4%nat := true]> (replicate 16 false)) power_on in
  exists s1,
    OpcodeFX0A 0xF30A s = Completes s1 /\
    V s1 3 = 113 /\
    OpcodeEX9E 0xE39E s1 = Undefined (OutOfRange KeysPressed 113).
Proof.
  destruct (key_test_after_key_wait 0xF30A 0xE39E
              (set_KeysPressed (<[4%nat := true]> (replicate 16 false)) power_on)
              4) as (s1 & H1 & Hv & H9 & _);
    [vm_compute; reflexivity | vm_compute; reflexivity | reflexivity | lia
    | reflexivity | |].
  - intros k Hk. cbn [m_KeysPressed set_KeysPressed].
    rewrite list_lookup_insert_ne by lia. apply lookup_replicate_2. lia.
  - exists s1. split; [exact H1|]. split; [exact Hv|exact H9].
Defined.

(** ** Fetch and decode *)

Lemma lor_bytes (hi lo : Z) :
  0 <= hi < 256 -> 0 <= lo < 256 ->
  Z.lor (WORD (Z.shiftl hi 8)) lo = 256 * hi + lo.
Proof.
  intros Hhi Hlo. rewrite Z.shiftl_mul_pow2 by lia. change (2 ^ 8) with 256.
  unfold WORD. rewrite Z.mod_small by lia.
  assert (Hland : Z.land (hi * 256) lo = 0).
  { apply Z.bits_inj'. intros n Hn. rewrite Z.land_spec, Z.bits_0.
    destruct (Z_lt_le_dec n 8) as [Hlt|Hge].
    - change 256 with (2 ^ 8). now rewrite Z.mul_pow2_bits_low by lia.
    - rewrite <- (Z.mod_small lo (2 ^ 8)) by (change (2 ^ 8) with 256; lia).
      rewrite Z.mod_pow2_bits_high by lia. apply andb_false_r. }
  rewrite <- Z.lxor_lor by exact Hland.
  rewrite <- Z.add_nocarry_lxor by exact Hland. lia.
Qed.

Lemma GetNextOpcode_word (s : chip8) (w : Z) :
  0 <= m_ProgramCounter s -> word_at s (m_ProgramCounter s) w ->
  GetNextOpcode s =
    Completes (w, set_ProgramCounter (WORD (m_ProgramCounter s + 2)) s).
Proof.
  intros Hpc (hi & lo & Hhi & Hlo & Bhi & Blo & ->).
  unfold GetNextOpcode, mem.
  rewrite (subscript_Completes _ _ _ hi Hpc Hhi). simpl.
  rewrite (subscript_Completes _ _ _ lo) by (auto; lia). simpl.
  now rewrite lor_bytes.
Qed.

Lemma msb_spec (opcode : Z) :
  Z.shiftr (Z.land opcode 0xF000) 12 = (opcode / 4096) mod 16.
Proof.
  rewrite Z.shiftr_land. change (Z.shiftr 0xF000 12) with (Z.ones 4).
  rewrite Z.land_ones by lia. now rewrite Z.shiftr_div_pow2 by lia.
Qed.

Lemma low_byte_spec (opcode : Z) : Z.land opcode 0x0FF = opcode mod 256.
Proof. change 0x0FF with (Z.ones 8). now rewrite Z.land_ones by lia. Qed.

Lemma address_spec (opcode : Z) : Z.land opcode 0xFFF = opcode mod 4096.
Proof. change 0xFFF with (Z.ones 12). now rewrite Z.land_ones by lia. Qed.

(** The fetch reads the high byte first: from bytes [hi], [lo] at the program
    counter it makes the word [256 * hi + lo], which lies below 65536, and it
    advances the program counter by 2 modulo 65536 and changes nothing else.
    The operation group, X, Y and the low nibble that the dispatch and the
    routines then mask out of the word are the four nibbles of the two bytes,
    and NN is the low byte. *)
Theorem fetch_is_big_endian (s : chip8) (hi lo : Z) :
  0 <= m_ProgramCounter s ->
  m_GameMemory s !! Z.to_nat (m_ProgramCounter s) = Some hi ->
  m_GameMemory s !! Z.to_nat (m_ProgramCounter s + 1) = Some lo ->
  0 <= hi < 256 -> 0 <= lo < 256 ->
  let w := 256 * hi + lo in
  GetNextOpcode s =
    Completes (w, set_ProgramCounter ((m_ProgramCounter s + 2) mod 65536) s) /\
  0 <= w < 65536 /\
  Z.shiftr (Z.land w 0xF000) 12 = hi / 16 /\
  field_x w = hi mod 16 /\
  field_y w = lo / 16 /\
  Z.land w 0x00F = lo mod 16 /\
  Z.land w 0x0FF = lo.
Proof.
  intros Hpc Hhi Hlo Bhi Blo w.
  split; [apply GetNextOpcode_word; [exact Hpc|]; exists hi, lo; auto|].
  rewrite msb_spec, field_x_spec, field_y_spec, nibble_spec, low_byte_spec.
  unfold w. repeat split; try lia; Z.div_mod_to_equations; lia.
Qed.

Lemma fetch_is_big_endian_witness :
  let s := loaded [0x6A; 0x2B] in
  GetNextOpcode s = Completes (0x6A2B, set_ProgramCounter 0x202 s) /\
  field_x 0x6A2B = 0xA /\ Z.land 0x6A2B 0x0FF = 0x2B.
Proof.
  destruct (fetch_is_big_endian (loaded [0x6A; 0x2B]) 0x6A 0x2B)
    as (Hf & _ & _ & Hx & _ & _ & Hnn);
    [vm_compute; discriminate | vm_compute; reflexivity
    | vm_compute; reflexivity | lia | lia |].
  split; [exact Hf|]. split; [exact Hx|exact Hnn].
Defined.

(** ** The fetch loop *)

Lemma run_loop_stopped (rnds : list Z) (s : chip8) :
  ProgramRunning s = false -> run_loop rnds s = Completes s.
Proof. intros H. destruct rnds; simpl; [reflexivity|]. now rewrite H. Qed.

Lemma run_loop_keeps (rnds : list Z) (s s' : chip8) :
  run_loop rnds s = Completes s' -> keeps s s'.
Proof.
  revert s. induction rnds as [|rnd rest IH]; intros s; simpl.
  - intros [= <-]. apply keeps_refl.
  - destruct (ProgramRunning s); [|intros [= <-]; apply keeps_refl].
    intros H. apply bind_inv in H as (s1 & H1 & H).
    eapply keeps_trans; [eapply cycle_keeps; exact H1|]. now apply IH.
Qed.

(** The interpreter never stops itself.  However many instructions the loop
    of [RunEmulator] has completed, whatever they are, [ProgramRunning] is
    what it was before, and memory and the register file have the extents
    they had; and once [ProgramRunning] is cleared the loop executes
    nothing. *)
Theorem run_loop_never_clears_running (rnds : list Z) (s : chip8) :
  (forall s', run_loop rnds s = Completes s' ->
     ProgramRunning s' = ProgramRunning s /\
     length (m_GameMemory s') = length (m_GameMemory s) /\
     length (m_Registers s') = length (m_Registers s)) /\
  (ProgramRunning s = false -> run_loop rnds s = Completes s).
Proof.
  split.
  - intros s' H. apply run_loop_keeps in H as [H1 H2 H3]. auto.
  - apply run_loop_stopped.
Qed.

Lemma run_loop_never_clears_running_witness :
  let s := loaded [0x60; 0x05; 0x61; 0x07] in
  exists s', run_loop [0; 0] s = Completes s' /\ ProgramRunning s' = true /\
             run_loop [0; 0] (set_ProgramRunning false s)
               = Completes (set_ProgramRunning false s).
Proof.
  eexists. split; [vm_compute; reflexivity|]. split.
  - destruct (run_loop_never_clears_running [0; 0]
                (loaded [0x60; 0x05; 0x61; 0x07])) as [Hkeep _].
    destruct (Hkeep _ ltac:(vm_compute; reflexivity)) as (Hr & _ & _).
    rewrite Hr. vm_compute. reflexivity.
  - apply (run_loop_never_clears_running [0; 0]
             (set_ProgramRunning false (loaded [0x60; 0x05; 0x61; 0x07]))).
    reflexivity.
Defined.

Lemma run_loop_fixed (rnds : list Z) (s : chip8) :
  (forall rnd, cycle rnd s = Completes s) -> run_loop rnds s = Completes s.
Proof.
  intros Hfix. induction rnds as [|rnd rest IH]; simpl; [reflexivity|].
  destruct (ProgramRunning s); [|reflexivity]. now rewrite Hfix.
Qed.

Lemma set_ProgramCounter_back (s : chip8) (pc : Z) :
  set_ProgramCounter (m_ProgramCounter s) (set_ProgramCounter pc s) = s.
Proof. now destruct s. Qed.

(** A jump to its own address spins: with the word 1NNN stored at address
    NNN and the program counter at NNN, every turn of the loop fetches the
    jump and comes back to the same state, so the loop makes no progress
    however long it runs. *)
Theorem jump_to_self_spins (rnds : list Z) (s : chip8) :
  let pc := m_ProgramCounter s in
  0 <= pc < 4096 -> word_at s pc (0x1000 + pc) ->
  run_loop rnds s = Completes s.
Proof.
  intros pc Hpc Hword. apply run_loop_fixed. intros rnd.
  unfold cycle. rewrite (GetNextOpcode_word s _ ltac:(lia) Hword).
  cbn [bind fst snd]. unfold execute. cbv zeta.
  assert (Hmsb : Z.shiftr (Z.land (0x1000 + pc) 0xF000) 12 = 1)
    by (rewrite msb_spec; Z.div_mod_to_equations; lia).
  rewrite Hmsb. unfold Opcode1NNN.
  assert (Hnnn : Z.land (0x1000 + pc) 0xFFF = pc)
    by (rewrite address_spec; Z.div_mod_to_equations; lia).
  rewrite Hnnn. unfold pc. now rewrite set_ProgramCounter_back.
Qed.

Lemma jump_to_self_spins_witness :
  run_loop [0; 0; 0] (loaded [0x12; 0x00]) = Completes (loaded [0x12; 0x00]).
Proof.
  apply (jump_to_self_spins [0; 0; 0] (loaded [0x12; 0x00]));
    [vm_compute; split; [discriminate|reflexivity]|].
  exists 0x12, 0x00. vm_compute. repeat split; discriminate.
Defined.

(** The key wait blocks: with the word FX0A at the program counter and no
    key down, every turn of the loop fetches the instruction, which steps the
    program counter back onto itself, and the state does not change until a
    key goes down. *)
Theorem key_wait_blocks (rnds : list Z) (s : chip8) (x : Z) :
  registers_extent s -> keys_extent s ->
  let pc := m_ProgramCounter s in
  0 <= pc < 65536 -> 0 <= x < 16 ->
  word_at s pc (0xF00A + 256 * x) ->
  (forall j, 0 <= j < 16 -> m_KeysPressed s !! Z.to_nat j = Some false) ->
  run_loop rnds s = Completes s.
Proof.
  intros He Hk pc Hpc Hx Hword Hnone. apply run_loop_fixed. intros rnd.
  unfold cycle. rewrite (GetNextOpcode_word s _ ltac:(lia) Hword).
  cbn [bind fst snd]. unfold execute. cbv zeta.
  assert (Hmsb : Z.shiftr (Z.land (0xF00A + 256 * x) 0xF000) 12 = 0xF)
    by (rewrite msb_spec; Z.div_mod_to_equations; lia).
  assert (Hlow : Z.land (0xF00A + 256 * x) 0x0FF = 0x0A)
    by (rewrite low_byte_spec; Z.div_mod_to_equations; lia).
  rewrite Hmsb, Hlow.
  set (s1 := set_ProgramCounter _ s).
  destruct (OpcodeFX0A_cases (0xF00A + 256 * x) s1) as [Hwait _];
    [exact He | exact Hk |].
  rewrite Hwait by exact Hnone. f_equal.
  unfold s1. cbn [m_ProgramCounter set_ProgramCounter]. fold pc.
  assert (Hback : WORD (WORD (pc + 2) - 2) = pc).
  { unfold WORD. Z.div_mod_to_equations. lia. }
  rewrite Hback. unfold pc. now destruct s.
Qed.

Lemma key_wait_blocks_witness :
  run_loop [0; 0; 0] (loaded [0xF3; 0x0A]) = Completes (loaded [0xF3; 0x0A]).
Proof.
  apply (key_wait_blocks [0; 0; 0] (loaded [0xF3; 0x0A]) 3);
    [ vm_compute; reflexivity | vm_compute; reflexivity
    | vm_compute; split; [discriminate|reflexivity] | lia | | ].
  - exists 0xF3, 0x0A. vm_compute. repeat split; discriminate.
  - intros j Hj.
    change (m_KeysPressed (loaded [0xF3; 0x0A])) with (replicate 16 false).
    apply lookup_replicate_2. lia.
Defined.

(** ** The key thread *)

Lemma key_to_index_initial_inverse (c i : Z) :
  key_to_index_initial !! c = Some i -> 0 <= i < 16 /\ key_char i = c.
Proof.
  intros H. unfold key_to_index_initial in H.
  apply elem_of_list_to_map_2 in H.
  repeat (apply elem_of_cons in H as [[= -> ->]|H];
          [vm_compute; repeat split; discriminate|]).
  now apply elem_of_nil in H.
Qed.

Lemma key_of_range (sym : Z) : 0 <= key_of sym < 16.
Proof.
  unfold key_of. destruct (key_to_index_initial !! to_char sym) eqn:E; simpl.
  - now apply key_to_index_initial_inverse in E.
  - lia.
Qed.

Lemma grown_initial : grown_from_initial key_to_index_initial.
Proof. split; auto. Qed.

Lemma map_subscript_grown (m : gmap Z Z) (sym : Z) :
  grown_from_initial m ->
  fst (map_subscript m (to_char sym)) = key_of sym /\
  grown_from_initial (snd (map_subscript m (to_char sym))) /\
  snd (map_subscript m (to_char sym)) !! to_char sym = Some (key_of sym).
Proof.
  intros [Hkeep Hzero]. unfold map_subscript, key_of.
  destruct (m !! to_char sym) as [v|] eqn:E; simpl.
  - assert (Hv : v = default 0 (key_to_index_initial !! to_char sym)).
    { destruct (Hzero _ _ E) as [Hi| ->]; [now rewrite Hi|].
      destruct (key_to_index_initial !! to_char sym) as [i|] eqn:Ei;
        [|reflexivity].
      apply Hkeep in Ei. rewrite E in Ei. now injection Ei. }
    rewrite <- Hv. split; [reflexivity|]. split; [now split|exact E].
  - assert (Hnone : key_to_index_initial !! to_char sym = None).
    { destruct (key_to_index_initial !! to_char sym) as [i|] eqn:Ei;
        [|reflexivity].
      apply Hkeep in Ei. rewrite E in Ei. discriminate. }
    rewrite Hnone. simpl. split; [reflexivity|]. split.
    + split.
      * intros c i Hc. rewrite lookup_insert_ne by congruence. now apply Hkeep.
      * intros c v Hc. destruct (decide (to_char sym = c)) as [<-|Hne].
        -- rewrite lookup_insert_eq in Hc. injection Hc as <-. now right.
        -- rewrite lookup_insert_ne in Hc by exact Hne. now apply Hzero.
    + apply lookup_insert_eq.
Qed.

Lemma latch_grown (sym : Z) (pressed : bool) (h : host) :
  grown_from_initial (key_to_index h) -> keys_extent (machine h) ->
  exists m,
    latch sym pressed h =
      Completes (mkHost (set_KeysPressed
                           (<[Z.to_nat (key_of sym) := pressed]>
                              (m_KeysPressed (machine h))) (machine h)) m) /\
    grown_from_initial m /\ m !! to_char sym = Some (key_of sym).
Proof.
  intros Hg Hk. destruct (map_subscript_grown _ sym Hg) as (Hi & Hg' & Hl).
  pose proof (key_of_range sym) as Hr.
  unfold latch. cbv zeta. rewrite Hi.
  rewrite assign_in_range by (rewrite Hk; lia). simpl. eauto.
Qed.

(** A key event acts on the key whose character, in the initial map, is the
    symbol modulo 256, and on key 0 when no key has that character: a key
    down sets that entry of [m_KeysPressed], a key up clears it, and the
    subscript is always one of the sixteen entries.  The map then holds the
    character, and every character it has gained has index 0.  So a key down
    followed by a key up of the same symbol clears the entry again, and
    leaves [m_KeysPressed] as it was when that key was not down before. *)
Theorem key_events_latch (sym : Z) (h : host) :
  grown_from_initial (key_to_index h) -> keys_extent (machine h) ->
  let keys := m_KeysPressed (machine h) in
  let i := Z.to_nat (key_of sym) in
  0 <= key_of sym < 16 /\
  exists d u du,
    keyUpdate_event (EvKeyDown sym) h = Completes d /\
    keyUpdate_event (EvKeyUp sym) h = Completes u /\
    keyUpdate_event (EvKeyUp sym) d = Completes du /\
    machine d = set_KeysPressed (<[i := true]> keys) (machine h) /\
    machine u = set_KeysPressed (<[i := false]> keys) (machine h) /\
    machine du = machine u /\
    (keys !! i = Some false -> machine du = machine h) /\
    grown_from_initial (key_to_index d) /\
    key_to_index d !! to_char sym = Some (key_of sym).
Proof.
  intros Hg Hk keys i. split; [apply key_of_range|].
  destruct (latch_grown sym true h Hg Hk) as (md & Hd & Hgd & Hld).
  destruct (latch_grown sym false h Hg Hk) as (mu & Hu & _ & _).
  destruct (latch_grown sym false
              (mkHost (set_KeysPressed (<[i := true]> keys) (machine h)) md))
    as (mdu & Hdu & _ & _);
    [exact Hgd | unfold keys_extent; simpl; now rewrite length_insert|].
  do 3 eexists. simpl. split; [exact Hd|]. split; [exact Hu|].
  split; [exact Hdu|]. cbn [machine key_to_index].
  split; [reflexivity|]. split; [reflexivity|].
  cbn [m_KeysPressed set_KeysPressed]. fold i keys.
  rewrite list_insert_insert_eq. split; [reflexivity|].
  split; [|split; [exact Hgd|exact Hld]].
  intros Hfalse. rewrite list_insert_id by exact Hfalse.
  unfold keys. now destruct (machine h).
Qed.

Lemma key_events_latch_witness :
  let h := mkHost power_on key_to_index_initial in
  exists d,
    keyUpdate_event (EvKeyDown (113 + 256)) h = Completes d /\
    machine d = set_KeysPressed (<[4%nat := true]> (replicate 16 false))
                  power_on.
Proof.
  destruct (key_events_latch (113 + 256) (mkHost power_on key_to_index_initial)
              grown_initial ltac:(reflexivity))
    as (_ & d & _ & _ & Hd & _ & _ & Hm & _).
  exists d. split; [exact Hd|exact Hm].
Defined.

Lemma keyUpdate_event_safe (e : SDL_Event) (h : host) :
  grown_from_initial (key_to_index h) -> keys_extent (machine h) ->
  exists h', keyUpdate_event e h = Completes h' /\
    grown_from_initial (key_to_index h') /\ keys_extent (machine h') /\
    same_but_latch (machine h) (machine h').
Proof.
  intros Hg Hk. destruct e as [|sym|sym|]; simpl.
  - eexists. split; [reflexivity|]. split; [exact Hg|].
    split; [exact Hk|reflexivity].
  - destruct (latch_grown sym true h Hg Hk) as (m & Hl & Hgm & _).
    eexists. split; [exact Hl|]. split; [exact Hgm|]. split.
    + unfold keys_extent. simpl. now rewrite length_insert.
    + reflexivity.
  - destruct (latch_grown sym false h Hg Hk) as (m & Hl & Hgm & _).
    eexists. split; [exact Hl|]. split; [exact Hgm|]. split.
    + unfold keys_extent. simpl. now rewrite length_insert.
    + reflexivity.
  - exists h. split; [reflexivity|]. split; [exact Hg|].
    split; [exact Hk|reflexivity].
Qed.

Lemma keyUpdate_poll_safe (events : list SDL_Event) (h : host) :
  grown_from_initial (key_to_index h) -> keys_extent (machine h) ->
  exists h', keyUpdate_poll events h = Completes h' /\
    grown_from_initial (key_to_index h') /\ keys_extent (machine h') /\
    same_but_latch (machine h) (machine h').
Proof.
  revert h. induction events as [|e rest IH]; intros h Hg Hk; simpl.
  - exists h. split; [reflexivity|]. split; [exact Hg|].
    split; [exact Hk|reflexivity].
  - destruct (keyUpdate_event_safe e h Hg Hk) as (h1 & H1 & Hg1 & Hk1 & Hs1).
    destruct (IH h1 Hg1 Hk1) as (h' & H' & Hg' & Hk' & Hs').
    exists h'. rewrite H1. simpl. split; [exact H'|].
    split; [exact Hg'|]. split; [exact Hk'|].
    unfold same_but_latch in *. congruence.
Qed.

(** The key thread never faults and keeps to the latch.  From the initial
    map, or one grown from it, and a latch of sixteen entries, whatever events
    arrive in whatever order, [keyUpdate] completes; every subscript of
    [m_KeysPressed] it made was within the array; and of the machine only
    [m_KeysPressed] and [ProgramRunning] can differ from what they were. *)
Theorem keyUpdate_never_faults (polls : list (list SDL_Event)) (h : host) :
  grown_from_initial (key_to_index h) -> keys_extent (machine h) ->
  exists h', keyUpdate polls h = Completes h' /\
    grown_from_initial (key_to_index h') /\ keys_extent (machine h') /\
    same_but_latch (machine h) (machine h').
Proof.
  revert h. induction polls as [|events rest IH]; intros h Hg Hk; simpl.
  - exists h. split; [reflexivity|]. split; [exact Hg|].
    split; [exact Hk|reflexivity].
  - destruct (ProgramRunning (machine h));
      [|exists h; split; [reflexivity|]; split; [exact Hg|];
        split; [exact Hk|reflexivity]].
    destruct (keyUpdate_poll_safe events h Hg Hk)
      as (h1 & H1 & Hg1 & Hk1 & Hs1).
    destruct (IH h1 Hg1 Hk1) as (h' & H' & Hg' & Hk' & Hs').
    exists h'. rewrite H1. simpl. split; [exact H'|].
    split; [exact Hg'|]. split; [exact Hk'|].
    unfold same_but_latch in *. congruence.
Qed.

Lemma keyUpdate_never_faults_witness :
  let h := mkHost power_on key_to_index_initial in
  exists h',
    keyUpdate [[EvKeyDown 119; EvOther]; [EvKeyDown 0x40000052; EvKeyUp 119]] h
      = Completes h' /\
    keys_extent (machine h') /\ same_but_latch power_on (machine h').
Proof.
  destruct (keyUpdate_never_faults
              [[EvKeyDown 119; EvOther]; [EvKeyDown 0x40000052; EvKeyUp 119]]
              (mkHost power_on key_to_index_initial) grown_initial)
    as (h' & H' & _ & Hk & Hs); [reflexivity|].
  exists h'. split; [exact H'|]. split; [exact Hk|exact Hs].
Defined.





(** A key wait returns the character typed, not the key.  With no key down,
    a key down event for a symbol followed by FX0A leaves in VX the character
    of the key the event acted on: for a symbol whose character is one of the
    sixteen in the map that is the character itself (the symbol modulo 256),
    for any other symbol it is 'x' (120), the character of key 0. *)
Theorem key_wait_returns_character (wait sym : Z) (h : host) :
  grown_from_initial (key_to_index h) ->
  keys_extent (machine h) -> registers_extent (machine h) ->
  (forall j, 0 <= j < 16 ->
             m_KeysPressed (machine h) !! Z.to_nat j = Some false) ->
  exists d s1,
    keyUpdate_event (EvKeyDown sym) h = Completes d /\
    OpcodeFX0A wait (machine d) = Completes s1 /\
    V s1 (field_x wait) = key_char (key_of sym) /\
    (forall i, key_to_index_initial !! to_char sym = Some i ->
               V s1 (field_x wait) = to_char sym) /\
    (key_to_index_initial !! to_char sym = None ->
     V s1 (field_x wait) = 120).
Proof.
  intros Hg Hk He Hnone.
  pose proof (key_of_range sym) as Hr. pose proof (field_x_range wait) as Hx.
  destruct (latch_grown sym true h Hg Hk) as (m & Hl & _ & _).
  set (d := mkHost _ m) in Hl.
  assert (Hkd : keys_extent (machine d))
    by (unfold keys_extent; simpl; now rewrite length_insert).
  assert (Hed : registers_extent (machine d)) by exact He.
  destruct (OpcodeFX0A_cases wait (machine d) Hed Hkd) as [_ Hstore].
  destruct (Hstore (key_of sym)) as [Hs1 _]; [exact Hr | | |].
  - simpl. apply list_lookup_insert_eq. rewrite Hk. lia.
  - intros k Hkk. simpl. rewrite list_lookup_insert_ne by lia.
    apply Hnone. lia.
  - exists d. eexists. split; [exact Hl|]. split; [exact Hs1|].
    assert (Hv : V (set_Registers
                      (<[Z.to_nat (field_x wait) := key_char (key_of sym)]>
                         (m_Registers (machine d))) (machine d))
                   (field_x wait) = key_char (key_of sym))
      by (apply V_set_same; auto).
    split; [exact Hv|]. rewrite Hv. split.
    + intros i Hi. unfold key_of. rewrite Hi. simpl.
      now apply key_to_index_initial_inverse in Hi.
    + intros Hi. unfold key_of. rewrite Hi. reflexivity.
Qed.

Lemma key_wait_returns_character_witness :
  let h := mkHost power_on key_to_index_initial in
  exists d s1 s2,
    keyUpdate_event (EvKeyDown 113) h = Completes d /\
    OpcodeFX0A 0xF30A (machine d) = Completes s1 /\ V s1 3 = 113 /\
    OpcodeFX0A 0xF30A
      (set_KeysPressed (<[0%nat := true]> (replicate 16 false)) power_on)
      = Completes s2 /\ V s2 3 = 120.
Proof.
  assert (Hnone : forall j, 0 <= j < 16 ->
            m_KeysPressed power_on !! Z.to_nat j = Some false)
    by (intros j Hj; apply lookup_replicate_2; lia).
  destruct (key_wait_returns_character 0xF30A 113
              (mkHost power_on key_to_index_initial) grown_initial
              ltac:(reflexivity) ltac:(reflexivity) Hnone)
    as (d & s1 & Hd & H1 & _ & Hmapped & _).
  exists d, s1. eexists. split; [exact Hd|]. split; [exact H1|].
  split; [apply (Hmapped 4); reflexivity|].
  split; [vm_compute; reflexivity|reflexivity].
Defined.

(** ** The delay timer as the program sees it *)

Lemma decreseTimer_only_delay (n : nat) (s : chip8) :
  set_DelayTimer 0 (decreseTimer n s) = set_DelayTimer 0 s.
Proof.
  revert s. induction n as [|n IH]; intros s; simpl; [reflexivity|].
  destruct (ProgramRunning s); [|reflexivity].
  rewrite IH. unfold decreseTimer_tick.
  now destruct (m_DelayTimer s >? 0).
Qed.

(** A value written to the delay timer with FX15 is read back with FX07
    less the number of ticks that have passed, and as 0 once that many ticks
    or more have passed; the ticks change nothing else. *)
Theorem delay_timer_counts_down (set read : Z) (n : nat) (s : chip8) :
  registers_extent s -> ProgramRunning s = true ->
  0 <= V s (field_x set) <= 255 ->
  exists s1 s2,
    OpcodeFX15 set s = Completes s1 /\
    OpcodeFX07 read (decreseTimer n s1) = Completes s2 /\
    V s2 (field_x read) = Z.max 0 (V s (field_x set) - Z.of_nat n) /\
    set_DelayTimer 0 (decreseTimer n s1) = set_DelayTimer 0 s.
Proof.
  intros He Hrun Hv.
  set (s1 := set_DelayTimer (V s (field_x set)) s).
  assert (H1 : OpcodeFX15 set s = Completes s1).
  { unfold OpcodeFX15. fold (field_x set).
    now rewrite (reg_V s _ He (field_x_range set)). }
  destruct (decreseTimer_spec n s1 Hrun Hv) as [Hd _].
  pose proof (decreseTimer_only_delay n s1) as Hframe.
  assert (Hregs : m_Registers (decreseTimer n s1) = m_Registers s)
    by (apply (f_equal m_Registers) in Hframe; exact Hframe).
  assert (Het : registers_extent (decreseTimer n s1))
    by (unfold registers_extent; now rewrite Hregs).
  exists s1. eexists. split; [exact H1|].
  unfold OpcodeFX07. cbv zeta. fold (field_x read).
  rewrite set_reg_Completes by (auto; apply field_x_range).
  split; [reflexivity|]. split; [|exact Hframe].
  rewrite V_set_same by (auto; apply field_x_range). exact Hd.
Qed.

Lemma delay_timer_counts_down_witness :
  let s := set_Registers (<[2%nat := 5]> (replicate 16 0)) power_on in
  exists s1 s2 s3,
    OpcodeFX15 0xF215 s = Completes s1 /\
    OpcodeFX07 0xF407 (decreseTimer 3 s1) = Completes s2 /\ V s2 4 = 2 /\
    OpcodeFX07 0xF407 (decreseTimer 9 s1) = Completes s3 /\ V s3 4 = 0.
Proof.
  assert (He : registers_extent
                 (set_Registers (<[2%nat := 5]> (replicate 16 0)) power_on))
    by (vm_compute; reflexivity).
  destruct (delay_timer_counts_down 0xF215 0xF407 3 _ He)
    as (s1 & s2 & H1 & H2 & Hv2 & _);
    [reflexivity | vm_compute; split; discriminate |].
  destruct (delay_timer_counts_down 0xF215 0xF407 9 _ He)
    as (s1' & s3 & H1' & H3 & Hv3 & _);
    [reflexivity | vm_compute; split; discriminate |].
  rewrite H1 in H1'. injection H1' as <-.
  exists s1, s2, s3. split; [exact H1|]. split; [exact H2|].
  split; [exact Hv2|]. split; [exact H3|exact Hv3].
Defined.

(** ** Register operations that undo each other *)

Lemma registers_lookup_V (s : chip8) (i : Z) :
  registers_extent s -> 0 <= i < 16 ->
  m_Registers s !! Z.to_nat i = Some (V s i).
Proof.
  intros He Hi. unfold V.
  destruct (lookup_lt_is_Some_2 (m_Registers s) (Z.to_nat i)) as [v Hv];
    [rewrite He; lia|].
  now rewrite Hv.
Qed.

Lemma set_Registers_same (s : chip8) (i : Z) :
  registers_extent s -> 0 <= i < 16 ->
  set_Registers (<[Z.to_nat i := V s i]> (m_Registers s)) s = s.
Proof.
  intros He Hi. rewrite list_insert_id by (now apply registers_lookup_V).
  now destruct s.
Qed.

Lemma Opcode7XNN_closed (opcode : Z) (s : chip8) :
  registers_extent s ->
  Opcode7XNN opcode s =
    Completes (set_Registers
                 (<[Z.to_nat (field_x opcode) :=
                      (V s (field_x opcode) + opcode mod 256) mod 256]>
                    (m_Registers s)) s).
Proof.
  intros He. pose proof (field_x_range opcode) as Hx.
  unfold Opcode7XNN. cbv zeta. fold (field_x opcode).
  rewrite (reg_V s _ He Hx). simpl. rewrite set_reg_Completes by auto.
  rewrite low_byte_spec. unfold BYTE, WORD.
  rewrite (Z.mod_small (opcode mod 256) 65536)
    by (pose proof (Z.mod_pos_bound opcode 256 ltac:(lia)); lia).
  reflexivity.
Qed.

Lemma Opcode8XY3_closed (opcode : Z) (s : chip8) :
  registers_extent s ->
  Opcode8XY3 opcode s =
    Completes (set_Registers
                 (<[Z.to_nat (field_x opcode) :=
                      (Z.lxor (V s (field_x opcode)) (V s (field_y opcode)))
                      mod 256]> (m_Registers s)) s).
Proof.
  intros He. pose proof (field_x_range opcode) as Hx.
  pose proof (field_y_range opcode) as Hy.
  unfold Opcode8XY3. fold (field_x opcode) (field_y opcode).
  rewrite (reg_V s _ He Hy). simpl. rewrite (reg_V s _ He Hx). simpl.
  now rewrite set_reg_Completes by auto.
Qed.

Lemma lxor_byte (a b : Z) :
  0 <= a < 256 -> 0 <= b < 256 -> 0 <= Z.lxor a b < 256.
Proof.
  intros Ha Hb.
  assert (E : Z.lxor a b = Z.lxor a b mod 2 ^ 8).
  { rewrite <- (Z.mod_small a (2 ^ 8)) at 1 by (change (2 ^ 8) with 256; lia).
    rewrite <- (Z.mod_small b (2 ^ 8)) at 1 by (change (2 ^ 8) with 256; lia).
    apply Z.bits_inj'. intros k Hk. rewrite Z.lxor_spec.
    destruct (Z.ltb_spec k 8).
    - now rewrite !Z.mod_pow2_bits_low, Z.lxor_spec by lia.
    - now rewrite !Z.mod_pow2_bits_high by lia. }
  rewrite E. change (2 ^ 8) with 256. apply Z.mod_pos_bound. lia.
Qed.

(** The immediate add wraps modulo 256 and sets no flag, so adding NN and
    then MM with NN + MM a multiple of 256 brings the machine back to the
    state it was in; and the exclusive or of VX with another register VY,
    executed twice, does the same. *)
Theorem register_operations_undo (add back xor : Z) (s : chip8) :
  registers_extent s ->
  (forall i, 0 <= i < 16 -> 0 <= V s i < 256) ->
  (field_x back = field_x add -> (add mod 256 + back mod 256) mod 256 = 0 ->
   exists s1, Opcode7XNN add s = Completes s1 /\
              V s1 (field_x add) = (V s (field_x add) + add mod 256) mod 256 /\
              Opcode7XNN back s1 = Completes s) /\
  (field_x xor <> field_y xor ->
   exists s1, Opcode8XY3 xor s = Completes s1 /\
              V s1 (field_x xor)
                = Z.lxor (V s (field_x xor)) (V s (field_y xor)) /\
              Opcode8XY3 xor s1 = Completes s).
Proof.
  intros He Hbytes. split.
  - intros Hx Hsum. pose proof (field_x_range add) as Hxr.
    pose proof (Hbytes _ Hxr) as Hv.
    eexists. split; [now apply Opcode7XNN_closed|].
    set (s1 := set_Registers _ s).
    assert (He1 : registers_extent s1) by (now apply set_Registers_extent).
    assert (Hv1 : V s1 (field_x add)
                  = (V s (field_x add) + add mod 256) mod 256)
      by (now apply V_set_same).
    split; [exact Hv1|].
    rewrite (Opcode7XNN_closed back s1 He1). rewrite Hx, Hv1. f_equal.
    unfold s1. cbn [m_Registers set_Registers].
    rewrite list_insert_insert_eq.
    assert (Hback : ((V s (field_x add) + add mod 256) mod 256
                     + back mod 256) mod 256 = V s (field_x add)).
    { rewrite Zplus_mod_idemp_l, <- Z.add_assoc, <- Zplus_mod_idemp_r, Hsum.
      rewrite Z.add_0_r. apply Z.mod_small. lia. }
    rewrite Hback. rewrite (set_Registers_over _ s) by reflexivity.
    now apply set_Registers_same.
  - intros Hne. pose proof (field_x_range xor) as Hxr.
    pose proof (field_y_range xor) as Hyr.
    pose proof (Hbytes _ Hxr) as Hvx. pose proof (Hbytes _ Hyr) as Hvy.
    pose proof (lxor_byte _ _ Hvx Hvy) as Hl.
    eexists. split; [now apply Opcode8XY3_closed|].
    set (s1 := set_Registers _ s).
    assert (He1 : registers_extent s1) by (now apply set_Registers_extent).
    assert (Hv1 : V s1 (field_x xor)
                  = Z.lxor (V s (field_x xor)) (V s (field_y xor))).
    { unfold s1. rewrite V_set_same by auto. apply Z.mod_small. lia. }
    assert (Hy1 : V s1 (field_y xor) = V s (field_y xor))
      by (apply V_set_other; lia).
    split; [exact Hv1|].
    rewrite (Opcode8XY3_closed xor s1 He1). rewrite Hv1, Hy1. f_equal.
    unfold s1. cbn [m_Registers set_Registers].
    rewrite list_insert_insert_eq.
    rewrite Z.lxor_assoc, Z.lxor_nilpotent, Z.lxor_0_r.
    rewrite Z.mod_small by lia.
    rewrite (set_Registers_over _ s) by reflexivity.
    now apply set_Registers_same.
Qed.

Lemma register_operations_undo_witness :
  let s := set_Registers (<[1%nat := 200]> (<[2%nat := 15]> (replicate 16 0)))
             power_on in
  exists s1 s2,
    Opcode7XNN 0x7164 s = Completes s1 /\ V s1 1 = 44 /\
    Opcode7XNN 0x719C s1 = Completes s /\
    Opcode8XY3 0x8123 s = Completes s2 /\ V s2 1 = 199 /\
    Opcode8XY3 0x8123 s2 = Completes s.
Proof.
  assert (He : registers_extent
                 (set_Registers
                    (<[1%nat := 200]> (<[2%nat := 15]> (replicate 16 0)))
                    power_on)) by (vm_compute; reflexivity).
  assert (Hb : forall i, 0 <= i < 16 ->
            0 <= V (set_Registers
                      (<[1%nat := 200]> (<[2%nat := 15]> (replicate 16 0)))
                      power_on) i < 256).
  { intros i Hi.
    assert (Hc : i = 0 \/ i = 1 \/ i = 2 \/ i = 3 \/ i = 4 \/ i = 5 \/
              i = 6 \/ i = 7 \/ i = 8 \/ i = 9 \/ i = 10 \/ i = 11 \/
              i = 12 \/ i = 13 \/ i = 14 \/ i = 15) by lia.
    repeat (destruct Hc as [->|Hc]; [vm_compute; split; [discriminate|reflexivity]|]).
    subst i. vm_compute. split; [discriminate|reflexivity]. }
  destruct (register_operations_undo 0x7164 0x719C 0x8123 _ He Hb)
    as [Hadd Hxor].
  destruct Hadd as (s1 & H1 & Hv1 & Hb1); [reflexivity | reflexivity |].
  destruct Hxor as (s2 & H2 & Hv2 & Hb2); [vm_compute; discriminate|].
  exists s1, s2. split; [exact H1|]. split; [exact Hv1|]. split; [exact Hb1|].
  split; [exact H2|]. split; [exact Hv2|exact Hb2].
Defined.

(** ** What the reset leaves as it was *)

Lemma overwrite_lookup_outside (m : list Z) (a : nat) (bytes : list Z)
  (k : nat) :
  (a + length bytes <= length m)%nat ->
  (k < a)%nat \/ (a + length bytes <= k)%nat ->
  overwrite m a bytes !! k = m !! k.
Proof.
  intros Hfit Hk. unfold overwrite.
  assert (Hl : length (take a m) = a) by (rewrite length_take; lia).
  destruct Hk as [Hk|Hk].
  - rewrite lookup_app_l by lia. now apply lookup_take_lt.
  - rewrite lookup_app_r by lia. rewrite lookup_app_r by lia.
    rewrite lookup_drop, Hl. f_equal. lia.
Qed.

Lemma keys_loop_false (t : chip8) :
  keys_extent t ->
  for_loop 16 0 (fun i s =>
    ks <- assign KeysPressed (m_KeysPressed s) i false ;;
    Completes (set_KeysPressed ks s)) t
  = Completes (set_KeysPressed (replicate 16 false) t).
Proof.
  intros Hk.
  destruct (for_loop_invariant
              (fun i u => keys_extent u /\
                          (forall k, (k < Z.to_nat i)%nat ->
                                     m_KeysPressed u !! k = Some false) /\
                          u = set_KeysPressed (m_KeysPressed u) t)
              (fun i s => ks <- assign KeysPressed (m_KeysPressed s) i false ;;
                          Completes (set_KeysPressed ks s)) 16 0 t)
    as (t' & Ht' & He & Hall & Hrest).
  - split; [exact Hk|]. split; [intros k Hlt; simpl in Hlt; lia|].
    now destruct t.
  - intros j u Hj (Hu & Hall & Hrest). unfold keys_extent in Hu.
    rewrite assign_in_range by (rewrite Hu; lia). simpl.
    eexists. split; [reflexivity|]. split; [|split].
    + unfold keys_extent. simpl. now rewrite length_insert.
    + intros k Hlt. simpl.
      destruct (Nat.eq_dec k (Z.to_nat j)) as [->|Hne].
      * apply list_lookup_insert_eq. rewrite Hu. lia.
      * rewrite list_lookup_insert_ne by lia. apply Hall. lia.
    + simpl. rewrite Hrest at 2. reflexivity.
  - rewrite Ht'. f_equal. rewrite Hrest. f_equal.
    apply list_eq. intros k. destruct (Nat.lt_ge_cases k 16) as [Hlt|Hge].
    + rewrite Hall by (simpl; lia). symmetry.
      now apply lookup_replicate_2.
    + rewrite !lookup_ge_None_2; [reflexivity| |].
      * rewrite length_replicate. lia.
      * unfold keys_extent in He. lia.
Qed.

(** The reset writes the registers, the index register, the program counter,
    the key latch, the font and the image, and nothing else: the screen is
    not cleared, the stack is not emptied, the timers keep their values, and
    the memory between the font and 0x200 and behind the image holds what it
    held before. *)
Theorem CPUReset_leaves_the_rest (image : list Z) (s : chip8) :
  keys_extent s ->
  0x200 + Z.of_nat (length (transferred image))
    <= Z.of_nat (length (m_GameMemory s)) ->
  exists s', CPUReset (Some image) s = Completes s' /\
    m_Registers s' = replicate 16 0 /\ m_AddressI s' = 0 /\
    m_KeysPressed s' = replicate 16 false /\
    m_ScreenData s' = m_ScreenData s /\ m_stack s' = m_stack s /\
    m_DelayTimer s' = m_DelayTimer s /\ m_SoundTimer s' = m_SoundTimer s /\
    forall a, 80 <= a < 0x200 \/
              0x200 + Z.of_nat (length (transferred image)) <= a ->
      m_GameMemory s' !! Z.to_nat a = m_GameMemory s !! Z.to_nat a.
Proof.
  intros Hk Hfit.
  set (s0 := set_Registers (replicate 16 0)
               (set_ProgramCounter 0x200
                  (set_AddressI 0 (set_ProgramRunning true s)))).
  assert (Hfont : store_bytes 0 fontset s0 =
            Completes (set_GameMemory (overwrite (m_GameMemory s) 0 fontset) s0)).
  { rewrite store_bytes_in_range; [reflexivity|lia|]. simpl. lia. }
  set (m1 := overwrite (m_GameMemory s) 0 fontset) in *.
  assert (Hm1 : length m1 = length (m_GameMemory s)).
  { unfold m1, overwrite. simpl take.
    rewrite !length_app, length_drop. simpl. lia. }
  unfold CPUReset. fold s0. rewrite fontset_loop, Hfont.
  cbn [bind]. cbv zeta. unfold fread. fold (transferred image).
  set (bytes := transferred image) in *.
  rewrite store_bytes_in_range by (cbn [m_GameMemory set_GameMemory]; lia).
  cbn [bind].
  change (m_GameMemory (set_GameMemory m1 s0)) with m1.
  set (m2 := overwrite m1 (Z.to_nat 512) bytes).
  rewrite keys_loop_false by exact Hk.
  eexists. split; [reflexivity|].
  cbn [m_Registers m_AddressI m_KeysPressed m_ScreenData m_stack m_DelayTimer
       m_SoundTimer m_GameMemory set_KeysPressed set_GameMemory set_Registers
       set_ProgramCounter set_AddressI set_ProgramRunning s0].
  repeat (split; [reflexivity|]).
  intros a Ha. unfold m2.
  rewrite overwrite_lookup_outside by lia.
  unfold m1. apply overwrite_lookup_outside; simpl; lia.
Qed.

Lemma CPUReset_leaves_the_rest_witness :
  let s := set_DelayTimer 9
             (set_ScreenData (<[3%nat := replicate 32 1]>
                                (replicate 64 (replicate 32 0)))
                (set_stack [0x222] power_on)) in
  exists s', CPUReset (Some [0x00; 0xE0]) s = Completes s' /\
             m_ScreenData s' = m_ScreenData s /\ m_stack s' = [0x222] /\
             m_DelayTimer s' = 9.
Proof.
  destruct (CPUReset_leaves_the_rest [0x00; 0xE0]
              (set_DelayTimer 9
                 (set_ScreenData (<[3%nat := replicate 32 1]>
                                    (replicate 64 (replicate 32 0)))
                    (set_stack [0x222] power_on))))
    as (s' & Hs' & _ & _ & _ & Hscr & Hst & Hd & _).
  - reflexivity.
  - vm_compute. discriminate.
  - exists s'. split; [exact Hs'|]. split; [exact Hscr|].
    split; [exact Hst|exact Hd].
Defined.

(** ** Draws in sequence *)

Lemma screen_eq (s t : chip8) :
  screen_extent s -> screen_extent t ->
  (forall px py, 0 <= px < 64 -> 0 <= py < 32 -> pixel t px py = pixel s px py) ->
  m_ScreenData t = m_ScreenData s.
Proof.
  intros [Hs Hcs] [Ht Hct] Hpix. apply list_eq. intros i.
  destruct (Nat.lt_ge_cases i 64) as [Hi|Hi].
  - destruct (lookup_lt_is_Some_2 (m_ScreenData s) i) as [cs Ecs]; [lia|].
    destruct (lookup_lt_is_Some_2 (m_ScreenData t) i) as [ct Ect]; [lia|].
    rewrite Ecs, Ect. f_equal.
    pose proof (Hcs cs (list_elem_of_lookup_2 _ _ _ Ecs)) as Hls.
    pose proof (Hct ct (list_elem_of_lookup_2 _ _ _ Ect)) as Hlt.
    apply list_eq. intros k.
    destruct (Nat.lt_ge_cases k 32) as [Hk|Hk].
    + specialize (Hpix (Z.of_nat i) (Z.of_nat k) ltac:(lia) ltac:(lia)).
      unfold pixel, cell in Hpix. rewrite !Nat2Z.id, Ecs, Ect in Hpix.
      destruct (lookup_lt_is_Some_2 cs k) as [a Ea]; [lia|].
      destruct (lookup_lt_is_Some_2 ct k) as [b Eb]; [lia|].
      rewrite Ea, Eb in *. simpl in Hpix. now f_equal.
    + rewrite !lookup_ge_None_2 by lia. reflexivity.
  - rewrite !lookup_ge_None_2 by lia. reflexivity.
Qed.

Lemma cell_blank (x y : Z) : cell (replicate 64 (replicate 32 0)) x y = 0.
Proof.
  unfold cell. destruct (_ !! Z.to_nat x) as [col|] eqn:E; [|reflexivity].
  apply lookup_replicate in E as [-> _].
  destruct (_ !! Z.to_nat y) as [p|] eqn:E; [|reflexivity].
  now apply lookup_replicate in E as [-> _].
Qed.

Lemma sprite_bit_same (s t : chip8) (r c : Z) :
  m_GameMemory t = m_GameMemory s -> m_AddressI t = m_AddressI s ->
  sprite_bit t r c = sprite_bit s r c.
Proof. intros Hm HI. unfold sprite_bit, sprite_row. now rewrite Hm, HI. Qed.

Lemma toggled_same (s t : chip8) (vx vy j k px py : Z) :
  m_GameMemory t = m_GameMemory s -> m_AddressI t = m_AddressI s ->
  toggled t vx vy j k px py = toggled s vx vy j k px py.
Proof.
  intros Hm HI. unfold toggled. cbv zeta.
  now rewrite (sprite_bit_same s t) by assumption.
Qed.

Lemma flip_byte (p : Z) : 0 <= p < 256 -> 0 <= Z.lxor p 1 < 256.
Proof. intros Hp. apply lxor_byte; lia. Qed.

Lemma flip_twice (p : Z) :
  0 <= p < 256 -> BYTE (Z.lxor (BYTE (Z.lxor p 1)) 1) = p.
Proof.
  intros Hp. pose proof (flip_byte p Hp) as Hf. unfold BYTE.
  rewrite (Z.mod_small (Z.lxor p 1)) by lia.
  rewrite Z.lxor_assoc, Z.lxor_nilpotent, Z.lxor_0_r.
  apply Z.mod_small. lia.
Qed.

Lemma flip_lit (p : Z) : 0 <= p < 256 -> BYTE (Z.lxor p 1) = 1 <-> p = 0.
Proof.
  intros Hp. pose proof (flip_byte p Hp) as Hf. unfold BYTE.
  rewrite Z.mod_small by lia. split.
  - intros H.
    rewrite <- (Z.lxor_0_r p), <- (Z.lxor_nilpotent 1), <- Z.lxor_assoc, H.
    reflexivity.
  - intros ->. reflexivity.
Qed.

Lemma untouched_trans (s t u : chip8) :
  untouched s t -> untouched t u -> untouched s u.
Proof.
  unfold untouched. intros (?&?&?&?&?&?&?&?) (?&?&?&?&?&?&?&?).
  repeat split; congruence.
Qed.

(** Drawing the same sprite at the same place a second time puts the screen
    back as it was, when the coordinates are not taken from VF, which the
    first draw overwrites.  The second draw ends with VF at 1 exactly when
    some set bit of the sprite fell on a pixel that was dark before the
    first. *)
Theorem draw_twice_restores_screen (opcode : Z) (s : chip8) :
  registers_extent s -> screen_extent s ->
  field_x opcode <> 0xF -> field_y opcode <> 0xF ->
  let vx := V s (field_x opcode) in
  let vy := V s (field_y opcode) in
  let n := Z.land opcode 0x000F in
  0 <= vx -> 0 <= vy ->
  0 <= m_AddressI s ->
  m_AddressI s + n <= Z.of_nat (length (m_GameMemory s)) ->
  (forall px py, 0 <= px < 64 -> 0 <= py < 32 -> 0 <= pixel s px py < 256) ->
  exists s1 s2,
    OpcodeDXYN opcode s = Completes s1 /\
    OpcodeDXYN opcode s1 = Completes s2 /\
    m_ScreenData s2 = m_ScreenData s /\
    (V s2 0xF = 1 <->
       exists r c, 0 <= r < n /\ 0 <= c < 8 /\ sprite_bit s r c = true /\
                   pixel s ((vx + c) mod 64) ((vy + r) mod 32) = 0) /\
    (forall i, 0 <= i -> i <> 0xF -> V s2 i = V s i) /\
    untouched s s2.
Proof.
  intros Hreg Hscr HxF HyF vx vy n Hvx Hvy HI Hrows Hbytes.
  pose proof (field_x_range opcode) as Hxr.
  pose proof (field_y_range opcode) as Hyr.
  assert (Hn : 0 <= n < 16).
  { unfold n. rewrite nibble_spec. apply Z.mod_pos_bound. lia. }
  destruct (OpcodeDXYN_completes opcode s Hreg Hscr Hvx Hvy HI Hrows)
    as (s1 & H1 & Hinv1). fold vx vy n in Hinv1.
  destruct Hinv1 as [Hreg1 Hscr1 Hpix1 _ Hoth1 Hrest1].
  pose proof Hrest1 as (Hmem1 & HI1 & _).
  assert (Hx1 : V s1 (field_x opcode) = vx) by (apply Hoth1; lia).
  assert (Hy1 : V s1 (field_y opcode) = vy) by (apply Hoth1; lia).
  destruct (OpcodeDXYN_completes opcode s1 Hreg1 Hscr1) as (s2 & H2 & Hinv2);
    [rewrite Hx1; exact Hvx | rewrite Hy1; exact Hvy | rewrite HI1; exact HI
    | rewrite HI1, Hmem1; exact Hrows |].
  rewrite Hx1, Hy1 in Hinv2. fold n in Hinv2.
  destruct Hinv2 as [Hreg2 Hscr2 Hpix2 Hflag2 Hoth2 Hrest2].
  assert (Hon : forall r c, 0 <= r < n -> 0 <= c < 8 ->
            sprite_bit s r c = true ->
            pixel s1 ((vx + c) mod 64) ((vy + r) mod 32)
            = BYTE (Z.lxor (pixel s ((vx + c) mod 64) ((vy + r) mod 32)) 1)).
  { intros r c Hr Hc Hbit.
    assert (Hpx : 0 <= (vx + c) mod 64 < 64) by (apply Z.mod_pos_bound; lia).
    assert (Hpy : 0 <= (vy + r) mod 32 < 32) by (apply Z.mod_pos_bound; lia).
    rewrite (Hpix1 _ _ Hpx Hpy).
    assert (Ht : toggled s vx vy n 0 ((vx + c) mod 64) ((vy + r) mod 32)
                 = true).
    { apply toggled_iff; [lia|exact Hpx|exact Hpy|].
      exists r, c. repeat split; auto; lia. }
    now rewrite Ht. }
  exists s1, s2. split; [exact H1|]. split; [exact H2|].
  split; [|split; [|split]].
  - apply screen_eq; [exact Hscr|exact Hscr2|].
    intros px py Hpx Hpy. rewrite (Hpix2 px py Hpx Hpy).
    rewrite (toggled_same s s1) by assumption.
    rewrite (Hpix1 px py Hpx Hpy).
    destruct (toggled s vx vy n 0 px py); [|reflexivity].
    apply flip_twice. now apply Hbytes.
  - destruct Hflag2 as [[HF (r & c & Hp & Hbit & Hlit)]
                       |[HF Hnone]].
    + split; [intros _|intros _; exact HF].
      destruct Hp as (Hr0 & Hc & Hrn).
      assert (Hr : 0 <= r < n) by lia.
      rewrite (sprite_bit_same s s1) in Hbit by assumption.
      exists r, c. split; [exact Hr|]. split; [exact Hc|].
      split; [exact Hbit|].
      rewrite (Hon r c Hr Hc Hbit) in Hlit.
      apply flip_lit in Hlit; [exact Hlit|].
      apply Hbytes; apply Z.mod_pos_bound; lia.
    + split; [intros H; rewrite HF in H; discriminate|].
      intros (r & c & Hr & Hc & Hbit & Hdark). exfalso.
      apply (Hnone r c); [unfold passed; lia|].
      split; [now rewrite (sprite_bit_same s s1) by assumption|].
      rewrite (Hon r c Hr Hc Hbit), Hdark. reflexivity.
  - intros i Hi HiF. rewrite (Hoth2 i Hi HiF). now apply Hoth1.
  - eapply untouched_trans; eauto.
Qed.

Lemma draw_twice_restores_screen_witness :
  exists s1 s2,
    OpcodeDXYN 0xD015 (loaded []) = Completes s1 /\
    OpcodeDXYN 0xD015 s1 = Completes s2 /\
    m_ScreenData s2 = m_ScreenData (loaded []) /\ V s2 0xF = 1.
Proof.
  assert (Hblank : m_ScreenData (loaded []) = replicate 64 (replicate 32 0))
    by (vm_compute; reflexivity).
  destruct (draw_twice_restores_screen 0xD015 (loaded []))
    as (s1 & s2 & H1 & H2 & Hscr & Hflag & _).
  - vm_compute. reflexivity.
  - now apply screen_extent_blank.
  - vm_compute. discriminate.
  - vm_compute. discriminate.
  - vm_compute. discriminate.
  - vm_compute. discriminate.
  - vm_compute. discriminate.
  - vm_compute. discriminate.
  - intros px py _ _. unfold pixel. rewrite Hblank, cell_blank. lia.
  - exists s1, s2. split; [exact H1|]. split; [exact H2|].
    split; [exact Hscr|]. apply Hflag.
    exists 0, 0. split; [vm_compute; split; [discriminate|reflexivity]|].
    split; [lia|]. split; vm_compute; reflexivity.
Defined.

(** A draw on a screen just cleared shows the sprite and nothing else: a
    pixel is 1 where a set bit of the sprite falls and 0 elsewhere, and VF
    ends at 0. *)
Theorem clear_then_draw_shows_sprite (clear opcode : Z) (s : chip8) :
  registers_extent s ->
  let vx := V s (field_x opcode) in
  let vy := V s (field_y opcode) in
  let n := Z.land opcode 0x000F in
  0 <= vx -> 0 <= vy ->
  0 <= m_AddressI s ->
  m_AddressI s + n <= Z.of_nat (length (m_GameMemory s)) ->
  exists s1 s2,
    Opcode00E0 clear s = Completes s1 /\
    OpcodeDXYN opcode s1 = Completes s2 /\
    V s2 0xF = 0 /\
    forall px py, 0 <= px < 64 -> 0 <= py < 32 ->
      (pixel s2 px py = 0 \/ pixel s2 px py = 1) /\
      (pixel s2 px py = 1 <->
         exists r c, 0 <= r < n /\ 0 <= c < 8 /\ sprite_bit s r c = true /\
                     (vx + c) mod 64 = px /\ (vy + r) mod 32 = py).
Proof.
  intros Hreg vx vy n Hvx Hvy HI Hrows.
  assert (Hn : 0 <= n < 16).
  { unfold n. rewrite nibble_spec. apply Z.mod_pos_bound. lia. }
  set (s1 := set_ScreenData (replicate 64 (replicate 32 0)) s).
  assert (Hdark : forall px py, pixel s1 px py = 0)
    by (intros px py; apply cell_blank).
  destruct (OpcodeDXYN_completes opcode s1) as (s2 & H2 & Hinv);
    [exact Hreg | now apply screen_extent_blank | exact Hvx | exact Hvy
    | exact HI | exact Hrows |].
  change (V s1 (field_x opcode)) with vx in Hinv.
  change (V s1 (field_y opcode)) with vy in Hinv. fold n in Hinv.
  destruct Hinv as [_ _ Hpix Hflag _ _].
  exists s1, s2. split; [reflexivity|]. split; [exact H2|]. split.
  - destruct Hflag as [[_ (r & c & _ & _ & Hlit)]|[HF _]]; [|exact HF].
    rewrite Hdark in Hlit. discriminate.
  - intros px py Hpx Hpy. rewrite (Hpix px py Hpx Hpy), Hdark.
    rewrite <- (toggled_iff s vx vy n px py) by lia.
    change (toggled s vx vy n 0 px py) with (toggled s1 vx vy n 0 px py).
    destruct (toggled s1 vx vy n 0 px py).
    + split; [right; reflexivity|]. split; reflexivity.
    + split; [left; reflexivity|]. split; discriminate.
Qed.

Lemma clear_then_draw_shows_sprite_witness :
  let s := set_ScreenData (replicate 64 (replicate 32 1)) (loaded []) in
  exists s1 s2,
    Opcode00E0 0x00E0 s = Completes s1 /\
    OpcodeDXYN 0xD015 s1 = Completes s2 /\
    V s2 0xF = 0 /\ pixel s2 0 0 = 1 /\ pixel s2 1 1 = 0.
Proof.
  destruct (clear_then_draw_shows_sprite 0x00E0 0xD015
              (set_ScreenData (replicate 64 (replicate 32 1)) (loaded [])))
    as (s1 & s2 & H1 & H2 & HF & Hpix).
  - vm_compute. reflexivity.
  - vm_compute. discriminate.
  - vm_compute. discriminate.
  - vm_compute. discriminate.
  - vm_compute. discriminate.
  - exists s1, s2. split; [exact H1|]. split; [exact H2|].
    split; [exact HF|]. split.
    + apply (Hpix 0 0); [lia|lia|].
      exists 0, 0. split; [vm_compute; split; [discriminate|reflexivity]|].
      split; [lia|]. split; [vm_compute; reflexivity|].
      split; vm_compute; reflexivity.
    + destruct (Hpix 1 1 ltac:(lia) ltac:(lia)) as [[H0|H1'] Hiff];
        [exact H0|].
      apply Hiff in H1' as (r & c & Hr & Hc & Hbit & Hx & Hy).
      exfalso.
      change (V _ (field_x 0xD015)) with 0 in Hx.
      change (V _ (field_y 0xD015)) with 0 in Hy.
      rewrite Z.add_0_l in Hx, Hy.
      rewrite Z.mod_small in Hx by lia.
      change (Z.land 0xD015 0x000F) with 5 in Hr.
      rewrite Z.mod_small in Hy by lia. subst r c.
      vm_compute in Hbit. discriminate.
Defined.

(** ** What each instruction may write *)














